(** * Query execution engine of the browser-driven LLM servers

    A shallow embedding of the polling loops of [queryPerplexity]
    (server.js) and [queryGemini] (gemini-server.js), of the two
    adapters' [submitQuery] / [extractAnswer], and of the request queue
    ([enqueue] / [processQueue]); then of the citation scan, the browser
    handle, the chat-completions handlers with their response builders,
    the router and the two queries of the unified server, and the
    command-line client.

    Conventions.
    - A JavaScript string is a [string]; its characters are read as the
      code units U+0000..U+00FF, [String.length] is [.length].
    - Whatever the browser answers is an input of the model: the outcome
      of every awaited call on the page is a [Completion] (a value, or a
      thrown exception with its message), the clock is the value of
      [Date.now() - start] read by each evaluation of the loop condition.
    - What an execution does to the outside is recorded as a list of
      [Event]s, in program order. *)

From Stdlib Require Import String Ascii List ZArith Bool Arith Lia.
From Stdlib Require Import DecimalString.
Import ListNotations.
Local Open Scope string_scope.
Local Open Scope list_scope.
Local Open Scope nat_scope.

(** ** JavaScript values and string primitives *)

(** The completion of an awaited call: it returns a value or throws. *)
Inductive Completion (A : Type) : Type :=
| Returned (a : A)
| Thrown (message : string).
Arguments Returned {A} a.
Arguments Thrown {A} message.

(** How far an execution got on the part of the browser's behaviour that
    was supplied: still inside the polling loop with the loop variables
    [st], or finished with a completion. *)
Inductive Progress (S R : Type) : Type :=
| Running (st : S)
| Finished (c : Completion R).
Arguments Running {S R} st.
Arguments Finished {S R} c.

(** Truthiness of a string: [if (s)] holds for every non-empty string. *)
Definition truthy (s : string) : bool :=
  match s with
  | EmptyString => false
  | String _ _ => true
  end.

(** [s.slice(n)]: the suffix of [s] from offset [n]. *)
Fixpoint slice_from (n : nat) (s : string) : string :=
  match n, s with
  | O, _ => s
  | S _, EmptyString => EmptyString
  | S n', String _ s' => slice_from n' s'
  end.

(** [s.slice(0, n)]: the first [n] code units of [s]. *)
Fixpoint slice_to (n : nat) (s : string) : string :=
  match n, s with
  | O, _ => EmptyString
  | S _, EmptyString => EmptyString
  | S n', String c s' => String c (slice_to n' s')
  end.

(** [s.startsWith(p)]. *)
Definition startsWith (s p : string) : bool := String.prefix p s.

(** The class [\s] on code units below 256: TAB, LF, VT, FF, CR, space
    and the no-break space. *)
Definition is_space (c : ascii) : bool :=
  let n := nat_of_ascii c in
  ((9 <=? n) && (n <=? 13)) || (n =? 32) || (n =? 160).

(** [toLowerCase] on one code unit below 256: A-Z and the Latin-1
    capitals (all of U+00C0..U+00DE but the multiplication sign). *)
Definition lower_char (c : ascii) : ascii :=
  let n := nat_of_ascii c in
  if ((65 <=? n) && (n <=? 90))
     || ((192 <=? n) && (n <=? 222) && negb (n =? 215))
  then ascii_of_nat (n + 32) else c.

Fixpoint toLowerCase (s : string) : string :=
  match s with
  | EmptyString => EmptyString
  | String c s' => String (lower_char c) (toLowerCase s')
  end.

(** Drops the white space at the front of [s]. *)
Fixpoint skip_spaces (s : string) : string :=
  match s with
  | EmptyString => EmptyString
  | String c s' => if is_space c then skip_spaces s' else s
  end.

(** [s.replace(/\s+/g, ' ')]: every maximal run of white space becomes
    one space. *)
Fixpoint collapse_spaces (s : string) : string :=
  match s with
  | EmptyString => EmptyString
  | String c s' =>
      if is_space c then
        match s' with
        | String d _ => if is_space d then collapse_spaces s'
                        else String " "%char (collapse_spaces s')
        | EmptyString => String " "%char EmptyString
        end
      else String c (collapse_spaces s')
  end.

(** Drops the white space at the end of [s]. *)
Fixpoint trim_end (s : string) : string :=
  match s with
  | EmptyString => EmptyString
  | String c s' =>
      match trim_end s' with
      | EmptyString => if is_space c then EmptyString else String c EmptyString
      | t => String c t
      end
  end.

(** [s.trim()]. *)
Definition trim (s : string) : string := trim_end (skip_spaces s).

(** [arr.join(sep)]. *)
Fixpoint join (sep : string) (parts : list string) : string :=
  match parts with
  | [] => EmptyString
  | [p] => p
  | p :: rest => (p ++ sep ++ join sep rest)%string
  end.

(** The loop of the extractors that keeps the longest text read so far:
    [if (t.length > answerText.length) answerText = t]. *)
Definition keep_longest (answerText : string) (candidates : list string)
  : string :=
  fold_left
    (fun best t => if String.length best <? String.length t then t else best)
    candidates answerText.

(** ** What an execution does to the outside *)

Inductive Event : Type :=
| EvGoto                      (* page.goto(...) *)
| EvSubmit                    (* the call of submitQuery *)
| EvInsertText (text : string)(* Input.insertText through the CDP session *)
| EvExtract                   (* one call of extractAnswer by the loop *)
| EvChunk (delta : string)    (* onChunk(delta) *)
| EvPageClose                 (* page.close() *)
| EvContextClose.             (* context.close() *)

(** The deltas handed to [onChunk], in emission order. *)
Fixpoint chunks (t : list Event) : list string :=
  match t with
  | [] => []
  | EvChunk d :: t' => d :: chunks t'
  | _ :: t' => chunks t'
  end.

(** Concatenation of the emitted deltas. *)
Definition streamed (t : list Event) : string :=
  fold_right String.append EmptyString (chunks t).

Definition is_extract (e : Event) : bool :=
  match e with EvExtract => true | _ => false end.
Definition is_chunk (e : Event) : bool :=
  match e with EvChunk _ => true | _ => false end.
Definition is_page_close (e : Event) : bool :=
  match e with EvPageClose => true | _ => false end.
Definition is_context_close (e : Event) : bool :=
  match e with EvContextClose => true | _ => false end.

(** Number of events of a kind in a trace. *)
Definition count (p : Event -> bool) (t : list Event) : nat :=
  List.length (filter p t).

(** Puts the events [evs] before those of a continuation. *)
Definition after {S R : Type} (evs : list Event)
  (k : list Event * Progress S R) : list Event * Progress S R :=
  (evs ++ fst k, snd k).

(** The variables of the polling loop: [lastText], [stableCount] and
    [lastChunkedLength]. *)
Record Loop : Type := mkLoop {
  lastText : string;
  stableCount : nat;
  lastChunkedLength : nat
}.

(** Their values when the loop is entered. *)
Definition loop_start : Loop :=
  {| lastText := ""; stableCount := 0; lastChunkedLength := 0 |}.

(** A citation. *)
Record Source : Type := mkSource { title : string; url : string }.

(** The computed style and bounding box that [submitQuery] reads from a
    candidate element. *)
Record Box : Type := mkBox {
  display : string;
  visibility : string;
  opacity : string;
  rect_height : Z;
  rect_width : Z
}.

(** A candidate input element: what [element.evaluate] returns (or that
    it throws), and whether the click / clear / insert / confirm sequence
    on it runs to its end without an exception. *)
Record Element : Type := mkElement {
  evaluate : Completion Box;
  operable : bool
}.

(** The page as [submitQuery] sees it: the scroll call before the scan
    and the answer of [page.$$] to each selector. *)
Record InputSurface : Type := mkInputSurface {
  scrollTo : Completion unit;
  query_all : string -> Completion (list Element)
}.

(** Outcome of the inner [for (const element of elements)] of
    [submitQuery]. *)
Inductive Scan : Type :=
| Submitted        (* return true *)
| Exhausted        (* the loop ran to its end *)
| Caught.          (* an exception reached the catch of the selector *)

(** The inner loop of [submitQuery], the same in both servers up to the
    visibility test [isVisible]: an element that is not visible is
    skipped, the first visible one is operated and ends the scan; an
    exception anywhere leaves the loop for the [catch]. Only a sequence
    that completes is recorded, as its [EvInsertText]. *)
Fixpoint scan_elements (isVisible : Box -> bool) (query : string)
  (els : list Element) : list Event * Scan :=
  match els with
  | [] => ([], Exhausted)
  | el :: rest =>
      match evaluate el with
      | Thrown _ => ([], Caught)
      | Returned b =>
          if isVisible b then
            if operable el then ([EvInsertText query], Submitted)
            else ([], Caught)
          else scan_elements isVisible query rest
      end
  end.

(** The outer [for (const selector of selectors)] with its
    [try { ... } catch { continue; }]; [false] is the [return false]
    after the loop. *)
Fixpoint scan_selectors (isVisible : Box -> bool) (s : InputSurface)
  (query : string) (sels : list string) : list Event * bool :=
  match sels with
  | [] => ([], false)
  | sel :: rest =>
      match query_all s sel with
      | Thrown _ => scan_selectors isVisible s query rest
      | Returned els =>
          match scan_elements isVisible query els with
          | (evs, Submitted) => (evs, true)
          | (_, _) => scan_selectors isVisible s query rest
          end
      end
  end.

(** A box that is displayed, one that is not, and one of no size. *)
Definition shown_box : Box :=
  {| display := "block"; visibility := "visible"; opacity := "1";
     rect_height := 40; rect_width := 600 |}.
Definition hidden_box : Box :=
  {| display := "none"; visibility := "visible"; opacity := "1";
     rect_height := 40; rect_width := 600 |}.
Definition empty_box : Box :=
  {| display := "block"; visibility := "visible"; opacity := "1";
     rect_height := 0; rect_width := 0 |}.

(** A page with one usable textarea. *)
Definition usable_page : InputSurface :=
  {| scrollTo := Returned tt;
     query_all := fun sel =>
       if String.eqb sel "textarea"
       then Returned [ {| evaluate := Returned shown_box; operable := true |} ]
       else Returned [] |}.

(** A page whose textareas are hidden or of no size, whose text inputs
    cannot be listed, and that has no other candidate. *)
Definition unusable_page : InputSurface :=
  {| scrollTo := Returned tt;
     query_all := fun sel =>
       if String.eqb sel "textarea"
       then Returned [ {| evaluate := Returned hidden_box; operable := true |};
                       {| evaluate := Returned empty_box; operable := true |} ]
       else if String.eqb sel "input[type=text]"
       then Thrown "Protocol error"
       else Returned [] |}.

(** Loop-condition readings one second apart, the first [n] of them
    from [ms] on. *)
Fixpoint ticks (ms : Z) (n : nat) : list Z :=
  match n with
  | O => []
  | S n' => ms :: ticks (ms + 1000) n'
  end.

(** ** The Perplexity engine (server.js) *)

Module Perplexity.

Definition MAX_TIMEOUT : Z := 120000.

(** The object returned by [extractAnswer]. *)
Record Extraction : Type := mkExtraction {
  answerText : string;
  sources : list Source;
  isLoading : bool
}.

(** The object the query resolves with. *)
Record Result : Type := mkResult {
  answer : string;
  result_sources : list Source
}.

(** One evaluation of the loop condition together with the call of
    [extractAnswer] that follows it when the condition holds. *)
Record Poll : Type := mkPoll {
  elapsed : Z;                        (* Date.now() - start *)
  extraction : Completion Extraction  (* await extractAnswer(page) *)
}.

(** What [extractAnswer] reads in the document. *)
Record Dom : Type := mkDom {
  prose : list string;      (* trimmed text of each .prose element *)
  fallback : list string;   (* trimmed text of the fallback elements *)
  citations : list Source;  (* the sources the citation scan collects *)
  spinner : bool;           (* a loading indicator is present *)
  prevLen : nat             (* data-prev-len left by the previous call *)
}.

(** [extractAnswer(page)]: the paragraphs longer than 5 joined by a
    blank line, the longest fallback text when that is under 30; it
    receives no query. *)
Definition extractAnswer (d : Dom) : Extraction :=
  let paragraphs := filter (fun t => 5 <? String.length t) (prose d) in
  let joined := join (String "010"%char (String "010"%char EmptyString)) paragraphs in
  let text := if String.length joined <? 30
              then keep_longest joined (fallback d) else joined in
  let isGrowing := (prevLen d <? String.length text) && (0 <? prevLen d) in
  {| answerText := text;
     sources := citations d;
     isLoading := spinner d || isGrowing |}.

(** The candidate selectors, in the order tried (attribute values are
    written without their quotes, which CSS allows). *)
Definition selectors : list string :=
  [ "textarea"; "[contenteditable=true]"; "input[type=text]";
    "[placeholder*=Ask]"; "[placeholder*=Search]";
    "[placeholder*=follow]"; "[role=textbox]" ].

(** The test made inside [element.evaluate]. *)
Definition isVisible (b : Box) : bool :=
  negb (String.eqb (display b) "none")
  && negb (String.eqb (visibility b) "hidden")
  && (0 <? rect_height b)%Z
  && (0 <? rect_width b)%Z.

(** [submitQuery(page, query)]. *)
Definition submitQuery (s : InputSurface) (query : string)
  : list Event * Completion bool :=
  match scrollTo s with
  | Thrown e => ([], Thrown e)
  | Returned _ =>
      let r := scan_selectors isVisible s query selectors in
      (fst r, Returned (snd r))
  end.

(** The body of the [while]: what one extraction does to the loop
    variables; [inr] is the [return] inside the loop. *)
Definition loop_body (onChunk : bool) (ext : Extraction) (st : Loop)
  : list Event * (Loop + Result) :=
  if truthy (answerText ext) then
    let grew := onChunk
                && (lastChunkedLength st <? String.length (answerText ext)) in
    let evs := if grew
               then [EvChunk (slice_from (lastChunkedLength st) (answerText ext))]
               else [] in
    let emitted := if grew then String.length (answerText ext)
                   else lastChunkedLength st in
    if String.eqb (answerText ext) (lastText st) then
      let n := S (stableCount st) in
      if (negb (isLoading ext) && (3 <=? n)) || (8 <=? n) then
        (evs, inr {| answer := answerText ext;
                     result_sources := sources ext |})
      else
        (evs, inl {| lastText := answerText ext;
                     stableCount := n;
                     lastChunkedLength := emitted |})
    else
      (evs, inl {| lastText := answerText ext;
                   stableCount := 0;
                   lastChunkedLength := emitted |})
  else ([], inl st).

(** The statements after the loop. *)
Definition after_loop (st : Loop) : Completion Result :=
  if truthy (lastText st)
  then Returned {| answer := lastText st; result_sources := [] |}
  else Thrown "Timeout: no answer received from Perplexity".

(** [while (Date.now() - start < MAX_TIMEOUT) { ... }] and what
    follows it, run on the polls supplied. *)
Fixpoint poll_loop (onChunk : bool) (polls : list Poll) (st : Loop)
  : list Event * Progress Loop Result :=
  match polls with
  | [] => ([], Running st)
  | p :: rest =>
      if (elapsed p <? MAX_TIMEOUT)%Z then
        match extraction p with
        | Thrown e => ([EvExtract], Finished (Thrown e))
        | Returned ext =>
            match loop_body onChunk ext st with
            | (evs, inr r) => (EvExtract :: evs, Finished (Returned r))
            | (evs, inl st') =>
                after (EvExtract :: evs) (poll_loop onChunk rest st')
            end
        end
      else ([], Finished (after_loop st))
  end.

(** The browser's side of one execution. *)
Record World : Type := mkWorld {
  createPage : Completion unit;   (* await createPage() *)
  goto : Completion unit;         (* await page.goto(...) *)
  surface : InputSurface;
  polls : list Poll
}.

(** The [try] block. *)
Definition try_block (query : string) (onChunk : bool) (w : World)
  : list Event * Progress Loop Result :=
  match goto w with
  | Thrown e => ([EvGoto], Finished (Thrown e))
  | Returned _ =>
      match submitQuery (surface w) query with
      | (evs, Thrown e) => (EvGoto :: EvSubmit :: evs, Finished (Thrown e))
      | (evs, Returned false) =>
          (EvGoto :: EvSubmit :: evs,
           Finished (Thrown "Could not find input field on Perplexity page"))
      | (evs, Returned true) =>
          after (EvGoto :: EvSubmit :: evs)
                (poll_loop onChunk (polls w) loop_start)
      end
  end.

(** [queryPerplexity(query, onChunk)]: the page is created before the
    [try]; the [finally] closes the page and then the context, and
    swallows what either close throws. [Finished (Returned r)] is the
    promise resolved with [r], [Finished (Thrown e)] the promise
    rejected with [e]. *)
Definition queryPerplexity (query : string) (onChunk : bool) (w : World)
  : list Event * Progress Loop Result :=
  match createPage w with
  | Thrown e => ([], Finished (Thrown e))
  | Returned _ =>
      match try_block query onChunk w with
      | (t, Running st) => (t, Running st)
      | (t, Finished c) => (t ++ [EvPageClose; EvContextClose], Finished c)
      end
  end.

(** *** Vocabulary of the statements *)

(** The poll [p] is taken before the deadline and reads the text [T]. *)
Definition reads (T : string) (p : Poll) : Prop :=
  (elapsed p < MAX_TIMEOUT)%Z
  /\ exists ext, extraction p = Returned ext /\ answerText ext = T.

(** The busy signal of a poll. *)
Definition busy (p : Poll) : bool :=
  match extraction p with
  | Returned ext => isLoading ext
  | Thrown _ => false
  end.

(** The citations read by a poll. *)
Definition cited (p : Poll) : list Source :=
  match extraction p with
  | Returned ext => sources ext
  | Thrown _ => []
  end.

(** The last text among [polls] that the guard of the loop lets in,
    [init] when there is none. *)
Definition last_accepted (init : string) (polls : list Poll) : string :=
  fold_left
    (fun acc p =>
       match extraction p with
       | Returned ext => if truthy (answerText ext) then answerText ext else acc
       | Thrown _ => acc
       end)
    polls init.

(** Every text the guard lets in extends the one let in before it
    ([last] at first); polls from the first late or failing one on are
    never looked at. *)
Fixpoint extends (last : string) (polls : list Poll) : Prop :=
  match polls with
  | [] => True
  | p :: rest =>
      if (elapsed p <? MAX_TIMEOUT)%Z then
        match extraction p with
        | Returned ext =>
            if truthy (answerText ext)
            then String.prefix last (answerText ext) = true
                 /\ extends (answerText ext) rest
            else extends last rest
        | Thrown _ => True
        end
      else True
  end.

(** The world [w] with another sequence of polls. *)
Definition with_polls (w : World) (ps : list Poll) : World :=
  {| createPage := createPage w; goto := goto w;
     surface := surface w; polls := ps |}.

(** The world in which the page is created and loaded, with the
    input surface [s] and the polls [ps]. *)
Definition world_of (s : InputSurface) (ps : list Poll) : World :=
  {| createPage := Returned tt; goto := Returned tt;
     surface := s; polls := ps |}.

(** A poll at [ms] that reads [text] with the busy signal [loading]
    and no citation. *)
Definition sample (ms : Z) (text : string) (loading : bool) : Poll :=
  {| elapsed := ms;
     extraction := Returned {| answerText := text; sources := [];
                               isLoading := loading |} |}.

End Perplexity.

(** ** The Gemini engine (gemini-server.js) *)

Module Gemini.

Definition MAX_TIMEOUT : Z := 300000.

(** The object returned by [extractAnswer]. *)
Record Extraction : Type := mkExtraction {
  answerText : string;
  isLoading : bool;
  modelResponseExists : bool
}.

(** The object the query resolves with: it has no citation list. *)
Record Result : Type := mkResult { answer : string }.

Record Poll : Type := mkPoll {
  elapsed : Z;                        (* Date.now() - start *)
  extraction : Completion Extraction  (* await extractAnswer(page, query) *)
}.

(** What [extractAnswer] reads in the document; every text is the
    result of [cleanText] on the element, and the lists hold the
    elements that pass the [closest(...)] filters, in document order. *)
Record Dom : Type := mkDom {
  modelResponse : bool;            (* a model-response element exists *)
  model_markdown : option string;  (* last 'model-response .markdown' *)
  model_last : option string;      (* last 'model-response' *)
  content_texts : list string;     (* strategy 2 *)
  panel_texts : list string;       (* strategy 3: last match per selector *)
  markdown_texts : list string;    (* strategy 4 *)
  model_raw : option string;       (* strategy 5: first 'model-response' *)
  pendingResponse : bool;          (* a pending-response element exists *)
  prevLen : nat                    (* data-prev-len *)
}.

Definition candidates (o : option string) : list string :=
  match o with Some t => [t] | None => [] end.

(** [s => s.replace(/\s+/g, ' ').trim().toLowerCase()]. *)
Definition norm (s : string) : string :=
  toLowerCase (trim (collapse_spaces s)).

(** [s.replace(/^you said\s*/i, '')]. *)
Definition strip_you_said (s : string) : string :=
  if startsWith (toLowerCase (slice_to 8 s)) "you said"
  then skip_spaces (slice_from 8 s) else s.

(** The echo guard at the end of [extractAnswer]. *)
Definition echo_guard (inputQuery answerText : string) : string :=
  if truthy inputQuery && truthy answerText then
    let normAnswer := norm answerText in
    let normQuery := norm inputQuery in
    if String.eqb normAnswer normQuery
       || startsWith normAnswer (slice_to 120 normQuery)
       || startsWith normAnswer ("you said " ++ slice_to 100 normQuery)%string
       || startsWith (strip_you_said normAnswer) (slice_to 120 normQuery)
    then "" else answerText
  else answerText.

(** The text kept by the five strategies of [extractAnswer], each run
    only while the text kept so far is under 30 characters. *)
Definition strategies (d : Dom) : string :=
  let t1 :=
    if modelResponse d then
      let a := keep_longest "" (candidates (model_markdown d)) in
      if String.length a <? 30
      then keep_longest a (candidates (model_last d)) else a
    else "" in
  let t2 := if String.length t1 <? 30
            then keep_longest t1 (content_texts d) else t1 in
  let t3 := if String.length t2 <? 30
            then keep_longest t2 (panel_texts d) else t2 in
  let t4 := if String.length t3 <? 30
            then keep_longest t3 (markdown_texts d) else t3 in
  if String.length t4 <? 30
  then keep_longest t4 (candidates (model_raw d)) else t4.

(** [extractAnswer(page, query)]: the strategies, the echo guard, then
    the busy signal. *)
Definition extractAnswer (d : Dom) (query : string) : Extraction :=
  let text := echo_guard query (strategies d) in
  let isGrowing := (prevLen d <? String.length text) && (0 <? prevLen d) in
  {| answerText := text;
     isLoading := pendingResponse d || isGrowing;
     modelResponseExists := modelResponse d |}.

(** The candidate selectors, in the order tried (attribute values are
    written without double quotes). *)
Definition selectors : list string :=
  [ ".ql-editor"; "rich-textarea .ql-editor";
    "rich-textarea [contenteditable=true]"; "[contenteditable=true]";
    "textarea"; "[aria-label*=prompt i]"; "[aria-label*='Enter a prompt' i]";
    "[placeholder*='Enter a prompt' i]"; "[placeholder*='Ask Gemini' i]";
    "input[type=text]"; "[role=textbox]" ].

Definition isVisible (b : Box) : bool :=
  negb (String.eqb (display b) "none")
  && negb (String.eqb (visibility b) "hidden")
  && negb (String.eqb (opacity b) "0")
  && (0 <? rect_height b)%Z
  && (0 <? rect_width b)%Z.

(** [submitQuery(page, query)]; the send button or the Enter key that
    confirms the text belongs to the sequence [operable] stands for. *)
Definition submitQuery (s : InputSurface) (query : string)
  : list Event * Completion bool :=
  match scrollTo s with
  | Thrown e => ([], Thrown e)
  | Returned _ =>
      let r := scan_selectors isVisible s query selectors in
      (fst r, Returned (snd r))
  end.

(** The body of the [while]; [inr] is a [return] inside the loop. *)
Definition loop_body (onChunk : bool) (ext : Extraction) (st : Loop)
  : list Event * (Loop + Result) :=
  if truthy (answerText ext) && (10 <? String.length (answerText ext)) then
    let grew := onChunk
                && (lastChunkedLength st <? String.length (answerText ext)) in
    let evs := if grew
               then [EvChunk (slice_from (lastChunkedLength st) (answerText ext))]
               else [] in
    let emitted := if grew then String.length (answerText ext)
                   else lastChunkedLength st in
    if String.eqb (answerText ext) (lastText st) then
      let n := S (stableCount st) in
      let doneThreshold := if modelResponseExists ext then 2 else 5 in
      if (negb (isLoading ext) && (doneThreshold <=? n)) || (10 <=? n) then
        (evs, inr {| answer := answerText ext |})
      else
        (evs, inl {| lastText := answerText ext;
                     stableCount := n;
                     lastChunkedLength := emitted |})
    else
      (evs, inl {| lastText := answerText ext;
                   stableCount := 0;
                   lastChunkedLength := emitted |})
  else if modelResponseExists ext && truthy (lastText st) then
    ([], inr {| answer := lastText st |})
  else ([], inl st).

(** The statements after the loop. *)
Definition after_loop (st : Loop) : Completion Result :=
  if truthy (lastText st)
  then Returned {| answer := lastText st |}
  else Thrown "Timeout: no answer received from Gemini".

(** [while (Date.now() - start < 120000) { ... }] and what follows it. *)
Fixpoint poll_loop (onChunk : bool) (polls : list Poll) (st : Loop)
  : list Event * Progress Loop Result :=
  match polls with
  | [] => ([], Running st)
  | p :: rest =>
      if (elapsed p <? 120000)%Z then
        match extraction p with
        | Thrown e => ([EvExtract], Finished (Thrown e))
        | Returned ext =>
            match loop_body onChunk ext st with
            | (evs, inr r) => (EvExtract :: evs, Finished (Returned r))
            | (evs, inl st') =>
                after (EvExtract :: evs) (poll_loop onChunk rest st')
            end
        end
      else ([], Finished (after_loop st))
  end.

(** The browser's side of one execution. The waits for
    pending-response and model-response and the debug snapshot sit in
    try/catch blocks of their own and throw nothing; they are left out. *)
Record World : Type := mkWorld {
  createPage : Completion unit;   (* await createPage(), context: null *)
  goto : Completion unit;         (* await page.goto(...) *)
  dismiss : Completion unit;      (* the page.evaluate closing dialogs *)
  surface : InputSurface;
  debug_dump : Completion unit;   (* page.content() and writeFileSync *)
  polls : list Poll
}.

(** The [try] block. *)
Definition try_block (query : string) (onChunk : bool) (w : World)
  : list Event * Progress Loop Result :=
  match goto w with
  | Thrown e => ([EvGoto], Finished (Thrown e))
  | Returned _ =>
      match dismiss w with
      | Thrown e => ([EvGoto], Finished (Thrown e))
      | Returned _ =>
          match submitQuery (surface w) query with
          | (evs, Thrown e) =>
              (EvGoto :: EvSubmit :: evs, Finished (Thrown e))
          | (evs, Returned false) =>
              (EvGoto :: EvSubmit :: evs,
               Finished
                 (match debug_dump w with
                  | Thrown e => Thrown e
                  | Returned _ =>
                      Thrown "Could not find input field on Gemini page"
                  end))
          | (evs, Returned true) =>
              after (EvGoto :: EvSubmit :: evs)
                    (poll_loop onChunk (polls w) loop_start)
          end
      end
  end.

(** [queryGemini(query, onChunk)]: [createPage] opens the page in the
    browser's default context and returns no context of its own; the
    [finally] closes the page. *)
Definition queryGemini (query : string) (onChunk : bool) (w : World)
  : list Event * Progress Loop Result :=
  match createPage w with
  | Thrown e => ([], Finished (Thrown e))
  | Returned _ =>
      match try_block query onChunk w with
      | (t, Running st) => (t, Running st)
      | (t, Finished c) => (t ++ [EvPageClose], Finished c)
      end
  end.

(** *** Vocabulary of the statements *)

(** The poll [p] is taken before the deadline and reads the text [T]. *)
Definition reads (T : string) (p : Poll) : Prop :=
  (elapsed p < 120000)%Z
  /\ exists ext, extraction p = Returned ext /\ answerText ext = T.

(** The busy signal of a poll. *)
Definition busy (p : Poll) : bool :=
  match extraction p with
  | Returned ext => isLoading ext
  | Thrown _ => false
  end.

(** The threshold of the early rule on a poll: [doneThreshold]. *)
Definition doneThreshold (p : Poll) : nat :=
  match extraction p with
  | Returned ext => if modelResponseExists ext then 2 else 5
  | Thrown _ => 5
  end.

(** The guard of the loop: a non-empty text longer than 10. *)
Definition long_enough (T : string) : bool :=
  truthy T && (10 <? String.length T).

(** The last text among [polls] that the guard of the loop lets in,
    [init] when there is none. *)
Definition last_accepted (init : string) (polls : list Poll) : string :=
  fold_left
    (fun acc p =>
       match extraction p with
       | Returned ext =>
           if long_enough (answerText ext) then answerText ext else acc
       | Thrown _ => acc
       end)
    polls init.

(** Every text the guard lets in extends the one let in before it
    ([last] at first); polls from the first late or failing one on are
    never looked at. *)
Fixpoint extends (last : string) (polls : list Poll) : Prop :=
  match polls with
  | [] => True
  | p :: rest =>
      if (elapsed p <? 120000)%Z then
        match extraction p with
        | Returned ext =>
            if long_enough (answerText ext)
            then String.prefix last (answerText ext) = true
                 /\ extends (answerText ext) rest
            else extends last rest
        | Thrown _ => True
        end
      else True
  end.

(** The world [w] with another sequence of polls. *)
Definition with_polls (w : World) (ps : list Poll) : World :=
  {| createPage := createPage w; goto := goto w; dismiss := dismiss w;
     surface := surface w; debug_dump := debug_dump w; polls := ps |}.

(** The world in which the page is created and loaded, with the
    input surface [s] and the polls [ps]. *)
Definition world_of (s : InputSurface) (ps : list Poll) : World :=
  {| createPage := Returned tt; goto := Returned tt;
     dismiss := Returned tt; surface := s;
     debug_dump := Returned tt; polls := ps |}.

(** A poll at [ms] that reads [text] with the busy signal [loading]
    and the model-response flag [done]. *)
Definition sample (ms : Z) (text : string) (loading done : bool) : Poll :=
  {| elapsed := ms;
     extraction := Returned {| answerText := text; isLoading := loading;
                               modelResponseExists := done |} |}.

End Gemini.

(** ** The request queue ([enqueue], [processQueue]) *)

Module Queue.

(** A job is named by a number. Besides the two variables of the
    source, [requestQueue] and [processing], the state records which
    task functions have been called and have not settled yet
    ([executing]), the order of the calls ([started]) and the
    settlements handed to [resolve] (true) or [reject] (false). *)
Record State : Type := mkState {
  requestQueue : list nat;
  processing : bool;
  executing : list nat;
  started : list nat;
  settled : list (nat * bool)
}.

Definition initial : State :=
  {| requestQueue := []; processing := false; executing := [];
     started := []; settled := [] |}.

(** [processQueue()] up to its [await task()]: returns at once when a
    job is being processed or the queue is empty, else raises the flag,
    shifts the head job and calls its task. *)
Definition processQueue (s : State) : State :=
  if processing s || (List.length (requestQueue s) =? 0) then s
  else
    match requestQueue s with
    | [] => s
    | job :: rest =>
        {| requestQueue := rest;
           processing := true;
           executing := job :: executing s;
           started := started s ++ [job];
           settled := settled s |}
    end.

(** [enqueue(task)]: push, then [processQueue()]. *)
Definition enqueue (job : nat) (s : State) : State :=
  processQueue
    {| requestQueue := requestQueue s ++ [job];
       processing := processing s;
       executing := executing s;
       started := started s;
       settled := settled s |}.

Fixpoint remove_first (job : nat) (l : list nat) : list nat :=
  match l with
  | [] => []
  | x :: l' => if x =? job then l' else x :: remove_first job l'
  end.

(** The rest of [processQueue()] once the awaited task has settled,
    with a value ([ok = true]) or an exception: [resolve] or [reject],
    then the [finally] that lowers the flag and calls [processQueue()]
    again when jobs wait. Nothing happens for a job that is not
    executing. *)
Definition settle (job : nat) (ok : bool) (s : State) : State :=
  if existsb (Nat.eqb job) (executing s) then
    let s' := {| requestQueue := requestQueue s;
                 processing := false;
                 executing := remove_first job (executing s);
                 started := started s;
                 settled := settled s ++ [(job, ok)] |} in
    if 0 <? List.length (requestQueue s') then processQueue s' else s'
  else s.

(** What happens to the queue: a caller enqueues a job, or the task of
    a job settles. *)
Inductive Action : Type :=
| Enqueue (job : nat)
| Settle (job : nat) (ok : bool).

Definition step (s : State) (a : Action) : State :=
  match a with
  | Enqueue job => enqueue job s
  | Settle job ok => settle job ok s
  end.

Definition run (acts : list Action) : State := fold_left step acts initial.

(** The jobs enqueued by a history, in order. *)
Fixpoint enqueued (acts : list Action) : list nat :=
  match acts with
  | [] => []
  | Enqueue job :: rest => job :: enqueued rest
  | Settle _ _ :: rest => enqueued rest
  end.

(** What holds of the queue between two actions: the flag is up exactly
    while one task is executing, nothing waits while the flag is down,
    and the jobs started followed by those waiting are the jobs
    enqueued, in order. *)
Definition consistent (s : State) (jobs : list nat) : Prop :=
  (processing s = true -> exists job, executing s = [job])
  /\ (processing s = false -> executing s = [] /\ requestQueue s = [])
  /\ started s ++ requestQueue s = jobs.

End Queue.

(** ** createPage

    [createPage] is awaited before the [try] of the query, so what it
    throws rejects the promise of the query past the [finally]; the
    World of an engine gives its completion only. Here are its awaited
    calls, and what it has opened in the browser by the time it returns
    or throws. *)


Module CreatePage.






End CreatePage.


(** ** More of the servers

    The rest of server.js and gemini-server.js (the citation scan, the
    browser handle, the chat-completions handler and its response
    builders), the model router of the unified server and the
    command-line client. *)

(** [a || b] on strings. *)
Definition js_or (a b : string) : string := if truthy a then a else b.

(** [x || b] for an [x] that may be undefined. *)
Definition js_or_undefined (x : option string) (b : string) : string :=
  match x with
  | Some a => js_or a b
  | None => b
  end.

(** A line feed, and the decimal numeral of a number. *)
Definition nl : string := String "010"%char EmptyString.
Definition quote : string := String "034"%char EmptyString.
Definition numeral (n : nat) : string :=
  NilEmpty.string_of_uint (Nat.to_uint n).

(** [s.includes(sub)]. *)
Fixpoint includes (s sub : string) : bool :=
  match s with
  | EmptyString => String.prefix sub EmptyString
  | String _ s' => String.prefix sub s || includes s' sub
  end.

(** *** The citation scan of the Perplexity extractAnswer *)

Module Sources.

(** An element carrying [data-pplx-citation-url]. *)
Record CitationEl : Type := mkCitationEl {
  citation_url : string;       (* el.getAttribute('data-pplx-citation-url') *)
  aria_label : option string;  (* el.closest('[aria-label]')?.getAttribute(...) *)
  text_content : string        (* el.textContent *)
}.

(** An external link of the page. *)
Record LinkEl : Type := mkLinkEl {
  href : string;               (* a.href *)
  link_text : string           (* a.textContent *)
}.

(** [seen.has(u)], the set [seen] kept as the list of what was added. *)
Definition has (seen : list string) (u : string) : bool :=
  existsb (String.eqb u) seen.

(** The loop over the citation elements: [seen] and [sources] are the
    two variables it updates. *)
Fixpoint scan_citations (els : list CitationEl) (seen : list string)
  (sources : list Source) : list string * list Source :=
  match els with
  | [] => (seen, sources)
  | el :: rest =>
      let u := citation_url el in
      let label := js_or (js_or_undefined (aria_label el) "")
                         (js_or (trim (text_content el)) "") in
      if truthy u && negb (has seen u)
      then scan_citations rest (u :: seen)
             (sources ++ [ {| title := js_or label u; url := u |} ])
      else scan_citations rest seen sources
  end.

(** The loop over the links, run when no citation was found. *)
Fixpoint scan_links (links : list LinkEl) (seen : list string)
  (sources : list Source) : list string * list Source :=
  match links with
  | [] => (seen, sources)
  | a :: rest =>
      let u := href a in
      let t := js_or (trim (link_text a)) "" in
      if truthy u && negb (has seen u)
         && (2 <? String.length t) && (String.length t <? 200)
      then scan_links rest (u :: seen) (sources ++ [ {| title := t; url := u |} ])
      else scan_links rest seen sources
  end.

(** The [sources] of [extractAnswer]. *)
Definition collect_sources (els : list CitationEl) (links : list LinkEl)
  : list Source :=
  let r := scan_citations els [] [] in
  if List.length (snd r) =? 0
  then snd (scan_links links (fst r) (snd r))
  else snd r.

End Sources.

(** *** The browser handle ([initBrowser], [ensureBrowser]) *)

Module Browser.

(** The two variables [browser] and [browserReady]; a browser is named
    by the number of its launch, and [launched] counts the launches that
    succeeded. *)
Record State : Type := mkState {
  browser : option nat;
  browserReady : bool;
  launched : nat
}.

Definition initial : State :=
  {| browser := None; browserReady := false; launched := 0 |}.

(** [initBrowser()]: nothing is assigned when [puppeteer.launch] throws. *)
Definition initBrowser (launch : Completion unit) (s : State)
  : State * Completion unit :=
  match launch with
  | Thrown e => (s, Thrown e)
  | Returned _ =>
      ({| browser := Some (S (launched s)); browserReady := true;
          launched := S (launched s) |}, Returned tt)
  end.

(** [ensureBrowser()]: launches only when there is no browser or it is
    not ready, and returns the variable [browser]. *)
Definition ensureBrowser (launch : Completion unit) (s : State)
  : State * Completion (option nat) :=
  if match browser s with None => true | Some _ => false end
     || negb (browserReady s)
  then
    match initBrowser launch s with
    | (s', Thrown e) => (s', Thrown e)
    | (s', Returned _) => (s', Returned (browser s'))
    end
  else (s, Returned (browser s)).

(** The handler of the 'disconnected' event. *)
Definition disconnected (s : State) : State :=
  {| browser := None; browserReady := false; launched := launched s |}.

(** What happens to the handle: a request asks for the browser (and the
    launch it may need succeeds or not), or a browser disconnects. The
    calls of [ensureBrowser] do not overlap: [start] awaits its
    [initBrowser] before the server listens, and [createPage], the only
    caller, runs inside the task of the queue, one task at a time. *)
Inductive Action : Type :=
| Ensure (launch : Completion unit)
| Disconnected.

Definition step (s : State) (a : Action) : State :=
  match a with
  | Ensure launch => fst (ensureBrowser launch s)
  | Disconnected => disconnected s
  end.

Definition run (acts : list Action) : State := fold_left step acts initial.

Definition is_disconnect (a : Action) : bool :=
  match a with Disconnected => true | Ensure _ => false end.

End Browser.

(** *** The chat-completions handlers *)

(** A message of the request; [content] is [None] when the field is
    missing, and a string otherwise (contents of other types are not
    modelled). *)
Record Message : Type := mkMessage {
  role : string;
  content : option string
}.

(** [`${x}`] and what [join] makes of an element. *)
Definition interpolate (x : option string) : string :=
  match x with Some s => s | None => "undefined" end.
Definition join_item (x : option string) : string :=
  match x with Some s => s | None => "" end.

(** The body of an error response. *)
Record ErrorBody : Type := mkErrorBody {
  error_message : string;
  error_type : string;
  error_param : option string;
  error_code : string
}.

(** What the validation of a request ends in. *)
Inductive Validation : Type :=
| Refused (status : nat) (e : ErrorBody)
| Accepted (query requestModel : string).

(** The delta of a streamed chunk and the frames written on the
    event stream (the random [id] and the [created] time are left out). *)
Record Delta : Type := mkDelta {
  delta_role : option string;
  delta_content : option string
}.

Inductive Frame : Type :=
| Chunk (model : string) (delta : Delta) (finish_reason : option string)
| Done.                                   (* data: [DONE] *)

(** The message of a completion response (usage is all zeros). *)
Record CompletionBody : Type := mkCompletionBody {
  completion_model : string;
  message_content : string;
  completion_finish_reason : string
}.

Inductive Reply : Type :=
| JsonError (status : nat) (e : ErrorBody)
| JsonCompletion (c : CompletionBody)     (* status 200 *)
| EventStream (frames : list Frame).

(** Truthiness of [finishReason]. *)
Definition truthy_reason (r : option string) : bool :=
  match r with Some s => truthy s | None => false end.

(** The text carried by a frame. *)
Definition frame_text (f : Frame) : string :=
  match f with
  | Chunk _ d _ => join_item (delta_content d)
  | Done => ""
  end.

(** What the client reads: the texts of the frames put end to end. *)
Definition received (frames : list Frame) : string :=
  fold_right String.append EmptyString (map frame_text frames).

Definition invalid_messages : ErrorBody :=
  {| error_message := "messages is required and must be a non-empty array";
     error_type := "invalid_request_error";
     error_param := Some "messages";
     error_code := "invalid_messages" |}.

Definition empty_content : ErrorBody :=
  {| error_message := "No content found in messages";
     error_type := "invalid_request_error";
     error_param := Some "messages";
     error_code := "empty_content" |}.

Definition server_error (message : string) : ErrorBody :=
  {| error_message := message;
     error_type := "server_error";
     error_param := None;
     error_code := "internal_error" |}.

(** The handler of server.js. *)
Module PerplexityServer.

Definition MODEL_NAME : string := "perplexity".

(** The callback of [messages.map]. *)
Definition render (m : Message) : option string :=
  if String.eqb (role m) "system"
  then Some ("[System: " ++ interpolate (content m) ++ "]")%string
  else if String.eqb (role m) "user" then content m
  else if String.eqb (role m) "assistant"
  then Some ("[Previous answer: " ++ interpolate (content m) ++ "]")%string
  else content m.

Definition build_query (messages : list Message) : string :=
  join (nl ++ nl)%string (map join_item (map render messages)).

(** The validation at the head of the handler; [messages] is [None]
    when the field is missing or is not an array. *)
Definition validate (messages : option (list Message)) (model : option string)
  : Validation :=
  match messages with
  | None => Refused 400 invalid_messages
  | Some [] => Refused 400 invalid_messages
  | Some msgs =>
      let query := build_query msgs in
      if negb (truthy (trim query)) then Refused 400 empty_content
      else Accepted query (js_or_undefined model MODEL_NAME)
  end.

Fixpoint source_lines (i : nat) (sources : list Source) : string :=
  match sources with
  | [] => EmptyString
  | src :: rest =>
      (numeral (i + 1) ++ ". [" ++ title src ++ "](" ++ url src ++ ")" ++ nl
       ++ source_lines (S i) rest)%string
  end.

(** [buildCompletionResponse(content, model, sources)]. *)
Definition buildCompletionResponse (content model : string)
  (sources : list Source) : CompletionBody :=
  let fullContent :=
    if 0 <? List.length sources
    then (content ++ nl ++ nl ++ "---" ++ nl ++ "**Sources:**" ++ nl
          ++ source_lines 0 sources)%string
    else content in
  {| completion_model := js_or model MODEL_NAME;
     message_content := fullContent;
     completion_finish_reason := "stop" |}.

(** [buildStreamChunk(content, model, finishReason)]. *)
Definition buildStreamChunk (content model : string)
  (finishReason : option string) : Frame :=
  Chunk (js_or model MODEL_NAME)
        (if truthy_reason finishReason
         then {| delta_role := None; delta_content := None |}
         else {| delta_role := None; delta_content := Some content |})
        finishReason.

(** The frames of the streaming branch: the role chunk, a chunk for
    every call of [onChunk], then the [try] or the [catch] ending. *)
Definition stream_frames (requestModel : string) (t : list Event)
  (c : Completion Perplexity.Result) : list Frame :=
  Chunk requestModel
        {| delta_role := Some "assistant"; delta_content := Some "" |} None
  :: map (fun d => buildStreamChunk d requestModel None) (chunks t)
  ++ match c with
     | Returned _ => [buildStreamChunk "" requestModel (Some "stop"); Done]
     | Thrown e =>
         [buildStreamChunk (nl ++ nl ++ "[Error: " ++ e ++ "]")%string
                           requestModel (Some "stop"); Done]
     end.

(** The non-streaming branch. *)
Definition json_reply (requestModel : string)
  (c : Completion Perplexity.Result) : Reply :=
  match c with
  | Returned r =>
      JsonCompletion
        (buildCompletionResponse (Perplexity.answer r) requestModel
                                 (Perplexity.result_sources r))
  | Thrown e => JsonError 500 (server_error e)
  end.

(** POST /v1/chat/completions; [None] while the query has not finished. *)
Definition chat_completions (messages : option (list Message))
  (model : option string) (stream : bool) (w : Perplexity.World)
  : option Reply :=
  match validate messages model with
  | Refused status e => Some (JsonError status e)
  | Accepted query requestModel =>
      match Perplexity.queryPerplexity query stream w with
      | (_, Running _) => None
      | (t, Finished c) =>
          Some (if stream then EventStream (stream_frames requestModel t c)
                else json_reply requestModel c)
      end
  end.

End PerplexityServer.

(** The handler of gemini-server.js. *)
Module GeminiServer.

Definition MODEL_NAME : string := "gemini".

Definition render (m : Message) : option string :=
  if String.eqb (role m) "system"
  then Some ("[System instruction: " ++ interpolate (content m) ++ "]")%string
  else if String.eqb (role m) "user" then content m
  else if String.eqb (role m) "assistant"
  then Some ("[Previous answer: " ++ interpolate (content m) ++ "]")%string
  else content m.

Definition build_query (messages : list Message) : string :=
  join (nl ++ nl)%string (map join_item (map render messages)).

Definition validate (messages : option (list Message)) (model : option string)
  : Validation :=
  match messages with
  | None => Refused 400 invalid_messages
  | Some [] => Refused 400 invalid_messages
  | Some msgs =>
      let query := build_query msgs in
      if negb (truthy (trim query)) then Refused 400 empty_content
      else Accepted query (js_or_undefined model MODEL_NAME)
  end.

(** [buildCompletionResponse(content, model)]. *)
Definition buildCompletionResponse (content model : string) : CompletionBody :=
  {| completion_model := js_or model MODEL_NAME;
     message_content := content;
     completion_finish_reason := "stop" |}.

Definition buildStreamChunk (content model : string)
  (finishReason : option string) : Frame :=
  Chunk (js_or model MODEL_NAME)
        (if truthy_reason finishReason
         then {| delta_role := None; delta_content := None |}
         else {| delta_role := None; delta_content := Some content |})
        finishReason.

Definition stream_frames (requestModel : string) (t : list Event)
  (c : Completion Gemini.Result) : list Frame :=
  Chunk requestModel
        {| delta_role := Some "assistant"; delta_content := Some "" |} None
  :: map (fun d => buildStreamChunk d requestModel None) (chunks t)
  ++ match c with
     | Returned _ => [buildStreamChunk "" requestModel (Some "stop"); Done]
     | Thrown e =>
         [buildStreamChunk (nl ++ nl ++ "[Error: " ++ e ++ "]")%string
                           requestModel (Some "stop"); Done]
     end.

Definition json_reply (requestModel : string)
  (c : Completion Gemini.Result) : Reply :=
  match c with
  | Returned r =>
      JsonCompletion (buildCompletionResponse (Gemini.answer r) requestModel)
  | Thrown e => JsonError 500 (server_error e)
  end.

Definition chat_completions (messages : option (list Message))
  (model : option string) (stream : bool) (w : Gemini.World)
  : option Reply :=
  match validate messages model with
  | Refused status e => Some (JsonError status e)
  | Accepted query requestModel =>
      match Gemini.queryGemini query stream w with
      | (_, Running _) => None
      | (t, Finished c) =>
          Some (if stream then EventStream (stream_frames requestModel t c)
                else json_reply requestModel c)
      end
  end.

End GeminiServer.

(** *** The model router of the unified server *)

Module Router.

Definition DEFAULT_MODEL : string := "perplexity".

Inductive Backend : Type :=
| ToPerplexity     (* queryPerplexity *)
| ToGemini.        (* queryGemini *)

(** [getQueryFn(modelName)]; [None] is the [null] it returns for a name
    it does not know. *)
Definition getQueryFn (modelName : option string) : option Backend :=
  let model := trim (toLowerCase (js_or_undefined modelName DEFAULT_MODEL)) in
  if includes model "perplexity" || String.eqb model "pplx" then Some ToPerplexity
  else if includes model "gemini" then Some ToGemini
  else None.

Definition model_not_found (requestModel : string) : ErrorBody :=
  {| error_message :=
       ("Unsupported model: " ++ quote ++ requestModel ++ quote
        ++ ". Available: perplexity, gemini")%string;
     error_type := "invalid_request_error";
     error_param := Some "model";
     error_code := "model_not_found" |}.

(** The validation at the head of the unified handler: the model is
    looked up before the query is built. *)
Definition validate (messages : option (list Message)) (model : option string)
  : Validation + (string * string * Backend) :=
  match messages with
  | None => inl (Refused 400 invalid_messages)
  | Some [] => inl (Refused 400 invalid_messages)
  | Some msgs =>
      let requestModel := js_or_undefined model DEFAULT_MODEL in
      match getQueryFn (Some requestModel) with
      | None => inl (Refused 400 (model_not_found requestModel))
      | Some queryFn =>
          let query := PerplexityServer.build_query msgs in
          if negb (truthy (trim query)) then inl (Refused 400 empty_content)
          else inr (query, requestModel, queryFn)
      end
  end.

End Router.

(** *** The command-line client *)

Module Cli.

(** The selectors of its [submitQuery]. *)
Definition selectors : list string :=
  [ "textarea"; "[contenteditable=true]"; "input[type=text]";
    "[placeholder*=Ask]"; "[placeholder*=Search]"; "[role=textbox]" ].

(** Its [submitQuery(page, query)], which does not scroll: nothing in it
    is outside the [try]. *)
Definition submitQuery (s : InputSurface) (query : string)
  : list Event * bool :=
  scan_selectors Perplexity.isVisible s query selectors.

(** The body of the loop of [waitForAnswer], on the two variables
    [lastText] and [stableCount]; [inr] is the [return] inside the loop. *)
Definition wait_body (ext : Perplexity.Extraction)
  (lastText : string) (stableCount : nat)
  : (string * nat) + Perplexity.Result :=
  if truthy (Perplexity.answerText ext) then
    if String.eqb (Perplexity.answerText ext) lastText then
      let n := S stableCount in
      if (negb (Perplexity.isLoading ext) && (3 <=? n)) || (8 <=? n) then
        inr {| Perplexity.answer := Perplexity.answerText ext;
               Perplexity.result_sources := Perplexity.sources ext |}
      else inl (Perplexity.answerText ext, n)
    else inl (Perplexity.answerText ext, 0)
  else inl (lastText, stableCount).

(** One turn of the loop of [waitForAnswer] as the browser answers it:
    the reading of the page, and what the DEBUG_HTML branch of the turn
    meets when it is taken. *)
Record Poll : Type := mkPoll {
  reading : Perplexity.Poll;      (* the loop condition and page.evaluate *)
  debug_elapsed : Z;              (* Date.now() - start in the debug test *)
  debug_dump : Completion unit    (* page.content() and writeFileSync *)
}.

(** [waitForAnswer(page, timeout)], with the value of
    [process.env.DEBUG_HTML] and the variable [debugSaved]: a text that
    is let in is first dumped, once, when DEBUG_HTML is set and more than
    10 s have passed; at the deadline the function returns what it has,
    an empty answer when it has nothing. *)
Fixpoint waitForAnswer (DEBUG_HTML : bool) (timeout : Z) (polls : list Poll)
  (lastText : string) (stableCount : nat) (debugSaved : bool)
  : Progress (string * nat) Perplexity.Result :=
  match polls with
  | [] => Running (lastText, stableCount)
  | p :: rest =>
      if (Perplexity.elapsed (reading p) <? timeout)%Z then
        match Perplexity.extraction (reading p) with
        | Thrown e => Finished (Thrown e)
        | Returned ext =>
            let dumps := truthy (Perplexity.answerText ext)
                         && negb debugSaved
                         && (10000 <? debug_elapsed p)%Z
                         && DEBUG_HTML in
            match (if dumps then debug_dump p else Returned tt) with
            | Thrown e => Finished (Thrown e)
            | Returned _ =>
                match wait_body ext lastText stableCount with
                | inr r => Finished (Returned r)
                | inl (l, n) =>
                    waitForAnswer DEBUG_HTML timeout rest l n
                                  (debugSaved || dumps)
                end
            end
        end
      else
        Finished
          (Returned
             (if truthy lastText
              then {| Perplexity.answer := lastText;
                      Perplexity.result_sources := [] |}
              else {| Perplexity.answer := "";
                      Perplexity.result_sources := [] |}))
  end.

(** What [askPerplexity] does to the browser it launches. *)
Inductive Step : Type :=
| Launch | Goto | SaveCookies | Submit | Wait | DebugDump | Close.

(** The browser's side of a run of the client, with the value of
    [process.env.DEBUG_HTML]. *)
Record World : Type := mkWorld {
  DEBUG_HTML : bool;
  launch : Completion unit;       (* puppeteer.launch and the page setup *)
  goto : Completion unit;         (* page.goto *)
  save_cookies : Completion unit; (* page.cookies() and writeFileSync *)
  surface : InputSurface;
  polls : list Poll;
  final_dump : Completion unit;   (* page.content() and writeFileSync *)
  save_again : Completion unit;   (* the second page.cookies() and write *)
  close : Completion unit         (* browser.close() *)
}.

(** [askPerplexity(query)]: [Returned None] is its [return null]. There
    is no [finally]: [browser.close()] is called before the two
    [return]s only. *)
Definition askPerplexity (query : string) (w : World)
  : list Step * Progress (string * nat) (option Perplexity.Result) :=
  match launch w with
  | Thrown e => ([Launch], Finished (Thrown e))
  | Returned _ =>
  match goto w with
  | Thrown e => ([Launch; Goto], Finished (Thrown e))
  | Returned _ =>
  match save_cookies w with
  | Thrown e => ([Launch; Goto; SaveCookies], Finished (Thrown e))
  | Returned _ =>
      if snd (submitQuery (surface w) query) then
        match waitForAnswer (DEBUG_HTML w) 120000 (polls w) "" 0 false with
        | Running st => ([Launch; Goto; SaveCookies; Submit; Wait], Running st)
        | Finished (Thrown e) =>
            ([Launch; Goto; SaveCookies; Submit; Wait], Finished (Thrown e))
        | Finished (Returned r) =>
            let waited :=
              [Launch; Goto; SaveCookies; Submit; Wait]
                ++ (if DEBUG_HTML w then [DebugDump] else []) in
            match (if DEBUG_HTML w then final_dump w else Returned tt) with
            | Thrown e => (waited, Finished (Thrown e))
            | Returned _ =>
                match save_again w with
                | Thrown e =>
                    (waited ++ [SaveCookies], Finished (Thrown e))
                | Returned _ =>
                    (waited ++ [SaveCookies; Close],
                     Finished (match close w with
                               | Thrown e => Thrown e
                               | Returned _ => Returned (Some r)
                               end))
                end
            end
        end
      else ([Launch; Goto; SaveCookies; Submit; Close],
            Finished (match close w with
                      | Thrown e => Thrown e
                      | Returned _ => Returned None
                      end))
  end end end.

Definition is_close (s : Step) : bool :=
  match s with Close => true | _ => false end.

End Cli.

(** *** The two queries of the unified server *)

Module Unified.

Definition MAX_TIMEOUT : Z := 120000.

(** Its [queryPerplexity]: [perplexitySubmit] and the body of the loop
    are those of server.js, statement for statement; the error thrown
    at the deadline has a message of its own. *)
Definition perplexity_after_loop (st : Loop) : Completion Perplexity.Result :=
  if truthy (lastText st)
  then Returned {| Perplexity.answer := lastText st;
                   Perplexity.result_sources := [] |}
  else Thrown "Timeout: no answer from Perplexity".

Fixpoint perplexity_loop (onChunk : bool) (polls : list Perplexity.Poll)
  (st : Loop) : list Event * Progress Loop Perplexity.Result :=
  match polls with
  | [] => ([], Running st)
  | p :: rest =>
      if (Perplexity.elapsed p <? MAX_TIMEOUT)%Z then
        match Perplexity.extraction p with
        | Thrown e => ([EvExtract], Finished (Thrown e))
        | Returned ext =>
            match Perplexity.loop_body onChunk ext st with
            | (evs, inr r) => (EvExtract :: evs, Finished (Returned r))
            | (evs, inl st') =>
                after (EvExtract :: evs) (perplexity_loop onChunk rest st')
            end
        end
      else ([], Finished (perplexity_after_loop st))
  end.

Definition queryPerplexity (query : string) (onChunk : bool)
  (w : Perplexity.World) : list Event * Progress Loop Perplexity.Result :=
  match Perplexity.createPage w with
  | Thrown e => ([], Finished (Thrown e))
  | Returned _ =>
      let tried :=
        match Perplexity.goto w with
        | Thrown e => ([EvGoto], Finished (Thrown e))
        | Returned _ =>
            match Perplexity.submitQuery (Perplexity.surface w) query with
            | (evs, Thrown e) =>
                (EvGoto :: EvSubmit :: evs, Finished (Thrown e))
            | (evs, Returned false) =>
                (EvGoto :: EvSubmit :: evs,
                 Finished
                   (Thrown "Could not find input field on Perplexity page"))
            | (evs, Returned true) =>
                after (EvGoto :: EvSubmit :: evs)
                      (perplexity_loop onChunk (Perplexity.polls w) loop_start)
            end
        end in
      match tried with
      | (t, Running st) => (t, Running st)
      | (t, Finished c) => (t ++ [EvPageClose; EvContextClose], Finished c)
      end
  end.

(** The object returned by [geminiExtract]. *)
Record Extraction : Type := mkExtraction {
  answerText : string;
  isLoading : bool
}.

Record Poll : Type := mkPoll {
  elapsed : Z;                        (* Date.now() - start *)
  extraction : Completion Extraction  (* await geminiExtract(page) *)
}.

(** The body of the loop of its [queryGemini]: texts of at most 10 code
    units are passed over, the thresholds are 3 and 10, and the result
    carries an empty list of sources. *)
Definition gemini_body (onChunk : bool) (ext : Extraction) (st : Loop)
  : list Event * (Loop + Perplexity.Result) :=
  if truthy (answerText ext) && (10 <? String.length (answerText ext)) then
    let grew := onChunk
                && (lastChunkedLength st <? String.length (answerText ext)) in
    let evs := if grew
               then [EvChunk (slice_from (lastChunkedLength st) (answerText ext))]
               else [] in
    let emitted := if grew then String.length (answerText ext)
                   else lastChunkedLength st in
    if String.eqb (answerText ext) (lastText st) then
      let n := S (stableCount st) in
      if (negb (isLoading ext) && (3 <=? n)) || (10 <=? n) then
        (evs, inr {| Perplexity.answer := answerText ext;
                     Perplexity.result_sources := [] |})
      else
        (evs, inl {| lastText := answerText ext;
                     stableCount := n;
                     lastChunkedLength := emitted |})
    else
      (evs, inl {| lastText := answerText ext;
                   stableCount := 0;
                   lastChunkedLength := emitted |})
  else ([], inl st).

Definition gemini_after_loop (st : Loop) : Completion Perplexity.Result :=
  if truthy (lastText st)
  then Returned {| Perplexity.answer := lastText st;
                   Perplexity.result_sources := [] |}
  else Thrown "Timeout: no answer from Gemini".

Fixpoint gemini_loop (onChunk : bool) (polls : list Poll) (st : Loop)
  : list Event * Progress Loop Perplexity.Result :=
  match polls with
  | [] => ([], Running st)
  | p :: rest =>
      if (elapsed p <? MAX_TIMEOUT)%Z then
        match extraction p with
        | Thrown e => ([EvExtract], Finished (Thrown e))
        | Returned ext =>
            match gemini_body onChunk ext st with
            | (evs, inr r) => (EvExtract :: evs, Finished (Returned r))
            | (evs, inl st') =>
                after (EvExtract :: evs) (gemini_loop onChunk rest st')
            end
        end
      else ([], Finished (gemini_after_loop st))
  end.

(** The browser's side of one execution of [queryGemini]. *)
Record World : Type := mkWorld {
  createPage : Completion unit;   (* await createPage() *)
  goto : Completion unit;         (* await page.goto(...) *)
  dismiss : Completion unit;      (* the page.evaluate closing dialogs *)
  surface : InputSurface;
  debug_dump : Completion unit;   (* page.content() and writeFileSync *)
  polls : list Poll
}.

(** Its [queryGemini]: [geminiSubmit] is the [submitQuery] of
    gemini-server.js; the [finally] closes the page and the context. *)
Definition queryGemini (query : string) (onChunk : bool) (w : World)
  : list Event * Progress Loop Perplexity.Result :=
  match createPage w with
  | Thrown e => ([], Finished (Thrown e))
  | Returned _ =>
      let tried :=
        match goto w with
        | Thrown e => ([EvGoto], Finished (Thrown e))
        | Returned _ =>
            match dismiss w with
            | Thrown e => ([EvGoto], Finished (Thrown e))
            | Returned _ =>
                match Gemini.submitQuery (surface w) query with
                | (evs, Thrown e) =>
                    (EvGoto :: EvSubmit :: evs, Finished (Thrown e))
                | (evs, Returned false) =>
                    (EvGoto :: EvSubmit :: evs,
                     Finished
                       (match debug_dump w with
                        | Thrown e => Thrown e
                        | Returned _ =>
                            Thrown "Could not find input field on Gemini page"
                        end))
                | (evs, Returned true) =>
                    after (EvGoto :: EvSubmit :: evs)
                          (gemini_loop onChunk (polls w) loop_start)
                end
            end
        end in
      match tried with
      | (t, Running st) => (t, Running st)
      | (t, Finished c) => (t ++ [EvPageClose; EvContextClose], Finished c)
      end
  end.

End Unified.

(** *** The normal form of the specification

    What the specification calls a text "case/whitespace-normalized",
    written from its words and not from the code of the echo guard: the
    words of the text (its maximal runs of characters that are not white
    space), in lower case, with one space between them. *)

(** The text starts with a character that is not white space. *)
Definition starts_inked (s : string) : bool :=
  match s with
  | String c _ => negb (is_space c)
  | EmptyString => false
  end.

(** The words of a text: white space is passed over; a character that
    is not white space is put in front of the word that follows it, or
    is a word of its own when white space or the end follows. *)
Fixpoint words (s : string) : list string :=
  match s with
  | EmptyString => []
  | String c s' =>
      if is_space c then words s'
      else if starts_inked s'
           then match words s' with
                | w :: ws => String c w :: ws
                | [] => [String c EmptyString]
                end
           else String c EmptyString :: words s'
  end.

Definition spec_normalize (s : string) : string :=
  join " " (map toLowerCase (words s)).

(** *** Vocabulary of the further statements *)

(** The string has a character that is not white space. *)
Fixpoint inked (s : string) : bool :=
  match s with
  | EmptyString => false
  | String c s' => negb (is_space c) || inked s'
  end.

(** A message that adds nothing a query can be made of: it is neither
    a system nor an assistant message and its content is missing or all
    white space. *)
Definition blank (m : Message) : bool :=
  negb (String.eqb (role m) "system")
  && negb (String.eqb (role m) "assistant")
  && negb (inked (join_item (content m))).

(** Two executions that differ at most in [lastChunkedLength]. *)
Definition same_outcome {R : Type} (p q : Progress Loop R) : Prop :=
  match p, q with
  | Finished c, Finished c' => c = c'
  | Running s, Running s' =>
      lastText s = lastText s' /\ stableCount s = stableCount s'
  | _, _ => False
  end.



(** The executing job settles with each of the outcomes [oks] in turn. *)
Definition settle_next (s : Queue.State) (ok : bool) : Queue.State :=
  match Queue.executing s with
  | job :: _ => Queue.settle job ok s
  | [] => s
  end.

(** The text of a poll when the guard of the loop lets it in. *)
Definition pplx_accepted (p : Perplexity.Poll) : option string :=
  match Perplexity.extraction p with
  | Returned ext =>
      if truthy (Perplexity.answerText ext)
      then Some (Perplexity.answerText ext) else None
  | Thrown _ => None
  end.

Definition gem_accepted (p : Gemini.Poll) : option string :=
  match Gemini.extraction p with
  | Returned ext =>
      if Gemini.long_enough (Gemini.answerText ext)
      then Some (Gemini.answerText ext) else None
  | Thrown _ => None
  end.

(** The elements listed for a selector let [submitQuery] through: the
    first of them that is reported visible takes the whole sequence
    (click, clear, insert, Enter), and the report of every element
    before it came back, as not visible. *)
Definition usable (isVisible : Box -> bool) (els : list Element) : Prop :=
  exists pre el post b,
    els = pre ++ el :: post
    /\ Forall (fun x => exists c, evaluate x = Returned c
                                  /\ isVisible c = false) pre
    /\ evaluate el = Returned b /\ isVisible b = true
    /\ operable el = true.

(** Some selector of [sels] lists elements that let the query through. *)
Definition reachable (isVisible : Box -> bool) (s : InputSurface)
  (sels : list string) : Prop :=
  Exists (fun sel => exists els, query_all s sel = Returned els
                                 /\ usable isVisible els) sels.

(** What the two loops of the citation scan keep true of [seen] and
    [sources]: no address twice, every address in [seen] and not empty,
    no title empty. *)
Definition sound_sources (seen : list string) (sources : list Source) : Prop :=
  NoDup (map url sources)
  /\ forall x, In x sources ->
               In (url x) seen /\ url x <> "" /\ title x <> "".

(** Two outcomes that are the same up to the wording of the error
    thrown at the deadline. *)
Definition same_but_wording {S R : Type} (p q : Progress S R) : Prop :=
  match p, q with
  | Running s, Running s' => s = s'
  | Finished (Returned r), Finished (Returned r') => r = r'
  | Finished (Thrown e), Finished (Thrown e') =>
      e = e'
      \/ (e = "Timeout: no answer received from Perplexity"
          /\ e' = "Timeout: no answer from Perplexity")
  | _, _ => False
  end.

(** An event that is not a delta. *)
Definition not_chunk (e : Event) : bool := negb (is_chunk e).

(** The length of the longest text among the [polls] that [text] lets
    in, at least [n]. *)
Definition longest_of {P : Type} (text : P -> option string)
  (n : nat) (polls : list P) : nat :=
  fold_left
    (fun m p => match text p with
                | Some T => Nat.max m (String.length T)
                | None => m
                end)
    polls n.

(** Counts the events of a kind in the short concrete traces of a goal. *)
Ltac count_small :=
  repeat match goal with
         | |- context [count ?p ?l] =>
             lazymatch l with
             | [] => idtac | [_] => idtac | [_; _] => idtac
             end;
             let v := eval compute in (count p l) in
             change (count p l) with v
         end.

(** * Properties *)

(** ** Traces and strings *)

Lemma after_nil {S R : Type} (k : list Event * Progress S R) :
  after [] k = k.
Proof. destruct k; reflexivity. Qed.

Lemma after_after {S R : Type} (a b : list Event)
  (k : list Event * Progress S R) :
  after a (after b k) = after (a ++ b) k.
Proof. unfold after; simpl. now rewrite app_assoc. Qed.

Lemma chunks_app (a b : list Event) : chunks (a ++ b) = chunks a ++ chunks b.
Proof.
  induction a as [|e a IH]; simpl; [reflexivity|].
  destruct e; simpl; now rewrite IH.
Qed.

Lemma append_assoc (a b c : string) :
  ((a ++ b) ++ c)%string = (a ++ b ++ c)%string.
Proof. induction a as [|x a IH]; simpl; [reflexivity | now rewrite IH]. Qed.

Lemma append_empty_r (a : string) : (a ++ "")%string = a.
Proof. induction a as [|x a IH]; simpl; [reflexivity | now rewrite IH]. Qed.

Lemma streamed_app (a b : list Event) :
  streamed (a ++ b) = (streamed a ++ streamed b)%string.
Proof.
  unfold streamed. rewrite chunks_app.
  induction (chunks a) as [|d l IH]; simpl; [reflexivity|].
  now rewrite IH, append_assoc.
Qed.

Lemma length_append (a b : string) :
  String.length (a ++ b) = String.length a + String.length b.
Proof. induction a as [|x a IH]; simpl; [reflexivity | now rewrite IH]. Qed.

Lemma length_slice_from (n : nat) (s : string) :
  String.length (slice_from n s) = String.length s - n.
Proof.
  revert s; induction n as [|n IH]; intros s.
  - simpl. lia.
  - destruct s as [|c s]; simpl; [reflexivity | apply IH].
Qed.

Lemma truthy_true (s : string) : truthy s = true <-> s <> "".
Proof. destruct s; simpl; split; congruence. Qed.

Lemma truthy_false (s : string) : truthy s = false <-> s = "".
Proof. destruct s; simpl; split; congruence. Qed.

(** A prefix followed by the rest of the string is the string. *)
Lemma prefix_slice (a b : string) :
  String.prefix a b = true -> (a ++ slice_from (String.length a) b)%string = b.
Proof.
  revert b; induction a as [|x a IH]; intros b H; simpl.
  - reflexivity.
  - destruct b as [|y b]; simpl in H; [discriminate|].
    destruct (Ascii.ascii_dec x y) as [->|]; [|discriminate].
    simpl. now rewrite IH.
Qed.

(** A prefix that is not shorter than the string is the string. *)
Lemma prefix_full (a b : string) :
  String.prefix a b = true -> String.length b <= String.length a -> a = b.
Proof.
  revert b; induction a as [|x a IH]; intros b H L.
  - destruct b; simpl in L; [reflexivity | lia].
  - destruct b as [|y b]; simpl in H; [discriminate|].
    destruct (Ascii.ascii_dec x y) as [->|]; [|discriminate].
    simpl in L. f_equal. apply IH; [assumption | lia].
Qed.

Lemma ticks_length (ms : Z) (n : nat) : List.length (ticks ms n) = n.
Proof.
  revert ms; induction n as [|n IH]; intros ms; simpl;
    [reflexivity | now rewrite IH].
Qed.

Lemma ticks_nth (n : nat) : forall (ms : Z) (i : nat) (t : Z),
  nth_error (ticks ms n) i = Some t -> t = (ms + 1000 * Z.of_nat i)%Z.
Proof.
  induction n as [|n IH]; intros ms i t H.
  - destruct i; discriminate.
  - destruct i as [|i]; simpl in H.
    + injection H as <-. lia.
    + apply IH in H. lia.
Qed.

Lemma count_app (p : Event -> bool) (a b : list Event) :
  count p (a ++ b) = count p a + count p b.
Proof. unfold count. now rewrite filter_app, length_app. Qed.

(** ** The polling loop of queryPerplexity *)

Section PerplexityLoop.
Import Perplexity.
Variable onChunk : bool.

Lemma pplx_loop_late p rest st :
  (MAX_TIMEOUT <= elapsed p)%Z ->
  poll_loop onChunk (p :: rest) st = ([], Finished (after_loop st)).
Proof.
  intros H. simpl.
  destruct (Z.ltb_spec (elapsed p) MAX_TIMEOUT); [lia | reflexivity].
Qed.

Lemma pplx_loop_throw p rest st e :
  (elapsed p < MAX_TIMEOUT)%Z -> extraction p = Thrown e ->
  poll_loop onChunk (p :: rest) st = ([EvExtract], Finished (Thrown e)).
Proof.
  intros H E. simpl. rewrite E.
  destruct (Z.ltb_spec (elapsed p) MAX_TIMEOUT); [reflexivity | lia].
Qed.

Lemma pplx_loop_sample p rest st ext :
  (elapsed p < MAX_TIMEOUT)%Z -> extraction p = Returned ext ->
  poll_loop onChunk (p :: rest) st =
  match loop_body onChunk ext st with
  | (evs, inr r) => (EvExtract :: evs, Finished (Returned r))
  | (evs, inl st') => after (EvExtract :: evs) (poll_loop onChunk rest st')
  end.
Proof.
  intros H E. simpl. rewrite E.
  destruct (Z.ltb_spec (elapsed p) MAX_TIMEOUT); [reflexivity | lia].
Qed.

(** Running the loop on [pre ++ rest] is running it on [pre] and, when
    that has not finished, going on with [rest]. *)
Lemma pplx_loop_app pre rest st :
  poll_loop onChunk (pre ++ rest) st =
  match poll_loop onChunk pre st with
  | (t, Running st') => after t (poll_loop onChunk rest st')
  | (t, Finished c) => (t, Finished c)
  end.
Proof.
  revert st; induction pre as [|p pre IH]; intros st.
  - simpl. now rewrite after_nil.
  - simpl.
    destruct (elapsed p <? MAX_TIMEOUT)%Z; [|reflexivity].
    destruct (extraction p) as [ext|e]; [|reflexivity].
    destruct (loop_body onChunk ext st) as [evs [st'|r]]; [|reflexivity].
    rewrite IH.
    destruct (poll_loop onChunk pre st') as [t [st''|c]]; simpl.
    + now rewrite after_after.
    + reflexivity.
Qed.

Lemma pplx_loop_running pre rest st t st' :
  poll_loop onChunk pre st = (t, Running st') ->
  poll_loop onChunk (pre ++ rest) st = after t (poll_loop onChunk rest st').
Proof. intros H. now rewrite pplx_loop_app, H. Qed.

(** An empty text leaves the loop variables alone and emits nothing. *)
Lemma pplx_body_empty ext st :
  answerText ext = "" -> loop_body onChunk ext st = ([], inl st).
Proof. intros H. unfold loop_body. now rewrite H. Qed.

(** A text different from [lastText] restarts the count. *)
Lemma pplx_body_change ext st :
  answerText ext <> "" -> answerText ext <> lastText st ->
  exists evs n,
    loop_body onChunk ext st =
    (evs, inl {| lastText := answerText ext; stableCount := 0;
                 lastChunkedLength := n |}).
Proof.
  intros H1 H2. unfold loop_body.
  apply truthy_true in H1. rewrite H1.
  apply String.eqb_neq in H2. rewrite H2. eauto.
Qed.

(** A repeat of [lastText] on which neither rule fires. *)
Lemma pplx_body_wait ext st :
  answerText ext <> "" -> answerText ext = lastText st ->
  (negb (isLoading ext) && (3 <=? S (stableCount st)))
  || (8 <=? S (stableCount st)) = false ->
  exists evs n,
    loop_body onChunk ext st =
    (evs, inl {| lastText := answerText ext;
                 stableCount := S (stableCount st);
                 lastChunkedLength := n |}).
Proof.
  intros H1 H2 H3. unfold loop_body.
  apply truthy_true in H1. rewrite H1.
  apply String.eqb_eq in H2. rewrite H2, H3. eauto.
Qed.

(** A repeat of [lastText] on which a rule fires. *)
Lemma pplx_body_done ext st :
  answerText ext <> "" -> answerText ext = lastText st ->
  (negb (isLoading ext) && (3 <=? S (stableCount st)))
  || (8 <=? S (stableCount st)) = true ->
  exists evs,
    loop_body onChunk ext st =
    (evs, inr {| answer := answerText ext; result_sources := sources ext |}).
Proof.
  intros H1 H2 H3. unfold loop_body.
  apply truthy_true in H1. rewrite H1.
  apply String.eqb_eq in H2. rewrite H2, H3. eauto.
Qed.

(** A run of polls that all read the retained text ends the loop with
    that text as soon as the count can reach 8. *)
Lemma pplx_repeat_run T run post st :
  T <> "" -> lastText st = T -> run <> [] -> Forall (reads T) run ->
  8 <= stableCount st + List.length run ->
  exists t srcs,
    poll_loop onChunk (run ++ post) st =
    (t, Finished (Returned {| answer := T; result_sources := srcs |})).
Proof.
  intros HT. revert st.
  induction run as [|p run IH]; intros st HL HN HF HC; [congruence|].
  apply Forall_cons_iff in HF as [[Hin (ext & Hext & Htxt)] HF'].
  assert (HT' : answerText ext <> "") by congruence.
  assert (HL' : answerText ext = lastText st) by congruence.
  simpl app. rewrite (pplx_loop_sample _ _ _ _ Hin Hext).
  destruct ((negb (isLoading ext) && (3 <=? S (stableCount st)))
            || (8 <=? S (stableCount st))) eqn:D.
  - destruct (pplx_body_done ext st HT' HL' D) as [evs ->].
    rewrite Htxt. eauto.
  - destruct (pplx_body_wait ext st HT' HL' D) as (evs & n & ->).
    apply orb_false_iff in D. destruct D as [_ D].
    apply Nat.leb_gt in D.
    destruct (IH {| lastText := answerText ext;
                    stableCount := S (stableCount st);
                    lastChunkedLength := n |}) as (t & srcs & ->);
      simpl; auto.
    + destruct run; simpl in *; [lia | congruence].
    + simpl in HC. lia.
    + unfold after; simpl. eauto.
Qed.

(** A run of repeats of the retained text on which no rule fires
    leaves the loop running, the count raised by its length. *)
Lemma pplx_wait_run T before st :
  T <> "" -> lastText st = T -> Forall (reads T) before ->
  stableCount st + List.length before < 8 ->
  (forall i p, nth_error before i = Some p ->
               3 <= stableCount st + S i -> busy p = true) ->
  exists t n,
    poll_loop onChunk before st =
    (t, Running {| lastText := T;
                   stableCount := stableCount st + List.length before;
                   lastChunkedLength := n |}).
Proof.
  intros HT. revert st.
  induction before as [|p before IH]; intros st HL HF HC HB.
  - exists [], (lastChunkedLength st). simpl.
    destruct st as [l c n]; simpl in *. subst l.
    now rewrite Nat.add_0_r.
  - apply Forall_cons_iff in HF as [[Hin (ext & Hext & Htxt)] HF'].
    assert (HT' : answerText ext <> "") by congruence.
    assert (HL' : answerText ext = lastText st) by congruence.
    rewrite (pplx_loop_sample _ _ _ _ Hin Hext).
    assert (D : (negb (isLoading ext) && (3 <=? S (stableCount st)))
                || (8 <=? S (stableCount st)) = false).
    { apply orb_false_iff; split.
      - destruct (3 <=? S (stableCount st)) eqn:E3;
          [|now rewrite andb_false_r].
        apply Nat.leb_le in E3.
        specialize (HB 0 p eq_refl). unfold busy in HB.
        rewrite Hext in HB. rewrite HB by lia. reflexivity.
      - apply Nat.leb_gt. simpl in HC. lia. }
    destruct (pplx_body_wait ext st HT' HL' D) as (evs & n & ->).
    destruct (IH {| lastText := answerText ext;
                    stableCount := S (stableCount st);
                    lastChunkedLength := n |}) as (t & n' & ->);
      simpl; auto.
    + simpl in HC. lia.
    + intros i q Hq Hi. apply (HB (S i) q Hq). lia.
    + unfold after; simpl.
      replace (stableCount st + S (List.length before))
        with (S (stableCount st + List.length before)) by lia.
      eauto.
Qed.

(** The loop variable [lastText] after a run that has not finished. *)
Lemma pplx_body_last_text ext st evs st' :
  loop_body onChunk ext st = (evs, inl st') ->
  lastText st' =
  if truthy (answerText ext) then answerText ext else lastText st.
Proof.
  unfold loop_body.
  destruct (truthy (answerText ext)); [|now intros [= _ <-]].
  destruct (String.eqb _ _);
    [destruct (_ || _); [discriminate|]|]; now intros [= _ <-].
Qed.

Lemma pplx_last_text pre st t st' :
  poll_loop onChunk pre st = (t, Running st') ->
  lastText st' = last_accepted (lastText st) pre.
Proof.
  revert st t; induction pre as [|p pre IH]; intros st t H.
  - simpl in H. now injection H as _ <-.
  - simpl in H. unfold last_accepted; simpl.
    destruct (elapsed p <? MAX_TIMEOUT)%Z; [|discriminate].
    destruct (extraction p) as [ext|e]; [|discriminate].
    destruct (loop_body onChunk ext st) as [evs [st1|r]] eqn:B;
      [|discriminate].
    unfold after in H; simpl in H.
    destruct (poll_loop onChunk pre st1) as [t1 out] eqn:L.
    simpl in H. injection H as _ ->.
    rewrite (IH _ _ L), (pplx_body_last_text _ _ _ _ B). reflexivity.
Qed.

(** The loop ends on every sequence of polls that holds a late one. *)
Lemma pplx_loop_ends polls st :
  (exists p, In p polls /\ (MAX_TIMEOUT <= elapsed p)%Z) ->
  exists t c, poll_loop onChunk polls st = (t, Finished c).
Proof.
  revert st; induction polls as [|p polls IH]; intros st (q & Hq & Hl).
  - contradiction.
  - simpl.
    destruct (Z.ltb_spec (elapsed p) MAX_TIMEOUT) as [Hp|Hp]; [|eauto].
    destruct (extraction p) as [ext|e]; [|eauto].
    destruct (loop_body onChunk ext st) as [evs [st1|r]]; [|eauto].
    destruct Hq as [->|Hq]; [lia|].
    destruct (IH st1) as (t & c & ->); [eauto|].
    unfold after; simpl; eauto.
Qed.

(** Polls with an empty text change nothing. *)
Lemma pplx_empty_run pre st :
  Forall (reads "") pre ->
  poll_loop onChunk pre st =
  (repeat EvExtract (List.length pre), Running st).
Proof.
  induction pre as [|p pre IH]; intros HF; [reflexivity|].
  apply Forall_cons_iff in HF as [[Hin (ext & Hext & Htxt)] HF'].
  rewrite (pplx_loop_sample _ _ _ _ Hin Hext), (pplx_body_empty _ _ Htxt).
  rewrite (IH HF'). reflexivity.
Qed.

(** No event of the loop closes anything. *)
Lemma pplx_loop_no_close polls st :
  Forall (fun e => is_page_close e = false /\ is_context_close e = false)
         (fst (poll_loop onChunk polls st)).
Proof.
  revert st; induction polls as [|p polls IH]; intros st; simpl.
  - constructor.
  - destruct (elapsed p <? MAX_TIMEOUT)%Z; [|constructor].
    destruct (extraction p) as [ext|e]; [|repeat constructor].
    assert (B : Forall (fun e => is_page_close e = false
                                 /\ is_context_close e = false)
                       (fst (loop_body onChunk ext st))).
    { unfold loop_body.
      destruct (truthy _); [|constructor].
      destruct (onChunk && _);
        destruct (String.eqb _ _); try destruct (_ || _);
        simpl; repeat constructor. }
    destruct (loop_body onChunk ext st) as [evs [st1|r]]; simpl in *.
    + constructor; [now split|]. apply Forall_app; split; [exact B|apply IH].
    + constructor; [now split|exact B].
Qed.

(** The offset [lastChunkedLength] advances by exactly what is
    emitted. *)
Lemma pplx_body_offset ext st evs st' :
  loop_body onChunk ext st = (evs, inl st') ->
  lastChunkedLength st' = lastChunkedLength st + String.length (streamed evs).
Proof.
  unfold loop_body.
  destruct (truthy (answerText ext));
    [|intros [= <- <-]; simpl; lia].
  destruct (onChunk && _) eqn:G.
  - apply andb_true_iff in G as [_ G]. apply Nat.ltb_lt in G.
    assert (E : String.length
                  (streamed
                     [EvChunk (slice_from (lastChunkedLength st)
                                          (answerText ext))])
                = String.length (answerText ext) - lastChunkedLength st).
    { unfold streamed; simpl.
      now rewrite append_empty_r, length_slice_from. }
    destruct (String.eqb _ _);
      [destruct (_ || _); [discriminate|]|];
      intros [= <- <-]; simpl lastChunkedLength; rewrite E; lia.
  - destruct (String.eqb _ _);
      [destruct (_ || _); [discriminate|]|];
      intros [= <- <-]; simpl; lia.
Qed.

Lemma pplx_loop_offset polls st t st' :
  poll_loop onChunk polls st = (t, Running st') ->
  lastChunkedLength st' = lastChunkedLength st + String.length (streamed t).
Proof.
  revert st t; induction polls as [|p polls IH]; intros st t H.
  - simpl in H. injection H as <- <-. simpl. lia.
  - simpl in H.
    destruct (elapsed p <? MAX_TIMEOUT)%Z; [|discriminate].
    destruct (extraction p) as [ext|e]; [|discriminate].
    destruct (loop_body onChunk ext st) as [evs [st1|r]] eqn:B;
      [|discriminate].
    unfold after in H; simpl in H.
    destruct (poll_loop onChunk polls st1) as [t1 out] eqn:L.
    simpl in H. injection H as <- ->.
    rewrite (IH _ _ L), (pplx_body_offset _ _ _ _ B).
    change (EvExtract :: evs ++ t1) with ([EvExtract] ++ evs ++ t1).
    rewrite !streamed_app, !length_append. simpl. lia.
Qed.

End PerplexityLoop.

(** ** The polling loop of queryGemini *)

Section GeminiLoop.
Import Gemini.
Variable onChunk : bool.

Lemma gem_loop_late p rest st :
  (120000 <= elapsed p)%Z ->
  poll_loop onChunk (p :: rest) st = ([], Finished (after_loop st)).
Proof.
  intros H. simpl.
  destruct (Z.ltb_spec (elapsed p) 120000); [lia | reflexivity].
Qed.

Lemma gem_loop_throw p rest st e :
  (elapsed p < 120000)%Z -> extraction p = Thrown e ->
  poll_loop onChunk (p :: rest) st = ([EvExtract], Finished (Thrown e)).
Proof.
  intros H E. simpl. rewrite E.
  destruct (Z.ltb_spec (elapsed p) 120000); [reflexivity | lia].
Qed.

Lemma gem_loop_sample p rest st ext :
  (elapsed p < 120000)%Z -> extraction p = Returned ext ->
  poll_loop onChunk (p :: rest) st =
  match loop_body onChunk ext st with
  | (evs, inr r) => (EvExtract :: evs, Finished (Returned r))
  | (evs, inl st') => after (EvExtract :: evs) (poll_loop onChunk rest st')
  end.
Proof.
  intros H E. simpl. rewrite E.
  destruct (Z.ltb_spec (elapsed p) 120000); [reflexivity | lia].
Qed.

(** Running the loop on [pre ++ rest] is running it on [pre] and, when
    that has not finished, going on with [rest]. *)
Lemma gem_loop_app pre rest st :
  poll_loop onChunk (pre ++ rest) st =
  match poll_loop onChunk pre st with
  | (t, Running st') => after t (poll_loop onChunk rest st')
  | (t, Finished c) => (t, Finished c)
  end.
Proof.
  revert st; induction pre as [|p pre IH]; intros st.
  - simpl. now rewrite after_nil.
  - simpl.
    destruct (elapsed p <? 120000)%Z; [|reflexivity].
    destruct (extraction p) as [ext|e]; [|reflexivity].
    destruct (loop_body onChunk ext st) as [evs [st'|r]]; [|reflexivity].
    rewrite IH.
    destruct (poll_loop onChunk pre st') as [t [st''|c]]; simpl.
    + now rewrite after_after.
    + reflexivity.
Qed.

Lemma gem_loop_running pre rest st t st' :
  poll_loop onChunk pre st = (t, Running st') ->
  poll_loop onChunk (pre ++ rest) st = after t (poll_loop onChunk rest st').
Proof. intros H. now rewrite gem_loop_app, H. Qed.

(** A text the guard refuses leaves the loop variables alone and emits
    nothing; the loop goes on, or returns the retained text when the
    sample reports a model-response and a text is retained. *)
Lemma gem_body_short ext st :
  long_enough (answerText ext) = false ->
  loop_body onChunk ext st =
  if modelResponseExists ext && truthy (lastText st)
  then ([], inr {| answer := lastText st |})
  else ([], inl st).
Proof. intros H. unfold loop_body. unfold long_enough in H. now rewrite H. Qed.

(** A text different from [lastText] restarts the count. *)
Lemma gem_body_change ext st :
  long_enough (answerText ext) = true -> answerText ext <> lastText st ->
  exists evs n,
    loop_body onChunk ext st =
    (evs, inl {| lastText := answerText ext; stableCount := 0;
                 lastChunkedLength := n |}).
Proof.
  intros H1 H2. unfold loop_body. unfold long_enough in H1. rewrite H1.
  apply String.eqb_neq in H2. rewrite H2. eauto.
Qed.

(** A repeat of [lastText] on which neither rule fires. *)
Lemma gem_body_wait ext st :
  long_enough (answerText ext) = true -> answerText ext = lastText st ->
  (negb (isLoading ext)
   && ((if modelResponseExists ext then 2 else 5) <=? S (stableCount st)))
  || (10 <=? S (stableCount st)) = false ->
  exists evs n,
    loop_body onChunk ext st =
    (evs, inl {| lastText := answerText ext;
                 stableCount := S (stableCount st);
                 lastChunkedLength := n |}).
Proof.
  intros H1 H2 H3. unfold loop_body. unfold long_enough in H1. rewrite H1.
  apply String.eqb_eq in H2. rewrite H2, H3. eauto.
Qed.

(** A repeat of [lastText] on which a rule fires. *)
Lemma gem_body_done ext st :
  long_enough (answerText ext) = true -> answerText ext = lastText st ->
  (negb (isLoading ext)
   && ((if modelResponseExists ext then 2 else 5) <=? S (stableCount st)))
  || (10 <=? S (stableCount st)) = true ->
  exists evs,
    loop_body onChunk ext st = (evs, inr {| answer := answerText ext |}).
Proof.
  intros H1 H2 H3. unfold loop_body. unfold long_enough in H1. rewrite H1.
  apply String.eqb_eq in H2. rewrite H2, H3. eauto.
Qed.

(** A run of polls that all read the retained text ends the loop with
    that text as soon as the count can reach 10. *)
Lemma gem_repeat_run T run post st :
  long_enough T = true -> lastText st = T -> run <> [] ->
  Forall (reads T) run ->
  10 <= stableCount st + List.length run ->
  exists t,
    poll_loop onChunk (run ++ post) st =
    (t, Finished (Returned {| answer := T |})).
Proof.
  intros HT. revert st.
  induction run as [|p run IH]; intros st HL HN HF HC; [congruence|].
  apply Forall_cons_iff in HF as [[Hin (ext & Hext & Htxt)] HF'].
  assert (HT' : long_enough (answerText ext) = true) by congruence.
  assert (HL' : answerText ext = lastText st) by congruence.
  simpl app. rewrite (gem_loop_sample _ _ _ _ Hin Hext).
  destruct ((negb (isLoading ext)
             && ((if modelResponseExists ext then 2 else 5)
                 <=? S (stableCount st)))
            || (10 <=? S (stableCount st))) eqn:D.
  - destruct (gem_body_done ext st HT' HL' D) as [evs ->].
    rewrite Htxt. eauto.
  - destruct (gem_body_wait ext st HT' HL' D) as (evs & n & ->).
    apply orb_false_iff in D. destruct D as [_ D].
    apply Nat.leb_gt in D.
    destruct (IH {| lastText := answerText ext;
                    stableCount := S (stableCount st);
                    lastChunkedLength := n |}) as (t & ->);
      simpl; auto.
    + destruct run; simpl in *; [lia | congruence].
    + simpl in HC. lia.
    + unfold after; simpl. eauto.
Qed.

(** A run of repeats of the retained text on which no rule fires
    leaves the loop running, the count raised by its length. *)
Lemma gem_wait_run T before st :
  long_enough T = true -> lastText st = T -> Forall (reads T) before ->
  stableCount st + List.length before < 10 ->
  (forall i p, nth_error before i = Some p ->
               doneThreshold p <= stableCount st + S i -> busy p = true) ->
  exists t n,
    poll_loop onChunk before st =
    (t, Running {| lastText := T;
                   stableCount := stableCount st + List.length before;
                   lastChunkedLength := n |}).
Proof.
  intros HT. revert st.
  induction before as [|p before IH]; intros st HL HF HC HB.
  - exists [], (lastChunkedLength st). simpl.
    destruct st as [l c n]; simpl in *. subst l.
    now rewrite Nat.add_0_r.
  - apply Forall_cons_iff in HF as [[Hin (ext & Hext & Htxt)] HF'].
    assert (HT' : long_enough (answerText ext) = true) by congruence.
    assert (HL' : answerText ext = lastText st) by congruence.
    rewrite (gem_loop_sample _ _ _ _ Hin Hext).
    assert (D : (negb (isLoading ext)
                 && ((if modelResponseExists ext then 2 else 5)
                     <=? S (stableCount st)))
                || (10 <=? S (stableCount st)) = false).
    { apply orb_false_iff; split.
      - destruct ((if modelResponseExists ext then 2 else 5)
                  <=? S (stableCount st)) eqn:E3;
          [|now rewrite andb_false_r].
        apply Nat.leb_le in E3.
        specialize (HB 0 p eq_refl). unfold busy, doneThreshold in HB.
        rewrite Hext in HB. rewrite HB by lia. reflexivity.
      - apply Nat.leb_gt. simpl in HC. lia. }
    destruct (gem_body_wait ext st HT' HL' D) as (evs & n & ->).
    destruct (IH {| lastText := answerText ext;
                    stableCount := S (stableCount st);
                    lastChunkedLength := n |}) as (t & n' & ->);
      simpl; auto.
    + simpl in HC. lia.
    + intros i q Hq Hi. apply (HB (S i) q Hq). lia.
    + unfold after; simpl.
      replace (stableCount st + S (List.length before))
        with (S (stableCount st + List.length before)) by lia.
      eauto.
Qed.

(** The loop variable [lastText] after a run that has not finished. *)
Lemma gem_body_last_text ext st evs st' :
  loop_body onChunk ext st = (evs, inl st') ->
  lastText st' =
  if long_enough (answerText ext) then answerText ext else lastText st.
Proof.
  unfold loop_body, long_enough.
  destruct (truthy (answerText ext) && _).
  - destruct (String.eqb _ _);
      [destruct (_ || _); [discriminate|]|]; now intros [= _ <-].
  - destruct (_ && _); [discriminate | now intros [= _ <-]].
Qed.

Lemma gem_last_text pre st t st' :
  poll_loop onChunk pre st = (t, Running st') ->
  lastText st' = last_accepted (lastText st) pre.
Proof.
  revert st t; induction pre as [|p pre IH]; intros st t H.
  - simpl in H. now injection H as _ <-.
  - simpl in H. unfold last_accepted; simpl.
    destruct (elapsed p <? 120000)%Z; [|discriminate].
    destruct (extraction p) as [ext|e]; [|discriminate].
    destruct (loop_body onChunk ext st) as [evs [st1|r]] eqn:B;
      [|discriminate].
    unfold after in H; simpl in H.
    destruct (poll_loop onChunk pre st1) as [t1 out] eqn:L.
    simpl in H. injection H as _ ->.
    rewrite (IH _ _ L), (gem_body_last_text _ _ _ _ B). reflexivity.
Qed.

(** The loop ends on every sequence of polls that holds a late one. *)
Lemma gem_loop_ends polls st :
  (exists p, In p polls /\ (120000 <= elapsed p)%Z) ->
  exists t c, poll_loop onChunk polls st = (t, Finished c).
Proof.
  revert st; induction polls as [|p polls IH]; intros st (q & Hq & Hl).
  - contradiction.
  - simpl.
    destruct (Z.ltb_spec (elapsed p) 120000) as [Hp|Hp]; [|eauto].
    destruct (extraction p) as [ext|e]; [|eauto].
    destruct (loop_body onChunk ext st) as [evs [st1|r]]; [|eauto].
    destruct Hq as [->|Hq]; [lia|].
    destruct (IH st1) as (t & c & ->); [eauto|].
    unfold after; simpl; eauto.
Qed.

(** While no text is retained, polls whose text the guard refuses
    change nothing. *)
Lemma gem_short_run pre st :
  lastText st = "" ->
  Forall (fun p => exists T, reads T p /\ long_enough T = false) pre ->
  poll_loop onChunk pre st =
  (repeat EvExtract (List.length pre), Running st).
Proof.
  intros HL.
  induction pre as [|p pre IH]; intros HF; [reflexivity|].
  apply Forall_cons_iff in HF as [(T & [Hin (ext & Hext & Htxt)] & HT) HF'].
  rewrite (gem_loop_sample _ _ _ _ Hin Hext), gem_body_short by congruence.
  rewrite HL, andb_false_r, (IH HF'). reflexivity.
Qed.

(** No event of the loop closes anything. *)
Lemma gem_loop_no_close polls st :
  Forall (fun e => is_page_close e = false /\ is_context_close e = false)
         (fst (poll_loop onChunk polls st)).
Proof.
  revert st; induction polls as [|p polls IH]; intros st; simpl.
  - constructor.
  - destruct (elapsed p <? 120000)%Z; [|constructor].
    destruct (extraction p) as [ext|e]; [|repeat constructor].
    assert (B : Forall (fun e => is_page_close e = false
                                 /\ is_context_close e = false)
                       (fst (loop_body onChunk ext st))).
    { unfold loop_body.
      destruct (truthy _ && _).
      - destruct (onChunk && _);
          destruct (String.eqb _ _); try destruct (_ || _);
          simpl; repeat constructor.
      - destruct (_ && _); constructor. }
    destruct (loop_body onChunk ext st) as [evs [st1|r]]; simpl in *.
    + constructor; [now split|]. apply Forall_app; split; [exact B|apply IH].
    + constructor; [now split|exact B].
Qed.

(** The offset [lastChunkedLength] advances by exactly what is
    emitted. *)
Lemma gem_body_offset ext st evs st' :
  loop_body onChunk ext st = (evs, inl st') ->
  lastChunkedLength st' = lastChunkedLength st + String.length (streamed evs).
Proof.
  unfold loop_body.
  destruct (truthy (answerText ext) && _);
    [|destruct (_ && _); [discriminate|]; intros [= <- <-]; simpl; lia].
  destruct (onChunk && _) eqn:G.
  - apply andb_true_iff in G as [_ G]. apply Nat.ltb_lt in G.
    assert (E : String.length
                  (streamed
                     [EvChunk (slice_from (lastChunkedLength st)
                                          (answerText ext))])
                = String.length (answerText ext) - lastChunkedLength st).
    { unfold streamed; simpl.
      now rewrite append_empty_r, length_slice_from. }
    destruct (String.eqb _ _);
      [destruct (_ || _); [discriminate|]|];
      intros [= <- <-]; simpl lastChunkedLength; rewrite E; lia.
  - destruct (String.eqb _ _);
      [destruct (_ || _); [discriminate|]|];
      intros [= <- <-]; simpl; lia.
Qed.

Lemma gem_loop_offset polls st t st' :
  poll_loop onChunk polls st = (t, Running st') ->
  lastChunkedLength st' = lastChunkedLength st + String.length (streamed t).
Proof.
  revert st t; induction polls as [|p polls IH]; intros st t H.
  - simpl in H. injection H as <- <-. simpl. lia.
  - simpl in H.
    destruct (elapsed p <? 120000)%Z; [|discriminate].
    destruct (extraction p) as [ext|e]; [|discriminate].
    destruct (loop_body onChunk ext st) as [evs [st1|r]] eqn:B;
      [|discriminate].
    unfold after in H; simpl in H.
    destruct (poll_loop onChunk polls st1) as [t1 out] eqn:L.
    simpl in H. injection H as <- ->.
    rewrite (IH _ _ L), (gem_body_offset _ _ _ _ B).
    change (EvExtract :: evs ++ t1) with ([EvExtract] ++ evs ++ t1).
    rewrite !streamed_app, !length_append. simpl. lia.
Qed.

End GeminiLoop.

(** ** Streaming: the deltas against the text *)

Lemma streamed_chunk (d : string) : streamed [EvChunk d] = d.
Proof. unfold streamed; simpl. apply append_empty_r. Qed.

(** With a sink, a body that lets the text in emits what the text adds
    to a retained prefix of it. *)
Lemma pplx_body_stream ext st evs x :
  lastChunkedLength st = String.length (lastText st) ->
  truthy (Perplexity.answerText ext) = true ->
  String.prefix (lastText st) (Perplexity.answerText ext) = true ->
  Perplexity.loop_body true ext st = (evs, x) ->
  (lastText st ++ streamed evs)%string = Perplexity.answerText ext
  /\ match x with
     | inl st' => lastText st' = Perplexity.answerText ext
                  /\ lastChunkedLength st' = String.length (lastText st')
     | inr r => Perplexity.answer r = Perplexity.answerText ext
     end.
Proof.
  intros J HT HP. unfold Perplexity.loop_body. rewrite HT, J. simpl andb.
  destruct (Nat.ltb_spec (String.length (lastText st))
                         (String.length (Perplexity.answerText ext))) as [G|G].
  - destruct (String.eqb _ _); [destruct (_ || _)|];
      intros [= <- <-]; rewrite streamed_chunk, prefix_slice by assumption;
      simpl; auto.
  - pose proof (prefix_full _ _ HP G) as E.
    destruct (String.eqb _ _); [destruct (_ || _)|];
      intros [= <- <-]; unfold streamed; simpl;
      rewrite append_empty_r; rewrite <- E; auto.
Qed.

Lemma pplx_stream polls : forall st t out,
  lastChunkedLength st = String.length (lastText st) ->
  Perplexity.extends (lastText st) polls ->
  Perplexity.poll_loop true polls st = (t, out) ->
  match out with
  | Running st' =>
      lastChunkedLength st' = String.length (lastText st')
      /\ (lastText st ++ streamed t)%string = lastText st'
  | Finished (Returned r) =>
      (lastText st ++ streamed t)%string = Perplexity.answer r
  | Finished (Thrown _) => True
  end.
Proof.
  induction polls as [|p polls IH]; intros st t out J HE H; simpl in H.
  - injection H as <- <-. unfold streamed; simpl.
    now rewrite append_empty_r.
  - simpl in HE.
    destruct (Perplexity.elapsed p <? Perplexity.MAX_TIMEOUT)%Z.
    + destruct (Perplexity.extraction p) as [ext|e];
        [|injection H as <- <-; exact I].
      destruct (Perplexity.loop_body true ext st) as [evs x] eqn:B.
      destruct (truthy (Perplexity.answerText ext)) eqn:HT.
      * destruct HE as [HP HE].
        destruct (pplx_body_stream _ _ _ _ J HT HP B) as [S1 S2].
        destruct x as [st1|r].
        -- destruct S2 as [L1 J1].
           unfold after in H; simpl in H.
           destruct (Perplexity.poll_loop true polls st1) as [t1 o1] eqn:L.
           simpl in H. injection H as <- <-.
           rewrite <- L1 in HE. specialize (IH _ _ _ J1 HE L).
           change (EvExtract :: evs ++ t1) with ([EvExtract] ++ evs ++ t1).
           rewrite !streamed_app. change (streamed [EvExtract]) with "".
           simpl append. rewrite <- append_assoc, S1, <- L1. exact IH.
        -- injection H as <- <-.
           change (EvExtract :: evs) with ([EvExtract] ++ evs).
           rewrite streamed_app. change (streamed [EvExtract]) with "".
           simpl append. congruence.
      * unfold Perplexity.loop_body in B. rewrite HT in B.
        injection B as <- <-.
        unfold after in H; simpl in H.
        destruct (Perplexity.poll_loop true polls st) as [t1 o1] eqn:L.
        simpl in H. injection H as <- <-.
        exact (IH _ _ _ J HE L).
    + injection H as <- <-. unfold Perplexity.after_loop.
      destruct (truthy (lastText st)); [|exact I].
      unfold streamed; simpl. apply append_empty_r.
Qed.

Lemma gem_body_stream ext st evs x :
  lastChunkedLength st = String.length (lastText st) ->
  Gemini.long_enough (Gemini.answerText ext) = true ->
  String.prefix (lastText st) (Gemini.answerText ext) = true ->
  Gemini.loop_body true ext st = (evs, x) ->
  (lastText st ++ streamed evs)%string = Gemini.answerText ext
  /\ match x with
     | inl st' => lastText st' = Gemini.answerText ext
                  /\ lastChunkedLength st' = String.length (lastText st')
     | inr r => Gemini.answer r = Gemini.answerText ext
     end.
Proof.
  intros J HT HP. unfold Gemini.loop_body.
  unfold Gemini.long_enough in HT. rewrite HT, J. simpl andb.
  destruct (Nat.ltb_spec (String.length (lastText st))
                         (String.length (Gemini.answerText ext))) as [G|G].
  - destruct (String.eqb _ _); [destruct (_ || _)|];
      intros [= <- <-]; rewrite streamed_chunk, prefix_slice by assumption;
      simpl; auto.
  - pose proof (prefix_full _ _ HP G) as E.
    destruct (String.eqb _ _); [destruct (_ || _)|];
      intros [= <- <-]; unfold streamed; simpl;
      rewrite append_empty_r; rewrite <- E; auto.
Qed.

Lemma gem_stream polls : forall st t out,
  lastChunkedLength st = String.length (lastText st) ->
  Gemini.extends (lastText st) polls ->
  Gemini.poll_loop true polls st = (t, out) ->
  match out with
  | Running st' =>
      lastChunkedLength st' = String.length (lastText st')
      /\ (lastText st ++ streamed t)%string = lastText st'
  | Finished (Returned r) =>
      (lastText st ++ streamed t)%string = Gemini.answer r
  | Finished (Thrown _) => True
  end.
Proof.
  induction polls as [|p polls IH]; intros st t out J HE H; simpl in H.
  - injection H as <- <-. unfold streamed; simpl.
    now rewrite append_empty_r.
  - simpl in HE.
    destruct (Gemini.elapsed p <? 120000)%Z.
    + destruct (Gemini.extraction p) as [ext|e];
        [|injection H as <- <-; exact I].
      destruct (Gemini.loop_body true ext st) as [evs x] eqn:B.
      destruct (Gemini.long_enough (Gemini.answerText ext)) eqn:HT.
      * destruct HE as [HP HE].
        destruct (gem_body_stream _ _ _ _ J HT HP B) as [S1 S2].
        destruct x as [st1|r].
        -- destruct S2 as [L1 J1].
           unfold after in H; simpl in H.
           destruct (Gemini.poll_loop true polls st1) as [t1 o1] eqn:L.
           simpl in H. injection H as <- <-.
           rewrite <- L1 in HE. specialize (IH _ _ _ J1 HE L).
           change (EvExtract :: evs ++ t1) with ([EvExtract] ++ evs ++ t1).
           rewrite !streamed_app. change (streamed [EvExtract]) with "".
           simpl append. rewrite <- append_assoc, S1, <- L1. exact IH.
        -- injection H as <- <-.
           change (EvExtract :: evs) with ([EvExtract] ++ evs).
           rewrite streamed_app. change (streamed [EvExtract]) with "".
           simpl append. congruence.
      * rewrite gem_body_short in B by assumption.
        destruct (Gemini.modelResponseExists ext && truthy (lastText st)).
        -- injection B as <- <-. injection H as <- <-.
           unfold streamed; simpl. apply append_empty_r.
        -- injection B as <- <-.
           unfold after in H; simpl in H.
           destruct (Gemini.poll_loop true polls st) as [t1 o1] eqn:L.
           simpl in H. injection H as <- <-.
           exact (IH _ _ _ J HE L).
    + injection H as <- <-. unfold Gemini.after_loop.
      destruct (truthy (lastText st)); [|exact I].
      unfold streamed; simpl. apply append_empty_r.
Qed.

(** ** submitQuery and the whole query *)

Section Submit.
Variable isVisible : Box -> bool.
Variable query : string.



(** The scan records at most the insertion of the query. *)
Lemma scan_elements_events els :
  fst (scan_elements isVisible query els) = []
  \/ fst (scan_elements isVisible query els) = [EvInsertText query].
Proof.
  induction els as [|el els IH]; simpl; [now left|].
  destruct (evaluate el) as [b|e]; [|now left].
  destruct (isVisible b); [|exact IH].
  destruct (operable el); [now right | now left].
Qed.

Lemma scan_selectors_events s sels :
  fst (scan_selectors isVisible s query sels) = []
  \/ fst (scan_selectors isVisible s query sels) = [EvInsertText query].
Proof.
  induction sels as [|sel sels IH]; simpl; [now left|].
  destruct (query_all s sel) as [els|e]; [|exact IH].
  pose proof (scan_elements_events els) as H.
  destruct (scan_elements isVisible query els) as [evs [| |]];
    simpl in *; auto.
Qed.

End Submit.

Arguments scan_selectors : simpl never.

(** What makes a trace free of releases and of deltas. *)
Lemma plain_events (t : list Event) :
  t = [] \/ (exists q, t = [EvInsertText q]) ->
  Forall (fun e => is_page_close e = false /\ is_context_close e = false) t
  /\ streamed t = "".
Proof.
  intros [->|[q ->]]; split; try reflexivity; repeat constructor.
Qed.

Lemma count_none (p : Event -> bool) (t : list Event) :
  Forall (fun e => p e = false) t -> count p t = 0.
Proof.
  unfold count. induction 1 as [|e t He _ IH]; simpl; [reflexivity|].
  now rewrite He.
Qed.

Lemma pplx_submit_events s q :
  let evs := fst (Perplexity.submitQuery s q) in
  Forall (fun e => is_page_close e = false /\ is_context_close e = false) evs
  /\ streamed evs = "".
Proof.
  unfold Perplexity.submitQuery.
  destruct (scrollTo s); cbn [fst]; [|split; [constructor|reflexivity]].
  apply plain_events.
  destruct (scan_selectors_events Perplexity.isVisible q s
                                  Perplexity.selectors); eauto.
Qed.

Lemma gem_submit_events s q :
  let evs := fst (Gemini.submitQuery s q) in
  Forall (fun e => is_page_close e = false /\ is_context_close e = false) evs
  /\ streamed evs = "".
Proof.
  unfold Gemini.submitQuery.
  destruct (scrollTo s); cbn [fst]; [|split; [constructor|reflexivity]].
  apply plain_events.
  destruct (scan_selectors_events Gemini.isVisible q s Gemini.selectors);
    eauto.
Qed.

(** The [try] block of queryPerplexity releases nothing, and streams
    what its loop streams. *)
Lemma pplx_try_block q oc w :
  let r := Perplexity.try_block q oc w in
  Forall (fun e => is_page_close e = false /\ is_context_close e = false)
         (fst r)
  /\ (r = (fst r, snd r)
      /\ forall res, snd r = Finished (Returned res) ->
           exists evs tl,
             Perplexity.poll_loop oc (Perplexity.polls w) loop_start
             = (tl, Finished (Returned res))
             /\ fst r = EvGoto :: EvSubmit :: evs ++ tl
             /\ streamed evs = "").
Proof.
  unfold Perplexity.try_block.
  destruct (Perplexity.goto w) as [u|e]; simpl.
  2:{ split; [repeat constructor | split; [reflexivity | discriminate]]. }
  pose proof (pplx_submit_events (Perplexity.surface w) q) as [F S].
  destruct (Perplexity.submitQuery (Perplexity.surface w) q) as [evs [[|]|e]];
    simpl in *.
  - pose proof (pplx_loop_no_close oc (Perplexity.polls w) loop_start) as L.
    destruct (Perplexity.poll_loop oc (Perplexity.polls w) loop_start)
      as [tl out]; simpl in *.
    split; [|split; [reflexivity|]].
    + repeat (constructor; [now split|]). now apply Forall_app.
    + intros res ->. eauto.
  - split; [|split; [reflexivity | discriminate]].
    repeat (constructor; [now split|]). exact F.
  - split; [|split; [reflexivity | discriminate]].
    repeat (constructor; [now split|]). exact F.
Qed.

Lemma gem_try_block q oc w :
  let r := Gemini.try_block q oc w in
  Forall (fun e => is_page_close e = false /\ is_context_close e = false)
         (fst r)
  /\ (r = (fst r, snd r)
      /\ forall res, snd r = Finished (Returned res) ->
           exists evs tl,
             Gemini.poll_loop oc (Gemini.polls w) loop_start
             = (tl, Finished (Returned res))
             /\ fst r = EvGoto :: EvSubmit :: evs ++ tl
             /\ streamed evs = "").
Proof.
  unfold Gemini.try_block.
  destruct (Gemini.goto w) as [u|e]; simpl.
  2:{ split; [repeat constructor | split; [reflexivity | discriminate]]. }
  destruct (Gemini.dismiss w) as [u'|e]; simpl.
  2:{ split; [repeat constructor | split; [reflexivity | discriminate]]. }
  pose proof (gem_submit_events (Gemini.surface w) q) as [F S].
  destruct (Gemini.submitQuery (Gemini.surface w) q) as [evs [[|]|e]];
    simpl in *.
  - pose proof (gem_loop_no_close oc (Gemini.polls w) loop_start) as L.
    destruct (Gemini.poll_loop oc (Gemini.polls w) loop_start)
      as [tl out]; simpl in *.
    split; [|split; [reflexivity|]].
    + repeat (constructor; [now split|]). now apply Forall_app.
    + intros res ->. eauto.
  - split; [|split; [reflexivity|]].
    + repeat (constructor; [now split|]). exact F.
    + destruct (Gemini.debug_dump w); discriminate.
  - split; [|split; [reflexivity | discriminate]].
    repeat (constructor; [now split|]). exact F.
Qed.

(** Once the query is submitted, the execution is the loop between the
    submission and the [finally]. *)
Lemma pplx_query_polling q oc w evs :
  Perplexity.createPage w = Returned tt ->
  Perplexity.goto w = Returned tt ->
  Perplexity.submitQuery (Perplexity.surface w) q = (evs, Returned true) ->
  Perplexity.queryPerplexity q oc w =
  match Perplexity.poll_loop oc (Perplexity.polls w) loop_start with
  | (t, Running st) => (EvGoto :: EvSubmit :: evs ++ t, Running st)
  | (t, Finished c) =>
      (EvGoto :: EvSubmit :: evs ++ t ++ [EvPageClose; EvContextClose],
       Finished c)
  end.
Proof.
  intros C G S. unfold Perplexity.queryPerplexity, Perplexity.try_block.
  rewrite C, G, S.
  destruct (Perplexity.poll_loop oc (Perplexity.polls w) loop_start)
    as [t [st|c]]; unfold after; simpl; [reflexivity|].
  now rewrite <- app_assoc.
Qed.

Lemma gem_query_polling q oc w evs :
  Gemini.createPage w = Returned tt ->
  Gemini.goto w = Returned tt ->
  Gemini.dismiss w = Returned tt ->
  Gemini.submitQuery (Gemini.surface w) q = (evs, Returned true) ->
  Gemini.queryGemini q oc w =
  match Gemini.poll_loop oc (Gemini.polls w) loop_start with
  | (t, Running st) => (EvGoto :: EvSubmit :: evs ++ t, Running st)
  | (t, Finished c) =>
      (EvGoto :: EvSubmit :: evs ++ t ++ [EvPageClose], Finished c)
  end.
Proof.
  intros C G D S. unfold Gemini.queryGemini, Gemini.try_block.
  rewrite C, G, D, S.
  destruct (Gemini.poll_loop oc (Gemini.polls w) loop_start)
    as [t [st|c]]; unfold after; simpl; [reflexivity|].
  now rewrite <- app_assoc.
Qed.

(** ** The queue *)

Module QueueFacts.
Import Queue.

Lemma consistent_initial : consistent initial [].
Proof. repeat split; simpl; auto; discriminate. Qed.

Lemma consistent_enqueue s jobs job :
  consistent s jobs -> consistent (enqueue job s) (jobs ++ [job]).
Proof.
  intros (Hb & Hi & Hj). unfold enqueue, processQueue; simpl.
  destruct (processing s) eqn:P; simpl.
  - split; [|split]; simpl.
    + exact Hb.
    + discriminate.
    + now rewrite app_assoc, Hj.
  - destruct (Hi eq_refl) as [He Hq]. rewrite Hq in *; simpl.
    split; [|split]; simpl.
    + intros _. rewrite He. eauto.
    + discriminate.
    + rewrite app_nil_r in *. now subst.
Qed.

Lemma consistent_settle s jobs job ok :
  consistent s jobs -> consistent (settle job ok s) jobs.
Proof.
  intros (Hb & Hi & Hj). unfold settle.
  destruct (existsb (Nat.eqb job) (executing s)) eqn:E;
    [|exact (conj Hb (conj Hi Hj))].
  destruct (processing s) eqn:P.
  2:{ destruct (Hi eq_refl) as [He _]. rewrite He in E. discriminate. }
  destruct (Hb eq_refl) as [j Hx]. rewrite Hx in *. simpl in E.
  rewrite orb_false_r in E. apply Nat.eqb_eq in E. subst j.
  simpl. rewrite Nat.eqb_refl.
  destruct (requestQueue s) as [|next rest] eqn:Q; simpl.
  - split; [|split]; simpl; auto. discriminate.
  - unfold processQueue; simpl.
    split; [|split]; simpl.
    + eauto.
    + discriminate.
    + now rewrite <- app_assoc.
Qed.

Lemma consistent_fold acts : forall s jobs,
  consistent s jobs ->
  consistent (fold_left step acts s) (jobs ++ enqueued acts).
Proof.
  induction acts as [|a acts IH]; intros s jobs H; simpl.
  - now rewrite app_nil_r.
  - destruct a as [job|job ok]; simpl.
    + replace (jobs ++ job :: enqueued acts)
        with ((jobs ++ [job]) ++ enqueued acts)
        by now rewrite <- app_assoc.
      apply IH, consistent_enqueue, H.
    + apply IH, consistent_settle, H.
Qed.

Lemma consistent_run acts : consistent (run acts) (enqueued acts).
Proof. exact (consistent_fold acts initial [] consistent_initial). Qed.

End QueueFacts.

(** ** The two stability rules *)

Section PerplexityRules.
Import Perplexity.
Variable onChunk : bool.

(** The first reading of a new text followed by repeats on which no
    rule fires. *)
Lemma pplx_new_text_waits T first before st :
  T <> "" -> lastText st <> T ->
  Forall (reads T) (first :: before) ->
  List.length before < 8 ->
  (forall i p, nth_error before i = Some p -> 3 <= S i -> busy p = true) ->
  exists t n,
    poll_loop onChunk (first :: before) st =
    (t, Running {| lastText := T; stableCount := List.length before;
                   lastChunkedLength := n |}).
Proof.
  intros HT Hnew HF Hlen Hbusy.
  apply Forall_cons_iff in HF as [[Hin (ext & Hext & Htxt)] HF].
  rewrite (pplx_loop_sample _ _ _ _ _ Hin Hext).
  destruct (pplx_body_change onChunk ext st) as (evs & n & ->);
    [congruence | congruence |].
  destruct (pplx_wait_run onChunk T before
              {| lastText := answerText ext; stableCount := 0;
                 lastChunkedLength := n |}) as (t & n' & ->);
    simpl; auto.
  unfold after; simpl; eauto.
Qed.

(** A repeat of the retained text on which the early rule fires. *)
Lemma pplx_early_hit T hit later st :
  T <> "" -> lastText st = T -> reads T hit ->
  busy hit = false -> 3 <= S (stableCount st) ->
  exists t,
    poll_loop onChunk (hit :: later) st =
    (t, Finished (Returned {| answer := T; result_sources := cited hit |})).
Proof.
  intros HT HL [Hin (ext & Hext & Htxt)] Hb H3.
  rewrite (pplx_loop_sample _ _ _ _ _ Hin Hext).
  unfold busy in Hb. unfold cited. rewrite Hext in *.
  destruct (pplx_body_done onChunk ext st) as [evs ->];
    [congruence | congruence | |rewrite Htxt; eauto].
  rewrite Hb. cbn [negb andb].
  apply Nat.leb_le in H3. now rewrite H3.
Qed.

End PerplexityRules.

Section GeminiRules.
Import Gemini.
Variable onChunk : bool.

Lemma gem_new_text_waits T first before st :
  long_enough T = true -> lastText st <> T ->
  Forall (reads T) (first :: before) ->
  List.length before < 10 ->
  (forall i p, nth_error before i = Some p ->
               doneThreshold p <= S i -> busy p = true) ->
  exists t n,
    poll_loop onChunk (first :: before) st =
    (t, Running {| lastText := T; stableCount := List.length before;
                   lastChunkedLength := n |}).
Proof.
  intros HT Hnew HF Hlen Hbusy.
  apply Forall_cons_iff in HF as [[Hin (ext & Hext & Htxt)] HF].
  rewrite (gem_loop_sample _ _ _ _ _ Hin Hext).
  destruct (gem_body_change onChunk ext st) as (evs & n & ->);
    [congruence | congruence |].
  destruct (gem_wait_run onChunk T before
              {| lastText := answerText ext; stableCount := 0;
                 lastChunkedLength := n |}) as (t & n' & ->);
    simpl; auto.
  unfold after; simpl; eauto.
Qed.

Lemma gem_early_hit T hit later st :
  long_enough T = true -> lastText st = T -> reads T hit ->
  busy hit = false -> doneThreshold hit <= S (stableCount st) ->
  exists t,
    poll_loop onChunk (hit :: later) st =
    (t, Finished (Returned {| answer := T |})).
Proof.
  intros HT HL [Hin (ext & Hext & Htxt)] Hb H3.
  rewrite (gem_loop_sample _ _ _ _ _ Hin Hext).
  unfold busy in Hb. unfold doneThreshold in H3. rewrite Hext in *.
  destruct (gem_body_done onChunk ext st) as [evs ->];
    [congruence | congruence | |rewrite Htxt; eauto].
  rewrite Hb. cbn [negb andb].
  apply Nat.leb_le in H3. now rewrite H3.
Qed.

End GeminiRules.

(** C1, as amended. Forced-stable rule. In either engine, when the
    polling loop is still running as a run of polls begins, every poll of
    the run is taken before the deadline of the loop and reads the same
    text [T], [T] passes the guard of the loop (non-empty in
    queryPerplexity, longer than 10 characters in queryGemini) and the
    run holds the first reading of [T] and highThreshold repeats or more
    (9 polls with highThreshold 8 in queryPerplexity, 11 polls with
    highThreshold 10 in queryGemini), the loop returns [T] as the answer,
    whatever the busy signal on those polls, whatever was read before
    the run and whatever would be read after it. *)
Theorem forced_stable_rule :
  forall (onChunk : bool) (T : string),
    (forall pre run post t st,
        Perplexity.poll_loop onChunk pre loop_start = (t, Running st) ->
        T <> "" ->
        Forall (Perplexity.reads T) run ->
        9 <= List.length run ->
        exists t' srcs,
          Perplexity.poll_loop onChunk (pre ++ run ++ post) loop_start =
          (t', Finished (Returned {| Perplexity.answer := T;
                                     Perplexity.result_sources := srcs |})))
    /\ (forall pre run post t st,
           Gemini.poll_loop onChunk pre loop_start = (t, Running st) ->
           Gemini.long_enough T = true ->
           Forall (Gemini.reads T) run ->
           11 <= List.length run ->
           exists t',
             Gemini.poll_loop onChunk (pre ++ run ++ post) loop_start =
             (t', Finished (Returned {| Gemini.answer := T |}))).
Proof.
  intros onChunk T; split; intros pre run post t st Hpre HT HF HL.
  - rewrite (pplx_loop_running _ _ _ _ _ _ Hpre).
    destruct run as [|first reps]; [simpl in HL; lia|].
    destruct (string_dec (lastText st) T) as [E|E].
    + destruct (pplx_repeat_run onChunk T (first :: reps) post st)
        as (t1 & srcs & ->); auto; [discriminate | lia |].
      unfold after; simpl; eauto.
    + apply Forall_cons_iff in HF as [[Hin (ext & Hext & Htxt)] HF].
      simpl app. rewrite (pplx_loop_sample _ _ _ _ _ Hin Hext).
      destruct (pplx_body_change onChunk ext st) as (evs & n & ->);
        [congruence | congruence |].
      destruct (pplx_repeat_run onChunk T reps post
                  {| lastText := Perplexity.answerText ext; stableCount := 0;
                     lastChunkedLength := n |}) as (t1 & srcs & ->);
        simpl; auto.
      * destruct reps; simpl in *; [lia | discriminate].
      * simpl in HL. lia.
      * unfold after; simpl; eauto.
  - rewrite (gem_loop_running _ _ _ _ _ _ Hpre).
    destruct run as [|first reps]; [simpl in HL; lia|].
    destruct (string_dec (lastText st) T) as [E|E].
    + destruct (gem_repeat_run onChunk T (first :: reps) post st)
        as (t1 & ->); auto; [discriminate | lia |].
      unfold after; simpl; eauto.
    + apply Forall_cons_iff in HF as [[Hin (ext & Hext & Htxt)] HF].
      simpl app. rewrite (gem_loop_sample _ _ _ _ _ Hin Hext).
      destruct (gem_body_change onChunk ext st) as (evs & n & ->);
        [congruence | congruence |].
      destruct (gem_repeat_run onChunk T reps post
                  {| lastText := Gemini.answerText ext; stableCount := 0;
                     lastChunkedLength := n |}) as (t1 & ->);
        simpl; auto.
      * destruct reps; simpl in *; [lia | discriminate].
      * simpl in HL. lia.
      * unfold after; simpl; eauto.
Qed.

(** The rule at work: nine polls of queryPerplexity and eleven of
    queryGemini that read one text while the busy signal stays up. *)
Lemma forced_stable_rule_witness :
  (exists t' srcs,
      Perplexity.poll_loop true
        ([] ++ map (fun ms => Perplexity.sample ms "Paris" true)
                   (ticks 5000 9) ++ [])
        loop_start =
      (t', Finished (Returned {| Perplexity.answer := "Paris";
                                 Perplexity.result_sources := srcs |})))
  /\ (exists t',
         Gemini.poll_loop true
           ([] ++ map (fun ms => Gemini.sample ms "Paris is the capital." true false)
                      (ticks 800 11) ++ [])
           loop_start =
         (t', Finished (Returned {| Gemini.answer := "Paris is the capital." |}))).
Proof.
  split.
  - apply (proj1 (forced_stable_rule true "Paris") [] _ [] [] loop_start).
    + reflexivity.
    + discriminate.
    + repeat (apply Forall_cons;
              [split; [reflexivity | eexists; split; reflexivity]|]).
      apply Forall_nil.
    + simpl. lia.
  - apply (proj2 (forced_stable_rule true "Paris is the capital.")
             [] _ [] [] loop_start).
    + reflexivity.
    + reflexivity.
    + repeat (apply Forall_cons;
              [split; [reflexivity | eexists; split; reflexivity]|]).
      apply Forall_nil.
    + simpl. lia.
Defined.

(** C1 as the claim words it does not hold: a text that repeats on every
    poll, its length never decreasing, does not end the loop when the
    guard of the loop refuses it. The empty text read nine times by
    queryPerplexity, and "Yes." read eleven times by queryGemini, leave
    both loops running until the deadline, where they throw. *)
Lemma forced_stable_counterexample :
  let pplx := map (fun ms => Perplexity.sample ms "" false) (ticks 5000 9) in
  let gem := map (fun ms => Gemini.sample ms "Yes." false true) (ticks 800 11) in
  Forall (Perplexity.reads "") pplx
  /\ snd (Perplexity.poll_loop true pplx loop_start) = Running loop_start
  /\ snd (Perplexity.poll_loop true
            (pplx ++ [Perplexity.sample 120000 "" false]) loop_start)
     = Finished (Thrown "Timeout: no answer received from Perplexity")
  /\ Forall (Gemini.reads "Yes.") gem
  /\ snd (Gemini.poll_loop true gem loop_start) = Running loop_start
  /\ snd (Gemini.poll_loop true
            (gem ++ [Gemini.sample 120000 "Yes." false true]) loop_start)
     = Finished (Thrown "Timeout: no answer received from Gemini").
Proof.
  cbv zeta. repeat split; try reflexivity;
    repeat (apply Forall_cons;
            [split; [reflexivity | eexists; split; reflexivity]|]);
    apply Forall_nil.
Qed.

(** C2, as amended. Early-stable rule. In either engine, take a run that
    starts while the loop is still polling: a poll that reads a text [T]
    other than the retained one, then repeats of [T], all before the
    deadline, [T] passing the guard of the loop. The loop returns [T]
    exactly on the first repeat whose number has reached the low
    threshold and on which the busy signal is down, provided the forced
    rule has not fired before: it is still running after the repeats
    before that one, and it returns on that one. The low threshold is 3
    in queryPerplexity; in queryGemini it is read on each poll, 2 when
    the poll reports a model-response and 5 otherwise. So the loop
    returns on the repeat whose number is the low threshold when the
    busy signal is down on that repeat, and later when it is still up. *)
Theorem early_stable_rule :
  forall (onChunk : bool) (T : string),
    (forall pre first before hit later t st,
        Perplexity.poll_loop onChunk pre loop_start = (t, Running st) ->
        T <> "" -> lastText st <> T ->
        Forall (Perplexity.reads T) (first :: before ++ [hit]) ->
        3 <= S (List.length before) < 8 ->
        Perplexity.busy hit = false ->
        (forall i p, nth_error before i = Some p ->
                     3 <= S i -> Perplexity.busy p = true) ->
        (exists t1 n,
            Perplexity.poll_loop onChunk (pre ++ first :: before) loop_start =
            (t1, Running {| lastText := T;
                            stableCount := List.length before;
                            lastChunkedLength := n |}))
        /\ (exists t2,
               Perplexity.poll_loop onChunk
                 (pre ++ first :: before ++ hit :: later) loop_start =
               (t2, Finished
                      (Returned {| Perplexity.answer := T;
                                   Perplexity.result_sources :=
                                     Perplexity.cited hit |}))))
    /\ (forall pre first before hit later t st,
           Gemini.poll_loop onChunk pre loop_start = (t, Running st) ->
           Gemini.long_enough T = true -> lastText st <> T ->
           Forall (Gemini.reads T) (first :: before ++ [hit]) ->
           Gemini.doneThreshold hit <= S (List.length before) < 10 ->
           Gemini.busy hit = false ->
           (forall i p, nth_error before i = Some p ->
                        Gemini.doneThreshold p <= S i ->
                        Gemini.busy p = true) ->
           (exists t1 n,
               Gemini.poll_loop onChunk (pre ++ first :: before) loop_start =
               (t1, Running {| lastText := T;
                               stableCount := List.length before;
                               lastChunkedLength := n |}))
           /\ (exists t2,
                  Gemini.poll_loop onChunk
                    (pre ++ first :: before ++ hit :: later) loop_start =
                  (t2, Finished (Returned {| Gemini.answer := T |})))).
Proof.
  intros onChunk T; split;
    intros pre first before hit later t st Hpre HT Hnew HF [Hlo Hhi] Hhit Hb.
  - assert (HF' : Forall (Perplexity.reads T) (first :: before)
                  /\ Perplexity.reads T hit).
    { change (first :: before ++ [hit]) with ((first :: before) ++ [hit]) in HF.
      apply Forall_app in HF as [H1 H2]. split; [exact H1|].
      now apply Forall_cons_iff in H2 as [H2 _]. }
    destruct HF' as [HF1 HF2].
    destruct (pplx_new_text_waits onChunk T first before st)
      as (t1 & n & E); auto; [lia|].
    split.
    + rewrite (pplx_loop_running _ _ _ _ _ _ Hpre), E.
      unfold after; simpl; eauto.
    + rewrite (pplx_loop_running _ _ _ _ _ _ Hpre).
      change (first :: before ++ hit :: later)
        with ((first :: before) ++ hit :: later).
      rewrite (pplx_loop_running _ _ _ _ _ _ E).
      destruct (pplx_early_hit onChunk T hit later
                  {| lastText := T; stableCount := List.length before;
                     lastChunkedLength := n |}) as (t2 & ->); auto.
      unfold after; simpl; eauto.
  - assert (HF' : Forall (Gemini.reads T) (first :: before)
                  /\ Gemini.reads T hit).
    { change (first :: before ++ [hit]) with ((first :: before) ++ [hit]) in HF.
      apply Forall_app in HF as [H1 H2]. split; [exact H1|].
      now apply Forall_cons_iff in H2 as [H2 _]. }
    destruct HF' as [HF1 HF2].
    destruct (gem_new_text_waits onChunk T first before st)
      as (t1 & n & E); auto; [lia|].
    split.
    + rewrite (gem_loop_running _ _ _ _ _ _ Hpre), E.
      unfold after; simpl; eauto.
    + rewrite (gem_loop_running _ _ _ _ _ _ Hpre).
      change (first :: before ++ hit :: later)
        with ((first :: before) ++ hit :: later).
      rewrite (gem_loop_running _ _ _ _ _ _ E).
      destruct (gem_early_hit onChunk T hit later
                  {| lastText := T; stableCount := List.length before;
                     lastChunkedLength := n |}) as (t2 & ->); auto.
      unfold after; simpl; eauto.
Qed.

(** The rule at work. queryPerplexity: the busy signal is still up on
    the third repeat and down on the fourth, where the loop returns.
    queryGemini: the second repeat reports a model-response with the
    busy signal down, and the loop returns there. *)
Lemma early_stable_rule_witness :
  (exists t2,
      Perplexity.poll_loop true
        ([] ++ Perplexity.sample 5000 "Paris" true
            :: [Perplexity.sample 6000 "Paris" true;
                Perplexity.sample 7000 "Paris" true;
                Perplexity.sample 8000 "Paris" true]
            ++ Perplexity.sample 9000 "Paris" false :: [])
        loop_start =
      (t2, Finished (Returned {| Perplexity.answer := "Paris";
                                 Perplexity.result_sources := [] |})))
  /\ (exists t2,
         Gemini.poll_loop true
           ([] ++ Gemini.sample 800 "Paris is the capital." true false
               :: [Gemini.sample 1800 "Paris is the capital." false false]
               ++ Gemini.sample 2800 "Paris is the capital." false true :: [])
           loop_start =
         (t2, Finished (Returned {| Gemini.answer := "Paris is the capital." |}))).
Proof.
  split.
  - refine (proj2 (proj1 (early_stable_rule true "Paris") [] _ _ _ [] []
                     loop_start _ _ _ _ _ _ _)).
    + reflexivity.
    + discriminate.
    + discriminate.
    + repeat (apply Forall_cons;
              [split; [reflexivity | eexists; split; reflexivity]|]).
      apply Forall_nil.
    + simpl. lia.
    + reflexivity.
    + intros [|[|[|i]]] p H Hi; simpl in H;
        try (injection H as <-; reflexivity).
      destruct i; discriminate.
  - refine (proj2 (proj2 (early_stable_rule true "Paris is the capital.")
                     [] _ _ _ [] [] loop_start _ _ _ _ _ _ _)).
    + reflexivity.
    + reflexivity.
    + discriminate.
    + repeat (apply Forall_cons;
              [split; [reflexivity | eexists; split; reflexivity]|]).
      apply Forall_nil.
    + unfold Gemini.doneThreshold. simpl. lia.
    + reflexivity.
    + intros [|i] p H Hi; simpl in H.
      * injection H as <-. unfold Gemini.doneThreshold in Hi. simpl in Hi. lia.
      * destruct i; discriminate.
Defined.

(** C2 as the claim words it does not hold. In queryPerplexity a text
    that repeats four times in a row (at least 3, fewer than 8), with a
    busy signal that is up on the first three repeats and down on the
    fourth, ends the loop on the fourth repeat; after the third, the
    lowThreshold'th, the loop is still running. And with the busy signal
    down throughout, a text that the guard of the loop refuses (the
    empty text in queryPerplexity, "Yes." in queryGemini) repeats four
    times without ending the loop at all. *)
Lemma early_stable_counterexample :
  let polls := [Perplexity.sample 5000 "Paris" true;
                Perplexity.sample 6000 "Paris" true;
                Perplexity.sample 7000 "Paris" true;
                Perplexity.sample 8000 "Paris" true] in
  (snd (Perplexity.poll_loop true polls loop_start)
   = Running {| lastText := "Paris"; stableCount := 3;
                lastChunkedLength := 5 |}
   /\ snd (Perplexity.poll_loop true
             (polls ++ [Perplexity.sample 9000 "Paris" false]) loop_start)
      = Finished (Returned {| Perplexity.answer := "Paris";
                              Perplexity.result_sources := [] |}))
  /\ snd (Perplexity.poll_loop true
            (map (fun ms => Perplexity.sample ms "" false) (ticks 5000 5))
            loop_start)
     = Running loop_start
  /\ snd (Gemini.poll_loop true
            (map (fun ms => Gemini.sample ms "Yes." false true) (ticks 800 5))
            loop_start)
     = Running loop_start.
Proof. cbv zeta. repeat split. Qed.

(** C3, as amended. In either engine [lastChunkedLength] never
    decreases: over any stretch of the loop it advances by exactly the
    total length of the deltas emitted on that stretch, each delta being
    the text read from offset [lastChunkedLength] on, so that no offset
    is emitted twice and none is skipped. When a sink is supplied and
    every text the guard of the loop lets in extends the text let in
    before it, the concatenation of the deltas of an execution that
    returns an answer is that answer. (A text that is rewritten rather
    than extended is not covered: the deltas then follow the lengths,
    not the characters.) *)
Theorem streaming_gapless :
  forall (query : string),
    (forall onChunk polls st t st',
        Perplexity.poll_loop onChunk polls st = (t, Running st') ->
        lastChunkedLength st' =
        lastChunkedLength st + String.length (streamed t))
    /\ (forall w t r,
           Perplexity.extends "" (Perplexity.polls w) ->
           Perplexity.queryPerplexity query true w = (t, Finished (Returned r)) ->
           streamed t = Perplexity.answer r)
    /\ (forall onChunk polls st t st',
           Gemini.poll_loop onChunk polls st = (t, Running st') ->
           lastChunkedLength st' =
           lastChunkedLength st + String.length (streamed t))
    /\ (forall w t r,
           Gemini.extends "" (Gemini.polls w) ->
           Gemini.queryGemini query true w = (t, Finished (Returned r)) ->
           streamed t = Gemini.answer r).
Proof.
  intros query. split; [|split; [|split]].
  - intros onChunk polls st t st'. apply pplx_loop_offset.
  - intros w t r HE H. unfold Perplexity.queryPerplexity in H.
    destruct (Perplexity.createPage w); [|discriminate].
    destruct (pplx_try_block query true w) as (_ & Heq & Hret).
    rewrite Heq in H.
    destruct (snd (Perplexity.try_block query true w)) as [st|c] eqn:S;
      [discriminate|].
    injection H as <- ->.
    destruct (Hret r eq_refl) as (evs & tl & L & -> & Hevs).
    pose proof (pplx_stream _ loop_start _ _ eq_refl HE L) as P. simpl in P.
    change (EvGoto :: EvSubmit :: evs ++ tl)
      with ([EvGoto; EvSubmit] ++ evs ++ tl).
    rewrite !streamed_app, Hevs, P.
    change (streamed [EvGoto; EvSubmit]) with "".
    change (streamed [EvPageClose; EvContextClose]) with "".
    simpl. apply append_empty_r.
  - intros onChunk polls st t st'. apply gem_loop_offset.
  - intros w t r HE H. unfold Gemini.queryGemini in H.
    destruct (Gemini.createPage w); [|discriminate].
    destruct (gem_try_block query true w) as (_ & Heq & Hret).
    rewrite Heq in H.
    destruct (snd (Gemini.try_block query true w)) as [st|c] eqn:S;
      [discriminate|].
    injection H as <- ->.
    destruct (Hret r eq_refl) as (evs & tl & L & -> & Hevs).
    pose proof (gem_stream _ loop_start _ _ eq_refl HE L) as P. simpl in P.
    change (EvGoto :: EvSubmit :: evs ++ tl)
      with ([EvGoto; EvSubmit] ++ evs ++ tl).
    rewrite !streamed_app, Hevs, P.
    change (streamed [EvGoto; EvSubmit]) with "".
    change (streamed [EvPageClose]) with "".
    simpl. apply append_empty_r.
Qed.

(** The streaming theorem at work: a text that grows from "Par" to
    "Paris" in queryPerplexity and from a first sentence to two in
    queryGemini; the offset follows the deltas, and the deltas put end
    to end are the answer. *)
Lemma streaming_gapless_witness :
  let pp := [Perplexity.sample 5000 "Par" true;
             Perplexity.sample 6000 "Paris" true] in
  let gp := [Gemini.sample 800 "Paris is the" true false;
             Gemini.sample 1800 "Paris is the capital." true false] in
  let wp := Perplexity.world_of usable_page
              (pp ++ [Perplexity.sample 7000 "Paris" false;
                      Perplexity.sample 8000 "Paris" false;
                      Perplexity.sample 9000 "Paris" false]) in
  let wg := Gemini.world_of usable_page
              (gp ++ [Gemini.sample 2800 "Paris is the capital." false true;
                      Gemini.sample 3800 "Paris is the capital." false true]) in
  (5 = 0 + String.length
             (streamed (fst (Perplexity.poll_loop true pp loop_start)))
   /\ Perplexity.extends "" (Perplexity.polls wp)
   /\ streamed (fst (Perplexity.queryPerplexity "capital?" true wp)) = "Paris")
  /\ (21 = 0 + String.length
                (streamed (fst (Gemini.poll_loop true gp loop_start)))
      /\ Gemini.extends "" (Gemini.polls wg)
      /\ streamed (fst (Gemini.queryGemini "capital?" true wg))
         = "Paris is the capital.").
Proof.
  cbv zeta. split; split; [| split | | split].
  - apply (proj1 (streaming_gapless "capital?") true
             [Perplexity.sample 5000 "Par" true;
              Perplexity.sample 6000 "Paris" true]
             loop_start _
             {| lastText := "Paris"; stableCount := 0;
                lastChunkedLength := 5 |}).
    reflexivity.
  - simpl. repeat split.
  - match goal with
    | |- streamed (fst (Perplexity.queryPerplexity _ _ ?w)) = _ =>
        apply (proj1 (proj2 (streaming_gapless "capital?")) w
                 (fst (Perplexity.queryPerplexity "capital?" true w))
                 {| Perplexity.answer := "Paris";
                    Perplexity.result_sources := [] |})
    end.
    + simpl. repeat split.
    + reflexivity.
  - apply (proj1 (proj2 (proj2 (streaming_gapless "capital?"))) true
             [Gemini.sample 800 "Paris is the" true false;
              Gemini.sample 1800 "Paris is the capital." true false]
             loop_start _
             {| lastText := "Paris is the capital."; stableCount := 0;
                lastChunkedLength := 21 |}).
    reflexivity.
  - simpl. repeat split.
  - match goal with
    | |- streamed (fst (Gemini.queryGemini _ _ ?w)) = _ =>
        apply (proj2 (proj2 (proj2 (streaming_gapless "capital?"))) w
                 (fst (Gemini.queryGemini "capital?" true w))
                 {| Gemini.answer := "Paris is the capital." |})
    end.
    + simpl. repeat split.
    + reflexivity.
Defined.

(** C3 as the claim words it does not hold: when the page replaces the
    text instead of extending it, the deltas follow the lengths.
    queryPerplexity reads "Rome", then "Paris" until it is stable: it
    resolves with "Paris" after having streamed "Rome" and "s". *)
Lemma streaming_counterexample :
  let w := Perplexity.world_of usable_page
             [Perplexity.sample 5000 "Rome" true;
              Perplexity.sample 6000 "Paris" false;
              Perplexity.sample 7000 "Paris" false;
              Perplexity.sample 8000 "Paris" false;
              Perplexity.sample 9000 "Paris" false] in
  snd (Perplexity.queryPerplexity "capital?" true w)
  = Finished (Returned {| Perplexity.answer := "Paris";
                          Perplexity.result_sources := [] |})
  /\ chunks (fst (Perplexity.queryPerplexity "capital?" true w))
     = ["Rome"; "s"]
  /\ streamed (fst (Perplexity.queryPerplexity "capital?" true w)) <> "Paris".
Proof. cbv zeta. repeat split. discriminate. Qed.

(** C5, as amended. Neither loop catches what [extractAnswer] throws.
    When the execution is still polling after the polls [pre] and the
    next call of [extractAnswer], made before the deadline, throws [e],
    the loop is left at once: the [finally] releases the page (and, in
    queryPerplexity, the context) and the promise of the query is
    rejected with [e]; the polls that would have followed are never
    taken. *)
Theorem failed_sample_rejects :
  forall (query : string) (onChunk : bool) (e : string),
    (forall w pre p post t st,
        Perplexity.polls w = pre ++ p :: post ->
        Perplexity.queryPerplexity query onChunk (Perplexity.with_polls w pre)
        = (t, Running st) ->
        (Perplexity.elapsed p < Perplexity.MAX_TIMEOUT)%Z ->
        Perplexity.extraction p = Thrown e ->
        Perplexity.queryPerplexity query onChunk w
        = (t ++ [EvExtract; EvPageClose; EvContextClose], Finished (Thrown e)))
    /\ (forall w pre p post t st,
           Gemini.polls w = pre ++ p :: post ->
           Gemini.queryGemini query onChunk (Gemini.with_polls w pre)
           = (t, Running st) ->
           (Gemini.elapsed p < 120000)%Z ->
           Gemini.extraction p = Thrown e ->
           Gemini.queryGemini query onChunk w
           = (t ++ [EvExtract; EvPageClose], Finished (Thrown e))).
Proof.
  intros query onChunk e; split;
    intros w pre p post t st Hpolls Hrun Hin Hthrow.
  - unfold Perplexity.queryPerplexity, Perplexity.try_block in *.
    unfold Perplexity.with_polls in Hrun.
    cbn [Perplexity.createPage Perplexity.goto Perplexity.surface
         Perplexity.polls] in Hrun.
    destruct (Perplexity.createPage w); [|discriminate].
    destruct (Perplexity.goto w); [|discriminate].
    destruct (Perplexity.submitQuery (Perplexity.surface w) query)
      as [evs [[|]|e']]; try discriminate.
    destruct (Perplexity.poll_loop onChunk pre loop_start)
      as [tl [st1|c]] eqn:L; unfold after in Hrun; cbn [fst snd] in Hrun;
      [|discriminate].
    injection Hrun as <- <-.
    rewrite Hpolls, (pplx_loop_running _ _ _ _ _ _ L),
      (pplx_loop_throw _ _ _ _ _ Hin Hthrow).
    unfold after; cbn [fst snd]. f_equal.
    cbn [app]. now rewrite <- !app_assoc.
  - unfold Gemini.queryGemini, Gemini.try_block in *.
    unfold Gemini.with_polls in Hrun.
    cbn [Gemini.createPage Gemini.goto Gemini.dismiss Gemini.surface
         Gemini.debug_dump Gemini.polls] in Hrun.
    destruct (Gemini.createPage w); [|discriminate].
    destruct (Gemini.goto w); [|discriminate].
    destruct (Gemini.dismiss w); [|discriminate].
    destruct (Gemini.submitQuery (Gemini.surface w) query)
      as [evs [[|]|e']]; try discriminate.
    destruct (Gemini.poll_loop onChunk pre loop_start)
      as [tl [st1|c]] eqn:L; unfold after in Hrun; cbn [fst snd] in Hrun;
      [|discriminate].
    injection Hrun as <- <-.
    rewrite Hpolls, (gem_loop_running _ _ _ _ _ _ L),
      (gem_loop_throw _ _ _ _ _ Hin Hthrow).
    unfold after; cbn [fst snd]. f_equal.
    cbn [app]. now rewrite <- !app_assoc.
Qed.

(** The theorem at work: the second call of [extractAnswer] throws. *)
Lemma failed_sample_rejects_witness :
  let lost := "Execution context was destroyed" in
  Perplexity.queryPerplexity "capital?" true
    (Perplexity.world_of usable_page
       ([Perplexity.sample 5000 "Paris" true]
          ++ {| Perplexity.elapsed := 6000;
                Perplexity.extraction := Thrown lost |}
          :: [Perplexity.sample 7000 "Paris" false]))
  = ([EvGoto; EvSubmit; EvInsertText "capital?"; EvExtract; EvChunk "Paris"]
       ++ [EvExtract; EvPageClose; EvContextClose],
     Finished (Thrown lost))
  /\ Gemini.queryGemini "capital?" true
       (Gemini.world_of usable_page
          ([Gemini.sample 800 "Paris is the capital." true false]
             ++ {| Gemini.elapsed := 1800;
                   Gemini.extraction := Thrown lost |}
             :: [Gemini.sample 2800 "Paris is the capital." false true]))
     = ([EvGoto; EvSubmit; EvInsertText "capital?"; EvExtract;
         EvChunk "Paris is the capital."]
          ++ [EvExtract; EvPageClose],
        Finished (Thrown lost)).
Proof.
  cbv zeta. split.
  - eapply (proj1 (failed_sample_rejects "capital?" true _));
      reflexivity.
  - eapply (proj2 (failed_sample_rejects "capital?" true _));
      reflexivity.
Defined.

(** C5 as the claim words it does not hold: one failed call of
    [extractAnswer] ends the execution. The text had been read and was
    about to repeat; the promise is rejected with the exception and the
    third poll is never taken. *)
Lemma failed_sample_counterexample :
  Perplexity.queryPerplexity "capital?" true
    (Perplexity.world_of usable_page
       [Perplexity.sample 5000 "Paris" true;
        {| Perplexity.elapsed := 6000;
           Perplexity.extraction := Thrown "Execution context was destroyed" |};
        Perplexity.sample 7000 "Paris" false;
        Perplexity.sample 8000 "Paris" false;
        Perplexity.sample 9000 "Paris" false;
        Perplexity.sample 10000 "Paris" false])
  = ([EvGoto; EvSubmit; EvInsertText "capital?"; EvExtract; EvChunk "Paris";
      EvExtract; EvPageClose; EvContextClose],
     Finished (Thrown "Execution context was destroyed")).
Proof. reflexivity. Qed.

(** C6, as amended. In either engine the deadline of the loop is 120000
    ms ([MAX_TIMEOUT] in server.js, a literal in gemini-server.js, whose
    [MAX_TIMEOUT] is 300000) and is tested only when the loop condition
    is evaluated. When no rule has ended the loop on the polls [pre] and
    the next evaluation of the condition finds the deadline reached, no
    sample is taken any more and the loop ends in exactly one of two
    ways: if the guard of the loop (non-empty text in queryPerplexity,
    text longer than 10 in queryGemini) has let a text in, the last such
    text is returned as the answer, in queryPerplexity with an empty
    list of sources (the result of queryGemini has none); if it has let
    none in, the error "Timeout: no answer received from ..." is thrown.
    The loop does end: on readings at least one second apart its 121st
    evaluation of the condition, at the latest, is past the deadline. *)
Theorem deadline_outcomes :
  forall (onChunk : bool),
    (forall pre p post t st,
        Perplexity.poll_loop onChunk pre loop_start = (t, Running st) ->
        (Perplexity.MAX_TIMEOUT <= Perplexity.elapsed p)%Z ->
        Perplexity.poll_loop onChunk (pre ++ p :: post) loop_start =
        (t, Finished
              (if truthy (Perplexity.last_accepted "" pre)
               then Returned {| Perplexity.answer :=
                                  Perplexity.last_accepted "" pre;
                                Perplexity.result_sources := [] |}
               else Thrown "Timeout: no answer received from Perplexity")))
    /\ (forall pre p post t st,
           Gemini.poll_loop onChunk pre loop_start = (t, Running st) ->
           (120000 <= Gemini.elapsed p)%Z ->
           Gemini.poll_loop onChunk (pre ++ p :: post) loop_start =
           (t, Finished
                 (if truthy (Gemini.last_accepted "" pre)
                  then Returned {| Gemini.answer :=
                                     Gemini.last_accepted "" pre |}
                  else Thrown "Timeout: no answer received from Gemini")))
    /\ (forall polls,
           (forall i p, nth_error polls i = Some p ->
                        (1000 * Z.of_nat i <= Perplexity.elapsed p)%Z) ->
           120 < List.length polls ->
           exists t c,
             Perplexity.poll_loop onChunk polls loop_start = (t, Finished c))
    /\ (forall polls,
           (forall i p, nth_error polls i = Some p ->
                        (1000 * Z.of_nat i <= Gemini.elapsed p)%Z) ->
           120 < List.length polls ->
           exists t c,
             Gemini.poll_loop onChunk polls loop_start = (t, Finished c)).
Proof.
  intros onChunk. split; [|split; [|split]].
  - intros pre p post t st Hpre Hlate.
    rewrite (pplx_loop_running _ _ _ _ _ _ Hpre),
      (pplx_loop_late _ _ _ _ Hlate).
    unfold after, Perplexity.after_loop; cbn [fst snd].
    rewrite app_nil_r, (pplx_last_text _ _ _ _ _ Hpre). reflexivity.
  - intros pre p post t st Hpre Hlate.
    rewrite (gem_loop_running _ _ _ _ _ _ Hpre),
      (gem_loop_late _ _ _ _ Hlate).
    unfold after, Gemini.after_loop; cbn [fst snd].
    rewrite app_nil_r, (gem_last_text _ _ _ _ _ Hpre). reflexivity.
  - intros polls Hclock Hlen. apply pplx_loop_ends.
    destruct (nth_error polls 120) as [p|] eqn:E.
    + exists p. split; [eapply nth_error_In; eassumption|].
      specialize (Hclock _ _ E). unfold Perplexity.MAX_TIMEOUT. lia.
    + apply nth_error_None in E. lia.
  - intros polls Hclock Hlen. apply gem_loop_ends.
    destruct (nth_error polls 120) as [p|] eqn:E.
    + exists p. split; [eapply nth_error_In; eassumption|].
      specialize (Hclock _ _ E). lia.
    + apply nth_error_None in E. lia.
Qed.

(** The theorem at work: a text that keeps changing until the deadline
    is returned as it was last read, the reading at 120000 is not taken;
    and 121 readings one second apart end both loops. *)
Lemma deadline_outcomes_witness :
  (Perplexity.poll_loop true
     ([Perplexity.sample 118000 "Par" true;
       Perplexity.sample 119000 "Paris" true]
        ++ Perplexity.sample 120000 "Paris is" true :: [])
     loop_start
   = ([EvExtract; EvChunk "Par"; EvExtract; EvChunk "is"],
      Finished (Returned {| Perplexity.answer := "Paris";
                            Perplexity.result_sources := [] |}))
   /\ Gemini.poll_loop true
        ([Gemini.sample 118000 "Paris is the" true false;
          Gemini.sample 119000 "Paris is the capital." true false]
           ++ Gemini.sample 120000 "Paris is the capital. It" true false :: [])
        loop_start
      = ([EvExtract; EvChunk "Paris is the"; EvExtract; EvChunk " capital."],
         Finished (Returned {| Gemini.answer := "Paris is the capital." |})))
  /\ (exists t c,
         Perplexity.poll_loop true
           (map (fun ms => Perplexity.sample ms "" true) (ticks 5000 121))
           loop_start = (t, Finished c))
  /\ (exists t c,
         Gemini.poll_loop true
           (map (fun ms => Gemini.sample ms "" true false) (ticks 800 121))
           loop_start = (t, Finished c)).
Proof.
  split; [split|split].
  - refine (proj1 (deadline_outcomes true) _ _ _ _ _ _ _).
    + reflexivity.
    + unfold Perplexity.MAX_TIMEOUT. simpl. lia.
  - refine (proj1 (proj2 (deadline_outcomes true)) _ _ _ _ _ _ _).
    + reflexivity.
    + simpl. lia.
  - apply (proj1 (proj2 (proj2 (deadline_outcomes true)))).
    + intros i p H. rewrite nth_error_map in H.
      destruct (nth_error (ticks 5000 121) i) as [ms|] eqn:E;
        [|discriminate].
      injection H as <-. apply ticks_nth in E.
      cbn [Perplexity.elapsed Perplexity.sample Gemini.elapsed Gemini.sample].
      lia.
    + rewrite length_map, ticks_length. lia.
  - apply (proj2 (proj2 (proj2 (deadline_outcomes true)))).
    + intros i p H. rewrite nth_error_map in H.
      destruct (nth_error (ticks 800 121) i) as [ms|] eqn:E;
        [|discriminate].
      injection H as <-. apply ticks_nth in E.
      cbn [Perplexity.elapsed Perplexity.sample Gemini.elapsed Gemini.sample].
      lia.
    + rewrite length_map, ticks_length. lia.
Defined.

(** C6 as the claim words it does not hold: queryGemini reads the
    non-empty text "Yes." on every poll up to the deadline and still
    throws the no-answer error, because its loop only lets in texts
    longer than 10 characters. *)
Lemma deadline_counterexample :
  let polls := map (fun ms => Gemini.sample ms "Yes." true false)
                   (ticks 800 120) in
  Forall (Gemini.reads "Yes.") polls
  /\ Gemini.queryGemini "Is water wet?" true
       (Gemini.world_of usable_page
          (polls ++ [Gemini.sample 120800 "Yes." true false]))
     = ([EvGoto; EvSubmit; EvInsertText "Is water wet?"]
          ++ repeat EvExtract 120 ++ [EvPageClose],
        Finished (Thrown "Timeout: no answer received from Gemini")).
Proof.
  cbv zeta. split.
  - repeat (apply Forall_cons;
            [split; [reflexivity | eexists; split; reflexivity]|]).
    apply Forall_nil.
  - vm_compute. reflexivity.
Qed.

(** C10, as amended. A sample whose text the guard of the loop refuses
    (the empty text in queryPerplexity, a text of at most 10 characters
    in queryGemini) emits no delta and leaves [stableCount], [lastText]
    and [lastChunkedLength] as they were. In queryPerplexity such a
    sample is passed over: the loop goes on from the same variables. In
    queryGemini it is passed over unless it reports a model-response
    while a text is retained: then it ends the loop, which returns the
    retained text at once. When every sample up to the deadline is that
    short, nothing is ever retained and the loop throws "Timeout: no
    answer received from ..." at the deadline, whatever the busy signal
    and however often the text repeats; the query, once submitted, is
    rejected with that error after the cleanup. *)
Theorem short_sample_ignored :
  forall (query : string) (onChunk : bool),
    (forall ext st,
        Perplexity.answerText ext = "" ->
        Perplexity.loop_body onChunk ext st = ([], inl st))
    /\ (forall ext st,
           String.length (Gemini.answerText ext) <= 10 ->
           Gemini.loop_body onChunk ext st
           = if Gemini.modelResponseExists ext && truthy (lastText st)
             then ([], inr {| Gemini.answer := lastText st |})
             else ([], inl st))
    /\ (forall pre p post,
           Forall (Perplexity.reads "") pre ->
           (Perplexity.MAX_TIMEOUT <= Perplexity.elapsed p)%Z ->
           Perplexity.poll_loop onChunk (pre ++ p :: post) loop_start
           = (repeat EvExtract (List.length pre),
              Finished (Thrown "Timeout: no answer received from Perplexity")))
    /\ (forall pre p post,
           Forall (fun q => exists T, Gemini.reads T q
                                      /\ String.length T <= 10) pre ->
           (120000 <= Gemini.elapsed p)%Z ->
           Gemini.poll_loop onChunk (pre ++ p :: post) loop_start
           = (repeat EvExtract (List.length pre),
              Finished (Thrown "Timeout: no answer received from Gemini")))
    /\ (forall w evs pre p post,
           Perplexity.createPage w = Returned tt ->
           Perplexity.goto w = Returned tt ->
           Perplexity.submitQuery (Perplexity.surface w) query
           = (evs, Returned true) ->
           Perplexity.polls w = pre ++ p :: post ->
           Forall (Perplexity.reads "") pre ->
           (Perplexity.MAX_TIMEOUT <= Perplexity.elapsed p)%Z ->
           Perplexity.queryPerplexity query onChunk w
           = (EvGoto :: EvSubmit :: evs
                ++ repeat EvExtract (List.length pre)
                ++ [EvPageClose; EvContextClose],
              Finished (Thrown "Timeout: no answer received from Perplexity")))
    /\ (forall w evs pre p post,
           Gemini.createPage w = Returned tt ->
           Gemini.goto w = Returned tt ->
           Gemini.dismiss w = Returned tt ->
           Gemini.submitQuery (Gemini.surface w) query
           = (evs, Returned true) ->
           Gemini.polls w = pre ++ p :: post ->
           Forall (fun q => exists T, Gemini.reads T q
                                      /\ String.length T <= 10) pre ->
           (120000 <= Gemini.elapsed p)%Z ->
           Gemini.queryGemini query onChunk w
           = (EvGoto :: EvSubmit :: evs
                ++ repeat EvExtract (List.length pre) ++ [EvPageClose],
              Finished (Thrown "Timeout: no answer received from Gemini")))
    /\ (forall pre p post t st ext,
           Perplexity.poll_loop onChunk pre loop_start = (t, Running st) ->
           (Perplexity.elapsed p < Perplexity.MAX_TIMEOUT)%Z ->
           Perplexity.extraction p = Returned ext ->
           Perplexity.answerText ext = "" ->
           Perplexity.poll_loop onChunk (pre ++ p :: post) loop_start
           = after (t ++ [EvExtract]) (Perplexity.poll_loop onChunk post st))
    /\ (forall pre p post t st ext,
           Gemini.poll_loop onChunk pre loop_start = (t, Running st) ->
           (Gemini.elapsed p < 120000)%Z ->
           Gemini.extraction p = Returned ext ->
           String.length (Gemini.answerText ext) <= 10 ->
           Gemini.poll_loop onChunk (pre ++ p :: post) loop_start
           = if Gemini.modelResponseExists ext && truthy (lastText st)
             then (t ++ [EvExtract],
                   Finished (Returned {| Gemini.answer := lastText st |}))
             else after (t ++ [EvExtract])
                        (Gemini.poll_loop onChunk post st)).
Proof.
  intros query onChunk.
  assert (short : forall T, String.length T <= 10 ->
                            Gemini.long_enough T = false).
  { intros T H. unfold Gemini.long_enough.
    apply Nat.ltb_ge in H. rewrite H. apply andb_false_r. }
  assert (LP : forall pre p post,
             Forall (Perplexity.reads "") pre ->
             (Perplexity.MAX_TIMEOUT <= Perplexity.elapsed p)%Z ->
             Perplexity.poll_loop onChunk (pre ++ p :: post) loop_start
             = (repeat EvExtract (List.length pre),
                Finished
                  (Thrown "Timeout: no answer received from Perplexity"))).
  { intros pre p post HF Hlate.
    rewrite (pplx_loop_running _ _ _ _ _ _ (pplx_empty_run _ _ _ HF)),
      (pplx_loop_late _ _ _ _ Hlate).
    unfold after; cbn [fst snd]. now rewrite app_nil_r. }
  assert (LG : forall pre p post,
             Forall (fun q => exists T, Gemini.reads T q
                                        /\ String.length T <= 10) pre ->
             (120000 <= Gemini.elapsed p)%Z ->
             Gemini.poll_loop onChunk (pre ++ p :: post) loop_start
             = (repeat EvExtract (List.length pre),
                Finished (Thrown "Timeout: no answer received from Gemini"))).
  { intros pre p post HF Hlate.
    assert (HF' : Forall (fun q => exists T, Gemini.reads T q
                                   /\ Gemini.long_enough T = false) pre).
    { eapply Forall_impl; [|exact HF]. intros q (T & HT & HL). eauto. }
    rewrite (gem_loop_running _ _ _ _ _ _
               (gem_short_run _ _ loop_start eq_refl HF')),
      (gem_loop_late _ _ _ _ Hlate).
    unfold after; cbn [fst snd]. now rewrite app_nil_r. }
  split; [|split; [|split; [|split; [|split; [|split; [|split]]]]]].
  - intros ext st. apply pplx_body_empty.
  - intros ext st H. apply gem_body_short. auto.
  - exact LP.
  - exact LG.
  - intros w evs pre p post HC HG HS HP HF Hlate.
    rewrite (pplx_query_polling _ _ _ _ HC HG HS), HP,
      (LP _ _ _ HF Hlate).
    reflexivity.
  - intros w evs pre p post HC HG HD HS HP HF Hlate.
    rewrite (gem_query_polling _ _ _ _ HC HG HD HS), HP,
      (LG _ _ _ HF Hlate).
    reflexivity.
  - intros pre p post t st ext HR Hin Hext Htxt.
    rewrite (pplx_loop_running _ _ _ _ _ _ HR),
      (pplx_loop_sample _ _ _ _ _ Hin Hext),
      (pplx_body_empty _ _ _ Htxt), after_after.
    reflexivity.
  - intros pre p post t st ext HR Hin Hext Htxt.
    rewrite (gem_loop_running _ _ _ _ _ _ HR),
      (gem_loop_sample _ _ _ _ _ Hin Hext),
      (gem_body_short _ _ _ (short _ Htxt)).
    destruct (Gemini.modelResponseExists ext && truthy (lastText st)).
    + reflexivity.
    + now rewrite after_after.
Qed.

(** The theorem at work: a refused sample in each engine, with and
    without the report of a model-response; then the same short text on
    every poll, the busy signal down throughout, and the error at the
    deadline. *)
Lemma short_sample_ignored_witness :
  let kept := {| lastText := "Paris is the capital."; stableCount := 2;
                 lastChunkedLength := 21 |} in
  (Perplexity.loop_body true
     {| Perplexity.answerText := ""; Perplexity.sources := [];
        Perplexity.isLoading := false |}
     {| lastText := "Paris"; stableCount := 2; lastChunkedLength := 5 |}
   = ([], inl {| lastText := "Paris"; stableCount := 2;
                 lastChunkedLength := 5 |})
   /\ Perplexity.queryPerplexity "capital?" true
        (Perplexity.world_of usable_page
           (map (fun ms => Perplexity.sample ms "" false) (ticks 5000 4)
              ++ Perplexity.sample 120000 "" false :: []))
      = (EvGoto :: EvSubmit :: [EvInsertText "capital?"]
           ++ repeat EvExtract 4 ++ [EvPageClose; EvContextClose],
         Finished (Thrown "Timeout: no answer received from Perplexity")))
  /\ ((Gemini.loop_body true
         {| Gemini.answerText := "Yes."; Gemini.isLoading := false;
            Gemini.modelResponseExists := false |} kept
       = ([], inl kept)
       /\ Gemini.loop_body true
            {| Gemini.answerText := "Yes."; Gemini.isLoading := false;
               Gemini.modelResponseExists := true |} kept
          = ([], inr {| Gemini.answer := "Paris is the capital." |}))
      /\ Gemini.queryGemini "capital?" true
           (Gemini.world_of usable_page
              (map (fun ms => Gemini.sample ms "Yes." false true) (ticks 800 4)
                 ++ Gemini.sample 120000 "Yes." false true :: []))
         = (EvGoto :: EvSubmit :: [EvInsertText "capital?"]
              ++ repeat EvExtract 4 ++ [EvPageClose],
            Finished (Thrown "Timeout: no answer received from Gemini")))
  /\ (Gemini.poll_loop false
        ([Gemini.sample 800 "Paris is the capital." true false]
           ++ Gemini.sample 1800 "Yes." false true :: [])
        loop_start
      = ([EvExtract] ++ [EvExtract],
         Finished (Returned {| Gemini.answer := "Paris is the capital." |}))).
Proof.
  cbv zeta. split; [|split]; [split | split; [split|] | ].
  - apply (proj1 (short_sample_ignored "capital?" true)). reflexivity.
  - refine (proj1 (proj2 (proj2 (proj2 (proj2
              (short_sample_ignored "capital?" true)))))
              (Perplexity.world_of usable_page _)
              [EvInsertText "capital?"]
              (map (fun ms => Perplexity.sample ms "" false) (ticks 5000 4))
              (Perplexity.sample 120000 "" false) [] _ _ _ _ _ _).
    + reflexivity.
    + reflexivity.
    + reflexivity.
    + reflexivity.
    + repeat (apply Forall_cons;
              [split; [reflexivity | eexists; split; reflexivity]|]).
      apply Forall_nil.
    + unfold Perplexity.MAX_TIMEOUT. simpl. lia.
  - apply (proj1 (proj2 (short_sample_ignored "capital?" true))
             {| Gemini.answerText := "Yes."; Gemini.isLoading := false;
                Gemini.modelResponseExists := false |}).
    simpl. lia.
  - apply (proj1 (proj2 (short_sample_ignored "capital?" true))
             {| Gemini.answerText := "Yes."; Gemini.isLoading := false;
                Gemini.modelResponseExists := true |}).
    simpl. lia.
  - refine (proj1 (proj2 (proj2 (proj2 (proj2 (proj2
              (short_sample_ignored "capital?" true))))))
              (Gemini.world_of usable_page _)
              [EvInsertText "capital?"]
              (map (fun ms => Gemini.sample ms "Yes." false true)
                   (ticks 800 4))
              (Gemini.sample 120000 "Yes." false true) [] _ _ _ _ _ _ _).
    + reflexivity.
    + reflexivity.
    + reflexivity.
    + reflexivity.
    + reflexivity.
    + repeat (apply Forall_cons;
              [exists "Yes."; split;
               [split; [reflexivity | eexists; split; reflexivity]
               | simpl; lia]|]).
      apply Forall_nil.
    + simpl. lia.
  - refine (proj2 (proj2 (proj2 (proj2 (proj2 (proj2 (proj2
              (short_sample_ignored "capital?" false)))))))
              [Gemini.sample 800 "Paris is the capital." true false]
              (Gemini.sample 1800 "Yes." false true) []
              [EvExtract]
              {| lastText := "Paris is the capital."; stableCount := 0;
                 lastChunkedLength := 0 |}
              {| Gemini.answerText := "Yes."; Gemini.isLoading := false;
                 Gemini.modelResponseExists := true |}
              eq_refl _ eq_refl _).
    + simpl. lia.
    + simpl. lia.
Defined.

(** C10 as the claim words it does not hold in queryGemini: a sample of
    4 characters is not passed over when it reports a model-response and
    a text is retained. Without that sample the loop is still polling;
    with it the loop returns, and the query resolves with a text that
    was read once. *)
Lemma short_sample_counterexample :
  let kept := Gemini.sample 800 "Paris is the capital." true false in
  let short := Gemini.sample 1800 "Yes." false true in
  String.length "Yes." <= 10
  /\ Gemini.poll_loop false [kept] loop_start
     = ([EvExtract],
        Running {| lastText := "Paris is the capital."; stableCount := 0;
                   lastChunkedLength := 0 |})
  /\ Gemini.poll_loop false [kept; short] loop_start
     = ([EvExtract; EvExtract],
        Finished (Returned {| Gemini.answer := "Paris is the capital." |}))
  /\ Gemini.queryGemini "capital?" false
       (Gemini.world_of usable_page [kept; short])
     = ([EvGoto; EvSubmit; EvInsertText "capital?"; EvExtract; EvExtract;
         EvPageClose],
        Finished (Returned {| Gemini.answer := "Paris is the capital." |})).
Proof.
  cbv zeta. split; [simpl; lia|]. split; [reflexivity|].
  split; reflexivity.
Qed.

(** ** The echo guard *)

Lemma prefix_empty (s : string) : String.prefix "" s = true.
Proof. now destruct s. Qed.

Lemma prefix_slice_to (n : nat) (p s : string) :
  String.prefix p s = true -> String.prefix (slice_to n p) s = true.
Proof.
  revert p s; induction n as [|n IH]; intros p s H;
    [apply prefix_empty|].
  destruct p as [|c p]; [apply prefix_empty|].
  destruct s as [|d s]; simpl in *; [discriminate|].
  destruct (Ascii.ascii_dec c d); [auto | discriminate].
Qed.

Lemma prefix_append_slice_to (a b : string) (n : nat) (s : string) :
  String.prefix (a ++ b) s = true ->
  String.prefix (a ++ slice_to n b) s = true.
Proof.
  revert s; induction a as [|c a IH]; intros s H.
  - now apply prefix_slice_to.
  - destruct s as [|d s]; simpl in *; [discriminate|].
    destruct (Ascii.ascii_dec c d); [auto | discriminate].
Qed.

Lemma words_starts_inked (s : string) :
  starts_inked s = true -> exists w ws, words s = w :: ws /\ w <> "".
Proof.
  destruct s as [|c s]; [discriminate|]. cbn [starts_inked words].
  intros H. apply negb_true_iff in H. rewrite H.
  destruct (starts_inked s); [destruct (words s)|];
    eexists _, _; (split; [reflexivity | discriminate]).
Qed.

Lemma join_cons_char (sep : string) (c : ascii) (w : string) (ws : list string) :
  String c (join sep (w :: ws)) = join sep (String c w :: ws).
Proof. destruct ws; reflexivity. Qed.

Lemma join_inked_head (sep w : string) (ws : list string) :
  w <> "" -> join sep (w :: ws) <> "".
Proof.
  intros H. destruct ws; simpl; [exact H|].
  destruct w; [congruence | discriminate].
Qed.

Lemma trim_end_collapse (s : string) :
  trim_end (collapse_spaces s)
  = ((if negb (starts_inked s)
         && match words s with [] => false | _ => true end
      then " " else "") ++ join " " (words s))%string.
Proof.
  induction s as [|c s IH]; [reflexivity|].
  cbn [collapse_spaces words starts_inked].
  destruct (is_space c) eqn:C; cbn [negb andb].
  - destruct s as [|d s].
    + cbn [trim_end]. change (is_space " ") with true. reflexivity.
    + cbn [starts_inked] in IH.
      destruct (is_space d) eqn:D; cbn [negb andb] in IH.
      * exact IH.
      * cbn [trim_end]. rewrite IH. cbn [append].
        destruct (words_starts_inked (String d s)) as (w & ws & E & N).
        { cbn [starts_inked]. now rewrite D. }
        rewrite E. pose proof (join_inked_head " " w ws N) as J.
        destruct (join " " (w :: ws)); [congruence|reflexivity].
  - cbn [trim_end]. rewrite IH.
    destruct s as [|d s]; [now rewrite C|].
    cbn [starts_inked]. destruct (is_space d) eqn:D; cbn [negb andb].
    + destruct (words (String d s)) as [|w ws]; cbn [append].
      * now rewrite C.
      * reflexivity.
    + cbn [append].
      destruct (words_starts_inked (String d s)) as (w & ws & E & N).
      { cbn [starts_inked]. now rewrite D. }
      rewrite E. pose proof (join_inked_head " " w ws N) as J.
      rewrite <- join_cons_char.
      destruct (join " " (w :: ws)); [congruence|reflexivity].
Qed.

Lemma skip_collapse (s : string) :
  skip_spaces (collapse_spaces s) = collapse_spaces (skip_spaces s).
Proof.
  induction s as [|c s IH]; [reflexivity|].
  cbn [collapse_spaces skip_spaces].
  destruct (is_space c) eqn:C.
  - destruct s as [|d s]; [cbn [skip_spaces]; now change (is_space " ") with true|].
    destruct (is_space d) eqn:D; [exact IH|].
    cbn [skip_spaces]. change (is_space " ") with true. exact IH.
  - cbn [skip_spaces collapse_spaces]. now rewrite C.
Qed.

Lemma words_skip_spaces (s : string) : words (skip_spaces s) = words s.
Proof.
  induction s as [|c s IH]; [reflexivity|].
  cbn [skip_spaces]. destruct (is_space c) eqn:C.
  - rewrite IH. cbn [words]. now rewrite C.
  - reflexivity.
Qed.

Lemma skip_spaces_front (s : string) :
  skip_spaces s = "" \/ starts_inked (skip_spaces s) = true.
Proof.
  induction s as [|c s IH]; [now left|].
  cbn [skip_spaces]. destruct (is_space c) eqn:C; [exact IH|].
  right. cbn [starts_inked]. now rewrite C.
Qed.

(** [s.replace(/\s+/g, ' ').trim()] is the words of [s] with one space
    between them. *)
Lemma trim_collapse_words (s : string) :
  trim (collapse_spaces s) = join " " (words s).
Proof.
  unfold trim. rewrite skip_collapse, trim_end_collapse, words_skip_spaces.
  destruct (skip_spaces_front s) as [E|E].
  - rewrite E. cbn [starts_inked negb andb].
    rewrite <- (words_skip_spaces s), E. reflexivity.
  - now rewrite E.
Qed.

Lemma toLowerCase_append (a b : string) :
  toLowerCase (a ++ b) = (toLowerCase a ++ toLowerCase b)%string.
Proof.
  induction a as [|c a IH]; [reflexivity|].
  cbn [append toLowerCase]. now rewrite IH.
Qed.

Lemma toLowerCase_join (ws : list string) :
  toLowerCase (join " " ws) = join " " (map toLowerCase ws).
Proof.
  induction ws as [|w ws IH]; [reflexivity|].
  destruct ws as [|x ws]; [reflexivity|].
  change (join " " (w :: x :: ws)) with (w ++ " " ++ join " " (x :: ws))%string.
  rewrite !toLowerCase_append, IH. reflexivity.
Qed.

(** The normal form computed by the echo guard is the one the
    specification describes. *)
Lemma norm_spec_normalize (s : string) : Gemini.norm s = spec_normalize s.
Proof.
  unfold Gemini.norm, spec_normalize.
  now rewrite trim_collapse_words, toLowerCase_join.
Qed.

(** C4, as amended. The echo guard is part of the Gemini adapter only
    (the [extractAnswer] of server.js is not given the query). For every
    non-empty query [Q] and every text [A] kept by the strategies of the
    Gemini [extractAnswer]: when [A], normalised as the specification
    says (its words in lower case, one space between them), is equal to
    [Q] so normalised, starts with it or with its first 120 characters,
    or starts with "you said " followed by it, [extractAnswer] returns
    the empty text, whatever the letter case and the white space of [A]
    and of [Q]. In particular it returns the empty text for the query
    "What is X?" when it reads "You said What is X?". *)
Theorem echo_guard_discards :
  forall (Q A : string) (d : Gemini.Dom),
    Q <> "" ->
    Gemini.strategies d = A ->
    spec_normalize A = spec_normalize Q
    \/ String.prefix (spec_normalize Q) (spec_normalize A) = true
    \/ String.prefix (slice_to 120 (spec_normalize Q)) (spec_normalize A) = true
    \/ String.prefix ("you said " ++ spec_normalize Q) (spec_normalize A) = true ->
    Gemini.echo_guard Q A = ""
    /\ Gemini.answerText (Gemini.extractAnswer d Q) = ""
    /\ Gemini.echo_guard "What is X?" "You said What is X?" = "".
Proof.
  intros Q A d HQ HA H. apply truthy_true in HQ.
  assert (G : Gemini.echo_guard Q A = "").
  { unfold Gemini.echo_guard. rewrite HQ.
    destruct (truthy A) eqn:TA; [|now apply truthy_false in TA].
    cbn [andb]. cbv zeta. rewrite !norm_spec_normalize.
    destruct H as [H|[H|[H|H]]].
    - apply String.eqb_eq in H. now rewrite H.
    - unfold startsWith.
      rewrite (prefix_slice_to 120 _ _ H). now rewrite orb_true_r.
    - unfold startsWith. rewrite H. now rewrite orb_true_r.
    - unfold startsWith.
      rewrite (prefix_append_slice_to "you said " _ 100 _ H).
      now rewrite !orb_true_r. }
  split; [exact G|]. split; [|reflexivity].
  unfold Gemini.extractAnswer. cbn [Gemini.answerText]. now rewrite HA.
Qed.

(** The guard at work on a page whose only text is the echoed query, in
    another letter case and with other white space. *)
Lemma echo_guard_discards_witness :
  let tab := String "009"%char EmptyString in
  let A := ("  YOU   said" ++ tab ++ "what IS x? ")%string in
  let d := {| Gemini.modelResponse := false;
              Gemini.model_markdown := None;
              Gemini.model_last := None;
              Gemini.content_texts := [A];
              Gemini.panel_texts := [];
              Gemini.markdown_texts := [];
              Gemini.model_raw := None;
              Gemini.pendingResponse := true;
              Gemini.prevLen := 0 |} in
  (spec_normalize A = "you said what is x?"
   /\ spec_normalize " What  is X?" = "what is x?")
  /\ (Gemini.echo_guard " What  is X?" A = ""
      /\ Gemini.answerText (Gemini.extractAnswer d " What  is X?") = ""
      /\ Gemini.echo_guard "What is X?" "You said What is X?" = "").
Proof.
  cbv zeta. split; [split; reflexivity|].
  apply (echo_guard_discards " What  is X?").
  - discriminate.
  - reflexivity.
  - right; right; right. reflexivity.
Defined.

(** C4 as the claim words it does not hold for every adapter: the
    [extractAnswer] of the Perplexity server takes the page alone and
    returns the text it reads, the echoed "You said What is X?"
    included. *)
Lemma echo_guard_counterexample :
  Perplexity.answerText
    (Perplexity.extractAnswer
       {| Perplexity.prose := ["You said What is X?"];
          Perplexity.fallback := [];
          Perplexity.citations := [];
          Perplexity.spinner := false;
          Perplexity.prevLen := 0 |})
  = "You said What is X?".
Proof. reflexivity. Qed.

(** ** The claims on the queue, the submission and the cleanup *)

(** What settles, and that everything does. *)
Module QueueMore.
Import Queue.

(** The jobs started are the jobs settled, in that order, followed by
    the job executing. *)
Lemma accounted_fold acts : forall s jobs,
  consistent s jobs ->
  started s = map fst (settled s) ++ executing s ->
  started (fold_left step acts s)
  = map fst (settled (fold_left step acts s))
    ++ executing (fold_left step acts s).
Proof.
  induction acts as [|a acts IH]; intros s jobs C H; simpl; [exact H|].
  destruct a as [job|job ok]; simpl.
  - apply (IH _ _ (QueueFacts.consistent_enqueue _ _ job C)).
    destruct C as (Hb & Hi & Hj).
    unfold enqueue, processQueue; simpl.
    destruct (processing s) eqn:P; simpl; [exact H|].
    destruct (Hi eq_refl) as [He Hq]. rewrite Hq; simpl.
    rewrite H, He, app_nil_r. reflexivity.
  - apply (IH _ _ (QueueFacts.consistent_settle _ _ job ok C)).
    destruct C as (Hb & Hi & Hj).
    unfold settle.
    destruct (existsb (Nat.eqb job) (executing s)) eqn:E; [|exact H].
    destruct (processing s) eqn:P.
    2:{ destruct (Hi eq_refl) as [He _]. rewrite He in E. discriminate. }
    destruct (Hb eq_refl) as [j Hx]. rewrite Hx in *. simpl in E.
    rewrite orb_false_r in E. apply Nat.eqb_eq in E. subst j.
    simpl. rewrite Nat.eqb_refl.
    destruct (requestQueue s) as [|next rest] eqn:Q; simpl.
    + rewrite H, map_app, app_nil_r. reflexivity.
    + unfold processQueue; simpl.
      rewrite H, map_app. simpl. rewrite <- !app_assoc. reflexivity.
Qed.

(** One settlement of the executing job. *)
Lemma settle_next_step s jobs ok job :
  consistent s jobs ->
  executing s = [job] ->
  let s' := settle_next s ok in
  consistent s' jobs
  /\ settled s' = settled s ++ [(job, ok)]
  /\ List.length (executing s') + List.length (requestQueue s')
     = List.length (requestQueue s).
Proof.
  intros C He. cbv zeta. unfold settle_next. rewrite He.
  split; [now apply QueueFacts.consistent_settle|].
  unfold settle. rewrite He. simpl. rewrite Nat.eqb_refl. simpl.
  destruct (requestQueue s) as [|next rest]; simpl; [split; reflexivity|].
  unfold processQueue; simpl. split; reflexivity.
Qed.

Lemma drain oks : forall s jobs,
  consistent s jobs ->
  started s = map fst (settled s) ++ executing s ->
  List.length oks
  = List.length (executing s) + List.length (requestQueue s) ->
  let s' := fold_left settle_next oks s in
  consistent s' jobs
  /\ executing s' = [] /\ requestQueue s' = []
  /\ map fst (settled s') = started s'
  /\ map snd (settled s') = map snd (settled s) ++ oks.
Proof.
  induction oks as [|ok oks IH]; intros s jobs C A L; simpl.
  - simpl in L.
    destruct (executing s) eqn:E; [|simpl in L; lia].
    destruct (requestQueue s); [|simpl in L; lia].
    rewrite !app_nil_r in *. auto.
  - pose proof C as (Hb & Hi & Hj).
    destruct (processing s) eqn:P.
    + destruct (Hb eq_refl) as [job He].
      destruct (settle_next_step s jobs ok job C He) as (C' & S' & L').
      pose proof (accounted_fold [Settle job ok] s jobs C A) as A'.
      simpl in A'.
      assert (N : settle_next s ok = settle job ok s)
        by (unfold settle_next; now rewrite He).
      rewrite <- N in A'.
      rewrite He in L. simpl in L.
      assert (L2 : List.length oks
                   = List.length (executing (settle_next s ok))
                     + List.length (requestQueue (settle_next s ok))) by lia.
      destruct (IH _ _ C' A' L2) as (I1 & I2 & I3 & I4 & I5).
      split; [exact I1|]. split; [exact I2|]. split; [exact I3|].
      split; [exact I4|].
      rewrite I5, S', map_app, <- app_assoc. reflexivity.
    + destruct (Hi eq_refl) as [He Hq]. rewrite He, Hq in L. discriminate.
Qed.

End QueueMore.

(** C7. Whatever jobs are enqueued and however their tasks settle, at
    most one task is executing at any moment, the tasks are started in
    the order in which the jobs were enqueued (the jobs started followed
    by the jobs waiting are the jobs enqueued), no job waits while
    nothing is executing, and the settlement of the executing task, by a
    value or by an exception alike, starts the task of the next job in
    the queue. When no job waits, that settlement, by a value or by an
    exception alike, leaves nothing executing and the flag lowered, so
    that the task of a job enqueued afterwards is started at once. And
    whatever the outcomes of the tasks, once the executing task and, each
    in its turn, the tasks of the jobs waiting have settled, every job
    that was enqueued has been started, in the order of the enqueuing,
    and nothing executes or waits. *)
Theorem queue_serializes :
  forall (acts : list Queue.Action),
    List.length (Queue.executing (Queue.run acts)) <= 1
    /\ Queue.started (Queue.run acts) ++ Queue.requestQueue (Queue.run acts)
       = Queue.enqueued acts
    /\ (Queue.executing (Queue.run acts) = [] ->
        Queue.requestQueue (Queue.run acts) = [])
    /\ (forall job ok next rest,
           Queue.executing (Queue.run acts) = [job] ->
           Queue.requestQueue (Queue.run acts) = next :: rest ->
           Queue.executing (Queue.settle job ok (Queue.run acts)) = [next]
           /\ Queue.started (Queue.settle job ok (Queue.run acts))
              = Queue.started (Queue.run acts) ++ [next]
           /\ Queue.requestQueue (Queue.settle job ok (Queue.run acts))
              = rest)
    /\ (forall job ok,
           Queue.executing (Queue.run acts) = [job] ->
           Queue.requestQueue (Queue.run acts) = [] ->
           Queue.executing (Queue.settle job ok (Queue.run acts)) = []
           /\ Queue.processing (Queue.settle job ok (Queue.run acts)) = false
           /\ forall later,
                Queue.executing
                  (Queue.enqueue later (Queue.settle job ok (Queue.run acts)))
                = [later]
                /\ Queue.started
                     (Queue.enqueue later
                        (Queue.settle job ok (Queue.run acts)))
                   = Queue.started (Queue.run acts) ++ [later])
    /\ (forall job ok,
           Queue.executing (Queue.run acts) = [job] ->
           Queue.settled (Queue.settle job ok (Queue.run acts))
           = Queue.settled (Queue.run acts) ++ [(job, ok)])
    /\ (forall oks,
           List.length oks
           = List.length (Queue.executing (Queue.run acts))
             + List.length (Queue.requestQueue (Queue.run acts)) ->
           Queue.executing (fold_left settle_next oks (Queue.run acts)) = []
           /\ Queue.requestQueue (fold_left settle_next oks (Queue.run acts))
              = []
           /\ Queue.started (fold_left settle_next oks (Queue.run acts))
              = Queue.enqueued acts).
Proof.
  intros acts.
  pose proof (QueueFacts.consistent_run acts) as C.
  destruct C as (Hb & Hi & Hj).
  split; [|split; [|split; [|split; [|split; [|split]]]]].
  - destruct (Queue.processing (Queue.run acts)).
    + destruct (Hb eq_refl) as [j ->]. simpl. lia.
    + destruct (Hi eq_refl) as [-> _]. simpl. lia.
  - exact Hj.
  - intros He. destruct (Queue.processing (Queue.run acts)).
    + destruct (Hb eq_refl) as [j Hx]. congruence.
    + now destruct (Hi eq_refl).
  - intros job ok next rest He Hq. unfold Queue.settle.
    rewrite He, Hq. simpl. rewrite !Nat.eqb_refl. simpl.
    unfold Queue.processQueue. simpl. auto.
  - intros job ok He Hq. unfold Queue.settle.
    rewrite He, Hq. simpl. rewrite !Nat.eqb_refl. simpl.
    split; [reflexivity|]. split; [reflexivity|].
    intros later. unfold Queue.enqueue, Queue.processQueue. simpl.
    split; reflexivity.
  - intros job ok He. unfold Queue.settle.
    rewrite He. simpl. rewrite !Nat.eqb_refl. simpl.
    destruct (Queue.requestQueue (Queue.run acts)); simpl; [reflexivity|].
    unfold Queue.processQueue. simpl. reflexivity.
  - intros oks L.
    pose proof (QueueMore.accounted_fold acts Queue.initial []
                  QueueFacts.consistent_initial eq_refl) as A.
    fold (Queue.run acts) in A.
    destruct (QueueMore.drain oks _ _ (QueueFacts.consistent_run acts) A L)
      as ((_ & _ & Hj') & E & Q & _).
    split; [exact E|]. split; [exact Q|].
    rewrite Q, app_nil_r in Hj'. exact Hj'.
Qed.

(** The theorem at work: three jobs enqueued at once, the first of which
    fails; the second starts on that failure. A job that fails while
    nothing waits leaves the queue idle, and the job enqueued after it
    starts at once. Once the three have settled nothing waits. *)
Lemma queue_serializes_witness :
  let acts := [Queue.Enqueue 1; Queue.Enqueue 2; Queue.Enqueue 3] in
  let all := acts ++ [Queue.Settle 1 false; Queue.Settle 2 true;
                      Queue.Settle 3 true] in
  (Queue.executing (Queue.run acts) = [1]
   /\ Queue.requestQueue (Queue.run acts) = [2; 3]
   /\ (Queue.executing (Queue.settle 1 false (Queue.run acts)) = [2]
       /\ Queue.started (Queue.settle 1 false (Queue.run acts))
          = Queue.started (Queue.run acts) ++ [2]
       /\ Queue.requestQueue (Queue.settle 1 false (Queue.run acts)) = [3]))
  /\ (Queue.executing (Queue.run all) = []
      /\ Queue.requestQueue (Queue.run all) = [])
  /\ (Queue.executing (Queue.run [Queue.Enqueue 1]) = [1]
      /\ Queue.requestQueue (Queue.run [Queue.Enqueue 1]) = []
      /\ Queue.executing
           (Queue.run [Queue.Enqueue 1; Queue.Settle 1 false;
                       Queue.Enqueue 2]) = [2])
  /\ (List.length [false; true; false]
      = List.length (Queue.executing (Queue.run acts))
        + List.length (Queue.requestQueue (Queue.run acts))
      /\ Queue.started
           (fold_left settle_next [false; true; false] (Queue.run acts))
         = [1; 2; 3]).
Proof.
  cbv zeta. split; [|split; [|split]].
  - split; [reflexivity|]. split; [reflexivity|].
    apply (proj1 (proj2 (proj2 (proj2
             (queue_serializes
                [Queue.Enqueue 1; Queue.Enqueue 2; Queue.Enqueue 3]))))
             1 false 2 [3]); reflexivity.
  - split; [reflexivity|].
    apply (proj1 (proj2 (proj2
             (queue_serializes
                ([Queue.Enqueue 1; Queue.Enqueue 2; Queue.Enqueue 3]
                   ++ [Queue.Settle 1 false; Queue.Settle 2 true;
                       Queue.Settle 3 true]))))).
    reflexivity.
  - split; [reflexivity|]. split; [reflexivity|].
    apply (proj2 (proj2
             (proj1 (proj2 (proj2 (proj2 (proj2
                (queue_serializes [Queue.Enqueue 1])))))
                1 false eq_refl eq_refl)) 2).
  - split; [reflexivity|].
    apply (proj2 (proj2
             (proj2 (proj2 (proj2 (proj2 (proj2 (proj2
                (queue_serializes
                   [Queue.Enqueue 1; Queue.Enqueue 2; Queue.Enqueue 3]))))))
                [false; true; false] eq_refl))).
Defined.






(** * Further properties of the servers *)

(** ** More on the polling loops *)

(** The loop of queryGemini only retains texts that pass its guard. *)
Lemma gem_body_retains onChunk ext st evs st' :
  lastText st = "" \/ Gemini.long_enough (lastText st) = true ->
  Gemini.loop_body onChunk ext st = (evs, inl st') ->
  lastText st' = "" \/ Gemini.long_enough (lastText st') = true.
Proof.
  intros H B. rewrite (gem_body_last_text _ _ _ _ _ B).
  destruct (Gemini.long_enough (Gemini.answerText ext)) eqn:E; auto.
Qed.

Lemma gem_body_answer onChunk ext st evs r :
  lastText st = "" \/ Gemini.long_enough (lastText st) = true ->
  Gemini.loop_body onChunk ext st = (evs, inr r) ->
  Gemini.long_enough (Gemini.answer r) = true.
Proof.
  intros H. unfold Gemini.loop_body.
  destruct (truthy (Gemini.answerText ext)
            && (10 <? String.length (Gemini.answerText ext))) eqn:G.
  - destruct (String.eqb _ _); [destruct (_ || _)|]; intros [= _ <-];
      exact G.
  - destruct (Gemini.modelResponseExists ext && truthy (lastText st)) eqn:F;
      [|discriminate].
    intros [= _ <-]. simpl.
    apply andb_true_iff in F as [_ F].
    destruct H as [H|H]; [|exact H].
    rewrite H in F. discriminate.
Qed.

Lemma gem_loop_answer onChunk polls : forall st t r,
  lastText st = "" \/ Gemini.long_enough (lastText st) = true ->
  Gemini.poll_loop onChunk polls st = (t, Finished (Returned r)) ->
  Gemini.long_enough (Gemini.answer r) = true.
Proof.
  induction polls as [|p polls IH]; intros st t r H L; simpl in L;
    [discriminate|].
  destruct (Gemini.elapsed p <? 120000)%Z.
  - destruct (Gemini.extraction p) as [ext|e]; [|discriminate].
    destruct (Gemini.loop_body onChunk ext st) as [evs [st1|r1]] eqn:B.
    + unfold after in L.
      destruct (Gemini.poll_loop onChunk polls st1) as [t1 o1] eqn:L1.
      simpl in L. injection L as _ ->.
      exact (IH _ _ _ (gem_body_retains _ _ _ _ _ H B) L1).
    + injection L as _ <-. exact (gem_body_answer _ _ _ _ _ H B).
  - unfold Gemini.after_loop in L.
    destruct (truthy (lastText st)) eqn:T; [|discriminate].
    injection L as _ <-. simpl.
    destruct H as [H|H]; [rewrite H in T; discriminate | exact H].
Qed.

Lemma pplx_loop_answer onChunk polls : forall st t r,
  Perplexity.poll_loop onChunk polls st = (t, Finished (Returned r)) ->
  Perplexity.answer r <> "".
Proof.
  induction polls as [|p polls IH]; intros st t r L; simpl in L;
    [discriminate|].
  destruct (Perplexity.elapsed p <? Perplexity.MAX_TIMEOUT)%Z.
  - destruct (Perplexity.extraction p) as [ext|e]; [|discriminate].
    destruct (Perplexity.loop_body onChunk ext st) as [evs [st1|r1]] eqn:B.
    + unfold after in L.
      destruct (Perplexity.poll_loop onChunk polls st1) as [t1 o1] eqn:L1.
      simpl in L. injection L as _ ->. exact (IH _ _ _ L1).
    + injection L as _ <-. unfold Perplexity.loop_body in B.
      destruct (truthy (Perplexity.answerText ext)) eqn:T; [|discriminate].
      destruct (String.eqb _ _); [destruct (_ || _)|]; try discriminate.
      injection B as _ <-. simpl. now apply truthy_true.
  - unfold Perplexity.after_loop in L.
    destruct (truthy (lastText st)) eqn:T; [|discriminate].
    injection L as _ <-. simpl. now apply truthy_true.
Qed.

(** A query that resolves is made of its submission, a loop that
    returns, and the cleanup. *)
Lemma pplx_query_resolved q oc w t r :
  Perplexity.queryPerplexity q oc w = (t, Finished (Returned r)) ->
  exists evs tl,
    Perplexity.poll_loop oc (Perplexity.polls w) loop_start
    = (tl, Finished (Returned r))
    /\ t = (EvGoto :: EvSubmit :: evs ++ tl) ++ [EvPageClose; EvContextClose]
    /\ streamed evs = "".
Proof.
  intros H. unfold Perplexity.queryPerplexity in H.
  destruct (Perplexity.createPage w); [|discriminate].
  destruct (pplx_try_block q oc w) as (_ & Heq & Hret).
  rewrite Heq in H.
  destruct (snd (Perplexity.try_block q oc w)) as [st|c]; [discriminate|].
  injection H as <- ->.
  destruct (Hret r eq_refl) as (evs & tl & L & -> & S). eauto.
Qed.

Lemma gem_query_resolved q oc w t r :
  Gemini.queryGemini q oc w = (t, Finished (Returned r)) ->
  exists evs tl,
    Gemini.poll_loop oc (Gemini.polls w) loop_start
    = (tl, Finished (Returned r))
    /\ t = (EvGoto :: EvSubmit :: evs ++ tl) ++ [EvPageClose]
    /\ streamed evs = "".
Proof.
  intros H. unfold Gemini.queryGemini in H.
  destruct (Gemini.createPage w); [|discriminate].
  destruct (gem_try_block q oc w) as (_ & Heq & Hret).
  rewrite Heq in H.
  destruct (snd (Gemini.try_block q oc w)) as [st|c]; [discriminate|].
  injection H as <- ->.
  destruct (Hret r eq_refl) as (evs & tl & L & -> & S). eauto.
Qed.

Lemma pplx_query_answer q oc w t r :
  Perplexity.queryPerplexity q oc w = (t, Finished (Returned r)) ->
  Perplexity.answer r <> "".
Proof.
  intros H. destruct (pplx_query_resolved _ _ _ _ _ H) as (evs & tl & L & _).
  exact (pplx_loop_answer _ _ _ _ _ L).
Qed.

Lemma gem_query_answer q oc w t r :
  Gemini.queryGemini q oc w = (t, Finished (Returned r)) ->
  10 < String.length (Gemini.answer r).
Proof.
  intros H. destruct (gem_query_resolved _ _ _ _ _ H) as (evs & tl & L & _).
  pose proof (gem_loop_answer _ _ loop_start _ _ (or_introl eq_refl) L) as G.
  unfold Gemini.long_enough in G.
  apply andb_true_iff in G as [_ G]. now apply Nat.ltb_lt in G.
Qed.

(** X1. A query that resolves never resolves with an empty answer:
    the answer of queryPerplexity is not empty and the answer of
    queryGemini is longer than 10 code units, on every way to a result
    (stable text, text retained at the deadline, and the fallback of
    queryGemini on a model-response without text). *)
Theorem resolved_answer_not_empty :
  forall (query : string) (onChunk : bool),
    (forall w t r,
        Perplexity.queryPerplexity query onChunk w = (t, Finished (Returned r)) ->
        Perplexity.answer r <> "")
    /\ (forall w t r,
           Gemini.queryGemini query onChunk w = (t, Finished (Returned r)) ->
           10 < String.length (Gemini.answer r)).
Proof.
  intros query onChunk; split; intros w t r H.
  - exact (pplx_query_answer _ _ _ _ _ H).
  - exact (gem_query_answer _ _ _ _ _ H).
Qed.

(** The theorem at work on a text retained at the deadline and on the
    fallback of queryGemini. *)
Lemma resolved_answer_not_empty_witness :
  let wp := Perplexity.world_of usable_page
              [Perplexity.sample 5000 "Paris" true;
               Perplexity.sample 120000 "" true] in
  let wg := Gemini.world_of usable_page
              [Gemini.sample 800 "Paris is the capital." true false;
               Gemini.sample 1800 "" false true] in
  (snd (Perplexity.queryPerplexity "capital?" false wp)
   = Finished (Returned {| Perplexity.answer := "Paris";
                           Perplexity.result_sources := [] |})
   /\ "Paris" <> "")
  /\ (snd (Gemini.queryGemini "capital?" false wg)
      = Finished (Returned {| Gemini.answer := "Paris is the capital." |})
      /\ 10 < String.length "Paris is the capital.").
Proof.
  cbv zeta. split; (split; [reflexivity|]).
  - apply (proj1 (resolved_answer_not_empty "capital?" false)
             (Perplexity.world_of usable_page
                [Perplexity.sample 5000 "Paris" true;
                 Perplexity.sample 120000 "" true])
             [EvGoto; EvSubmit; EvInsertText "capital?"; EvExtract;
              EvPageClose; EvContextClose]
             {| Perplexity.answer := "Paris";
                Perplexity.result_sources := [] |}).
    reflexivity.
  - apply (proj2 (resolved_answer_not_empty "capital?" false)
             (Gemini.world_of usable_page
                [Gemini.sample 800 "Paris is the capital." true false;
                 Gemini.sample 1800 "" false true])
             [EvGoto; EvSubmit; EvInsertText "capital?"; EvExtract;
              EvExtract; EvPageClose]
             {| Gemini.answer := "Paris is the capital." |}).
    reflexivity.
Defined.

(** With and without a sink, one pass of the loop body does the same to
    [lastText] and [stableCount], and emits deltas only. *)
Lemma pplx_body_sink ext st st' :
  lastText st = lastText st' -> stableCount st = stableCount st' ->
  match Perplexity.loop_body true ext st, Perplexity.loop_body false ext st' with
  | (evs, inl a), (evs', inl b) =>
      lastText a = lastText b /\ stableCount a = stableCount b
      /\ evs' = [] /\ filter not_chunk evs = []
  | (evs, inr r), (evs', inr r') =>
      r = r' /\ evs' = [] /\ filter not_chunk evs = []
  | _, _ => False
  end.
Proof.
  intros H1 H2. unfold Perplexity.loop_body. rewrite <- H1, <- H2.
  destruct (truthy (Perplexity.answerText ext)); [|auto].
  cbn [andb].
  destruct (lastChunkedLength st <? _);
    destruct (String.eqb _ _); try destruct (_ || _); simpl; auto.
Qed.

Lemma gem_body_sink ext st st' :
  lastText st = lastText st' -> stableCount st = stableCount st' ->
  match Gemini.loop_body true ext st, Gemini.loop_body false ext st' with
  | (evs, inl a), (evs', inl b) =>
      lastText a = lastText b /\ stableCount a = stableCount b
      /\ evs' = [] /\ filter not_chunk evs = []
  | (evs, inr r), (evs', inr r') =>
      r = r' /\ evs' = [] /\ filter not_chunk evs = []
  | _, _ => False
  end.
Proof.
  intros H1 H2. unfold Gemini.loop_body. rewrite <- H1, <- H2.
  destruct (truthy (Gemini.answerText ext) && _).
  - cbn [andb].
    destruct (lastChunkedLength st <? _);
      destruct (String.eqb _ _); try destruct (_ || _); simpl; auto.
  - destruct (_ && _); auto.
Qed.

Lemma pplx_loop_sink polls : forall st st',
  lastText st = lastText st' -> stableCount st = stableCount st' ->
  same_outcome (snd (Perplexity.poll_loop true polls st))
               (snd (Perplexity.poll_loop false polls st'))
  /\ filter not_chunk (fst (Perplexity.poll_loop true polls st))
     = fst (Perplexity.poll_loop false polls st').
Proof.
  induction polls as [|p polls IH]; intros st st' H1 H2; simpl.
  - auto.
  - destruct (Perplexity.elapsed p <? Perplexity.MAX_TIMEOUT)%Z.
    + destruct (Perplexity.extraction p) as [ext|e]; [|simpl; auto].
      pose proof (pplx_body_sink ext st st' H1 H2) as B.
      destruct (Perplexity.loop_body true ext st) as [evs [a|r]];
        destruct (Perplexity.loop_body false ext st') as [evs' [b|r']];
        try contradiction.
      * destruct B as (B1 & B2 & -> & B3).
        destruct (IH a b B1 B2) as [I1 I2].
        unfold after; simpl. split; [exact I1|].
        rewrite filter_app, B3. simpl. now rewrite I2.
      * destruct B as (-> & -> & B3). simpl. split; [reflexivity|].
        now rewrite B3.
    + simpl. unfold Perplexity.after_loop. rewrite H1. auto.
Qed.

Lemma gem_loop_sink polls : forall st st',
  lastText st = lastText st' -> stableCount st = stableCount st' ->
  same_outcome (snd (Gemini.poll_loop true polls st))
               (snd (Gemini.poll_loop false polls st'))
  /\ filter not_chunk (fst (Gemini.poll_loop true polls st))
     = fst (Gemini.poll_loop false polls st').
Proof.
  induction polls as [|p polls IH]; intros st st' H1 H2; simpl.
  - auto.
  - destruct (Gemini.elapsed p <? 120000)%Z.
    + destruct (Gemini.extraction p) as [ext|e]; [|simpl; auto].
      pose proof (gem_body_sink ext st st' H1 H2) as B.
      destruct (Gemini.loop_body true ext st) as [evs [a|r]];
        destruct (Gemini.loop_body false ext st') as [evs' [b|r']];
        try contradiction.
      * destruct B as (B1 & B2 & -> & B3).
        destruct (IH a b B1 B2) as [I1 I2].
        unfold after; simpl. split; [exact I1|].
        rewrite filter_app, B3. simpl. now rewrite I2.
      * destruct B as (-> & -> & B3). simpl. split; [reflexivity|].
        now rewrite B3.
    + simpl. unfold Gemini.after_loop. rewrite H1. auto.
Qed.


Lemma filter_not_chunk_chunks t : chunks (filter not_chunk t) = [].
Proof.
  induction t as [|e t IH]; [reflexivity|]. destruct e; simpl; auto.
Qed.

(** What submitQuery records is no delta. *)
Lemma pplx_submit_plain s q :
  filter not_chunk (fst (Perplexity.submitQuery s q))
  = fst (Perplexity.submitQuery s q).
Proof.
  unfold Perplexity.submitQuery.
  destruct (scrollTo s); cbn [fst]; [|reflexivity].
  destruct (scan_selectors_events Perplexity.isVisible q s
                                  Perplexity.selectors) as [-> | ->];
    reflexivity.
Qed.

Lemma gem_submit_plain s q :
  filter not_chunk (fst (Gemini.submitQuery s q))
  = fst (Gemini.submitQuery s q).
Proof.
  unfold Gemini.submitQuery.
  destruct (scrollTo s); cbn [fst]; [|reflexivity].
  destruct (scan_selectors_events Gemini.isVisible q s
                                  Gemini.selectors) as [-> | ->];
    reflexivity.
Qed.

Lemma pplx_try_sink q w :
  same_outcome (snd (Perplexity.try_block q true w))
               (snd (Perplexity.try_block q false w))
  /\ filter not_chunk (fst (Perplexity.try_block q true w))
     = fst (Perplexity.try_block q false w).
Proof.
  unfold Perplexity.try_block.
  destruct (Perplexity.goto w); [|simpl; auto].
  pose proof (pplx_submit_plain (Perplexity.surface w) q) as S.
  destruct (Perplexity.submitQuery (Perplexity.surface w) q)
    as [evs [[|]|e]]; cbn [fst] in S.
  - destruct (pplx_loop_sink (Perplexity.polls w) loop_start loop_start
                eq_refl eq_refl) as [I1 I2].
    unfold after.
    destruct (Perplexity.poll_loop true (Perplexity.polls w) loop_start)
      as [t1 o1];
      destruct (Perplexity.poll_loop false (Perplexity.polls w) loop_start)
        as [t2 o2]; cbn [fst snd] in *.
    split; [exact I1|]. simpl. now rewrite filter_app, S, I2.
  - simpl. now rewrite S.
  - simpl. now rewrite S.
Qed.

Lemma gem_try_sink q w :
  same_outcome (snd (Gemini.try_block q true w))
               (snd (Gemini.try_block q false w))
  /\ filter not_chunk (fst (Gemini.try_block q true w))
     = fst (Gemini.try_block q false w).
Proof.
  unfold Gemini.try_block.
  destruct (Gemini.goto w); [|simpl; auto].
  destruct (Gemini.dismiss w); [|simpl; auto].
  pose proof (gem_submit_plain (Gemini.surface w) q) as S.
  destruct (Gemini.submitQuery (Gemini.surface w) q)
    as [evs [[|]|e]]; cbn [fst] in S.
  - destruct (gem_loop_sink (Gemini.polls w) loop_start loop_start
                eq_refl eq_refl) as [I1 I2].
    unfold after.
    destruct (Gemini.poll_loop true (Gemini.polls w) loop_start)
      as [t1 o1];
      destruct (Gemini.poll_loop false (Gemini.polls w) loop_start)
        as [t2 o2]; cbn [fst snd] in *.
    split; [exact I1|]. simpl. now rewrite filter_app, S, I2.
  - simpl. now rewrite S.
  - simpl. now rewrite S.
Qed.

Lemma pplx_query_sink q w :
  same_outcome (snd (Perplexity.queryPerplexity q true w))
               (snd (Perplexity.queryPerplexity q false w))
  /\ filter not_chunk (fst (Perplexity.queryPerplexity q true w))
     = fst (Perplexity.queryPerplexity q false w).
Proof.
  unfold Perplexity.queryPerplexity.
  destruct (Perplexity.createPage w); [|simpl; auto].
  destruct (pplx_try_sink q w) as [T1 T2].
  destruct (Perplexity.try_block q true w) as [t1 [s1|c1]];
    destruct (Perplexity.try_block q false w) as [t2 [s2|c2]];
    cbn [fst snd] in *; try contradiction.
  - auto.
  - split; [exact T1|]. now rewrite filter_app, T2.
Qed.

Lemma gem_query_sink q w :
  same_outcome (snd (Gemini.queryGemini q true w))
               (snd (Gemini.queryGemini q false w))
  /\ filter not_chunk (fst (Gemini.queryGemini q true w))
     = fst (Gemini.queryGemini q false w).
Proof.
  unfold Gemini.queryGemini.
  destruct (Gemini.createPage w); [|simpl; auto].
  destruct (gem_try_sink q w) as [T1 T2].
  destruct (Gemini.try_block q true w) as [t1 [s1|c1]];
    destruct (Gemini.try_block q false w) as [t2 [s2|c2]];
    cbn [fst snd] in *; try contradiction.
  - auto.
  - split; [exact T1|]. now rewrite filter_app, T2.
Qed.

(** X2. Streaming changes nothing but the deltas: run on the same
    behaviour of the browser with and without [onChunk], a query ends
    the same way (the same answer and sources, or the same exception) or
    is still polling with the same [lastText] and [stableCount], and
    makes the same calls in the same order; without [onChunk] no delta is
    emitted at all. *)
Theorem sink_changes_nothing :
  forall (query : string),
    (forall w,
        same_outcome (snd (Perplexity.queryPerplexity query true w))
                     (snd (Perplexity.queryPerplexity query false w))
        /\ filter not_chunk (fst (Perplexity.queryPerplexity query true w))
           = fst (Perplexity.queryPerplexity query false w)
        /\ chunks (fst (Perplexity.queryPerplexity query false w)) = [])
    /\ (forall w,
           same_outcome (snd (Gemini.queryGemini query true w))
                        (snd (Gemini.queryGemini query false w))
           /\ filter not_chunk (fst (Gemini.queryGemini query true w))
              = fst (Gemini.queryGemini query false w)
           /\ chunks (fst (Gemini.queryGemini query false w)) = []).
Proof.
  intros query; split; intros w.
  - destruct (pplx_query_sink query w) as [P1 P2].
    split; [exact P1|]. split; [exact P2|].
    rewrite <- P2. apply filter_not_chunk_chunks.
  - destruct (gem_query_sink query w) as [P1 P2].
    split; [exact P1|]. split; [exact P2|].
    rewrite <- P2. apply filter_not_chunk_chunks.
Qed.

(** ** The deltas of a query *)

Lemma plain_no_chunk t :
  filter not_chunk t = t -> chunks t = [] /\ count is_chunk t = 0.
Proof.
  intros H. rewrite <- H. split; [apply filter_not_chunk_chunks|].
  clear H. unfold count.
  induction t as [|e t IH]; [reflexivity|]. destruct e; simpl; auto.
Qed.

Lemma slice_from_inked n s :
  n < String.length s -> slice_from n s <> "".
Proof.
  intros H E. pose proof (length_slice_from n s) as L.
  rewrite E in L. simpl in L. lia.
Qed.

(** One pass of the body emits nothing or one delta that is not empty. *)
Lemma pplx_body_delta oc ext st :
  fst (Perplexity.loop_body oc ext st) = []
  \/ exists d, fst (Perplexity.loop_body oc ext st) = [EvChunk d] /\ d <> "".
Proof.
  unfold Perplexity.loop_body.
  destruct (truthy _); [|now left].
  destruct oc; cbn [andb].
  - destruct (Nat.ltb_spec (lastChunkedLength st)
                (String.length (Perplexity.answerText ext))) as [G|G];
      destruct (String.eqb _ _); try destruct (_ || _); cbn [fst];
      try (now left);
      right; eexists; (split; [reflexivity|]); now apply slice_from_inked.
  - destruct (String.eqb _ _); try destruct (_ || _); now left.
Qed.

Lemma gem_body_delta oc ext st :
  fst (Gemini.loop_body oc ext st) = []
  \/ exists d, fst (Gemini.loop_body oc ext st) = [EvChunk d] /\ d <> "".
Proof.
  unfold Gemini.loop_body.
  destruct (truthy _ && _); [|destruct (_ && _); now left].
  destruct oc; cbn [andb].
  - destruct (Nat.ltb_spec (lastChunkedLength st)
                (String.length (Gemini.answerText ext))) as [G|G];
      destruct (String.eqb _ _); try destruct (_ || _); cbn [fst];
      try (now left);
      right; eexists; (split; [reflexivity|]); now apply slice_from_inked.
  - destruct (String.eqb _ _); try destruct (_ || _); now left.
Qed.

Lemma pplx_loop_deltas oc polls : forall st,
  Forall (fun d => d <> "") (chunks (fst (Perplexity.poll_loop oc polls st)))
  /\ count is_chunk (fst (Perplexity.poll_loop oc polls st))
     <= count is_extract (fst (Perplexity.poll_loop oc polls st)).
Proof.
  induction polls as [|p polls IH]; intros st; simpl.
  - split; [constructor | apply Nat.le_refl].
  - destruct (Perplexity.elapsed p <? Perplexity.MAX_TIMEOUT)%Z;
      [|simpl; split; [constructor | apply Nat.le_refl]].
    destruct (Perplexity.extraction p) as [ext|e];
      [|simpl; split; [constructor | unfold count; simpl; lia]].
    pose proof (pplx_body_delta oc ext st) as B.
    destruct (Perplexity.loop_body oc ext st) as [evs [a|r]]; cbn [fst] in *.
    + destruct (IH a) as [I1 I2]. unfold after; cbn [fst].
      change (EvExtract :: evs ++ fst (Perplexity.poll_loop oc polls a))
        with ([EvExtract] ++ evs ++ fst (Perplexity.poll_loop oc polls a)).
      rewrite !chunks_app, !count_app.
      destruct B as [-> | (d & -> & Hd)].
      * split; [exact I1|]. count_small. simpl. lia.
      * split; [constructor; assumption|].
        count_small. simpl. lia.
    + destruct B as [-> | (d & -> & Hd)]; unfold count; simpl.
      * split; [constructor | lia].
      * split; [repeat constructor; assumption | lia].
Qed.

Lemma gem_loop_deltas oc polls : forall st,
  Forall (fun d => d <> "") (chunks (fst (Gemini.poll_loop oc polls st)))
  /\ count is_chunk (fst (Gemini.poll_loop oc polls st))
     <= count is_extract (fst (Gemini.poll_loop oc polls st)).
Proof.
  induction polls as [|p polls IH]; intros st; simpl.
  - split; [constructor | apply Nat.le_refl].
  - destruct (Gemini.elapsed p <? 120000)%Z;
      [|simpl; split; [constructor | apply Nat.le_refl]].
    destruct (Gemini.extraction p) as [ext|e];
      [|simpl; split; [constructor | unfold count; simpl; lia]].
    pose proof (gem_body_delta oc ext st) as B.
    destruct (Gemini.loop_body oc ext st) as [evs [a|r]]; cbn [fst] in *.
    + destruct (IH a) as [I1 I2]. unfold after; cbn [fst].
      change (EvExtract :: evs ++ fst (Gemini.poll_loop oc polls a))
        with ([EvExtract] ++ evs ++ fst (Gemini.poll_loop oc polls a)).
      rewrite !chunks_app, !count_app.
      destruct B as [-> | (d & -> & Hd)].
      * split; [exact I1|]. count_small. simpl. lia.
      * split; [constructor; assumption|].
        count_small. simpl. lia.
    + destruct B as [-> | (d & -> & Hd)]; unfold count; simpl.
      * split; [constructor | lia].
      * split; [repeat constructor; assumption | lia].
Qed.

Lemma pplx_try_deltas q oc w :
  Forall (fun d => d <> "") (chunks (fst (Perplexity.try_block q oc w)))
  /\ count is_chunk (fst (Perplexity.try_block q oc w))
     <= count is_extract (fst (Perplexity.try_block q oc w)).
Proof.
  unfold Perplexity.try_block.
  destruct (Perplexity.goto w);
    [|simpl; split; [constructor | unfold count; simpl; lia]].
  destruct (plain_no_chunk _ (pplx_submit_plain (Perplexity.surface w) q))
    as [S1 S2].
  destruct (Perplexity.submitQuery (Perplexity.surface w) q)
    as [evs [[|]|e]]; cbn [fst] in *.
  - destruct (pplx_loop_deltas oc (Perplexity.polls w) loop_start) as [I1 I2].
    unfold after; cbn [fst].
    change (EvGoto :: EvSubmit :: evs) with ([EvGoto; EvSubmit] ++ evs).
    rewrite !chunks_app, !count_app, S1, S2. simpl.
    split; [exact I1|]. count_small. simpl. lia.
  - change (EvGoto :: EvSubmit :: evs) with ([EvGoto; EvSubmit] ++ evs).
    rewrite !chunks_app, !count_app, S1, S2.
    split; [constructor | count_small; simpl; lia].
  - change (EvGoto :: EvSubmit :: evs) with ([EvGoto; EvSubmit] ++ evs).
    rewrite !chunks_app, !count_app, S1, S2.
    split; [constructor | count_small; simpl; lia].
Qed.

Lemma gem_try_deltas q oc w :
  Forall (fun d => d <> "") (chunks (fst (Gemini.try_block q oc w)))
  /\ count is_chunk (fst (Gemini.try_block q oc w))
     <= count is_extract (fst (Gemini.try_block q oc w)).
Proof.
  unfold Gemini.try_block.
  destruct (Gemini.goto w);
    [|simpl; split; [constructor | unfold count; simpl; lia]].
  destruct (Gemini.dismiss w);
    [|simpl; split; [constructor | unfold count; simpl; lia]].
  destruct (plain_no_chunk _ (gem_submit_plain (Gemini.surface w) q))
    as [S1 S2].
  destruct (Gemini.submitQuery (Gemini.surface w) q)
    as [evs [[|]|e]]; cbn [fst] in *.
  - destruct (gem_loop_deltas oc (Gemini.polls w) loop_start) as [I1 I2].
    unfold after; cbn [fst].
    change (EvGoto :: EvSubmit :: evs) with ([EvGoto; EvSubmit] ++ evs).
    rewrite !chunks_app, !count_app, S1, S2. simpl.
    split; [exact I1|]. count_small. simpl. lia.
  - change (EvGoto :: EvSubmit :: evs) with ([EvGoto; EvSubmit] ++ evs).
    rewrite !chunks_app, !count_app, S1, S2.
    split; [constructor | count_small; simpl; lia].
  - change (EvGoto :: EvSubmit :: evs) with ([EvGoto; EvSubmit] ++ evs).
    rewrite !chunks_app, !count_app, S1, S2.
    split; [constructor | count_small; simpl; lia].
Qed.

(** X3. No call of [onChunk] carries an empty delta, and a query calls
    [onChunk] at most once per call of extractAnswer: in queryPerplexity
    and in queryGemini, whatever the browser does and however the query
    ends. *)
Theorem deltas_not_empty :
  forall (query : string) (onChunk : bool),
    (forall w,
        Forall (fun d => d <> "")
               (chunks (fst (Perplexity.queryPerplexity query onChunk w)))
        /\ count is_chunk (fst (Perplexity.queryPerplexity query onChunk w))
           <= count is_extract
                (fst (Perplexity.queryPerplexity query onChunk w)))
    /\ (forall w,
           Forall (fun d => d <> "")
                  (chunks (fst (Gemini.queryGemini query onChunk w)))
           /\ count is_chunk (fst (Gemini.queryGemini query onChunk w))
              <= count is_extract (fst (Gemini.queryGemini query onChunk w))).
Proof.
  intros query onChunk; split; intros w.
  - unfold Perplexity.queryPerplexity.
    destruct (Perplexity.createPage w);
      [|simpl; split; [constructor | apply Nat.le_refl]].
    destruct (pplx_try_deltas query onChunk w) as [T1 T2].
    destruct (Perplexity.try_block query onChunk w) as [t [s|c]];
      cbn [fst] in *; [now split|].
    rewrite chunks_app, !count_app. simpl chunks. rewrite app_nil_r.
    split; [exact T1|]. count_small. simpl. lia.
  - unfold Gemini.queryGemini.
    destruct (Gemini.createPage w);
      [|simpl; split; [constructor | apply Nat.le_refl]].
    destruct (gem_try_deltas query onChunk w) as [T1 T2].
    destruct (Gemini.try_block query onChunk w) as [t [s|c]];
      cbn [fst] in *; [now split|].
    rewrite chunks_app, !count_app. simpl chunks. rewrite app_nil_r.
    split; [exact T1|]. count_small. simpl. lia.
Qed.

(** With a sink, the offset of the stream after one pass is the longer
    of the offset before and the text let in. *)
Lemma pplx_body_longest ext st evs st' :
  Perplexity.loop_body true ext st = (evs, inl st') ->
  lastChunkedLength st' =
  if truthy (Perplexity.answerText ext)
  then Nat.max (lastChunkedLength st)
               (String.length (Perplexity.answerText ext))
  else lastChunkedLength st.
Proof.
  unfold Perplexity.loop_body.
  destruct (truthy _); [|now intros [= _ <-]].
  cbn [andb].
  destruct (Nat.ltb_spec (lastChunkedLength st)
              (String.length (Perplexity.answerText ext))) as [G|G];
    (destruct (String.eqb _ _);
     [destruct (_ || _); [discriminate|]|]); intros [= _ <-]; simpl; lia.
Qed.

Lemma gem_body_longest ext st evs st' :
  Gemini.loop_body true ext st = (evs, inl st') ->
  lastChunkedLength st' =
  if Gemini.long_enough (Gemini.answerText ext)
  then Nat.max (lastChunkedLength st)
               (String.length (Gemini.answerText ext))
  else lastChunkedLength st.
Proof.
  unfold Gemini.loop_body, Gemini.long_enough.
  destruct (truthy _ && _).
  - cbn [andb].
    destruct (Nat.ltb_spec (lastChunkedLength st)
                (String.length (Gemini.answerText ext))) as [G|G];
      (destruct (String.eqb _ _);
       [destruct (_ || _); [discriminate|]|]); intros [= _ <-]; simpl; lia.
  - destruct (_ && _); [discriminate|]. now intros [= _ <-].
Qed.

Lemma pplx_loop_longest polls : forall st t st',
  Perplexity.poll_loop true polls st = (t, Running st') ->
  lastChunkedLength st' = longest_of pplx_accepted (lastChunkedLength st) polls.
Proof.
  induction polls as [|p polls IH]; intros st t st' H; simpl in H.
  - now injection H as _ <-.
  - destruct (Perplexity.elapsed p <? Perplexity.MAX_TIMEOUT)%Z;
      [|discriminate].
    unfold longest_of; simpl. unfold pplx_accepted at 2.
    destruct (Perplexity.extraction p) as [ext|e]; [|discriminate].
    destruct (Perplexity.loop_body true ext st) as [evs [a|r]] eqn:B;
      [|discriminate].
    unfold after in H; simpl in H.
    destruct (Perplexity.poll_loop true polls a) as [t1 o1] eqn:L.
    simpl in H. injection H as _ ->.
    rewrite (IH _ _ _ L), (pplx_body_longest _ _ _ _ B).
    unfold longest_of. now destruct (truthy _).
Qed.

Lemma gem_loop_longest polls : forall st t st',
  Gemini.poll_loop true polls st = (t, Running st') ->
  lastChunkedLength st' = longest_of gem_accepted (lastChunkedLength st) polls.
Proof.
  induction polls as [|p polls IH]; intros st t st' H; simpl in H.
  - now injection H as _ <-.
  - destruct (Gemini.elapsed p <? 120000)%Z; [|discriminate].
    unfold longest_of; simpl. unfold gem_accepted at 2.
    destruct (Gemini.extraction p) as [ext|e]; [|discriminate].
    destruct (Gemini.loop_body true ext st) as [evs [a|r]] eqn:B;
      [|discriminate].
    unfold after in H; simpl in H.
    destruct (Gemini.poll_loop true polls a) as [t1 o1] eqn:L.
    simpl in H. injection H as _ ->.
    rewrite (IH _ _ _ L), (gem_body_longest _ _ _ _ B).
    unfold longest_of. now destruct (Gemini.long_enough _).
Qed.

(** X4. While a streaming query is polling, the number of code units it
    has sent to [onChunk] is the length of the longest text the loop has
    let in so far (in queryGemini, of the longest text of more than 10
    code units): a text that is not longer than an earlier one sends
    nothing, whatever it says. *)
Theorem streamed_length_is_longest :
  (forall polls t st,
      Perplexity.poll_loop true polls loop_start = (t, Running st) ->
      String.length (streamed t) = longest_of pplx_accepted 0 polls)
  /\ (forall polls t st,
         Gemini.poll_loop true polls loop_start = (t, Running st) ->
         String.length (streamed t) = longest_of gem_accepted 0 polls).
Proof.
  split; intros polls t st H.
  - pose proof (pplx_loop_offset true _ _ _ _ H) as O.
    pose proof (pplx_loop_longest _ _ _ _ H) as L. simpl in *. lia.
  - pose proof (gem_loop_offset true _ _ _ _ H) as O.
    pose proof (gem_loop_longest _ _ _ _ H) as L. simpl in *. lia.
Qed.

(** The theorem at work on an answer that the page replaces by a shorter
    one: 11 code units are sent for the first text, none for the
    second. *)
Lemma streamed_length_is_longest_witness :
  let pp := [Perplexity.sample 1000 "Hello world" true;
             Perplexity.sample 2000 "Bye" true] in
  let gp := [Gemini.sample 800 "Hello world, all" true false;
             Gemini.sample 1600 "Hello, world" true false] in
  (String.length (streamed (fst (Perplexity.poll_loop true pp loop_start)))
   = longest_of pplx_accepted 0 pp
   /\ longest_of pplx_accepted 0 pp = 11)
  /\ (String.length (streamed (fst (Gemini.poll_loop true gp loop_start)))
      = longest_of gem_accepted 0 gp
      /\ longest_of gem_accepted 0 gp = 16).
Proof.
  cbv zeta. split; (split; [|reflexivity]).
  - eapply (proj1 streamed_length_is_longest
              [Perplexity.sample 1000 "Hello world" true;
               Perplexity.sample 2000 "Bye" true]).
    reflexivity.
  - eapply (proj2 streamed_length_is_longest
              [Gemini.sample 800 "Hello world, all" true false;
               Gemini.sample 1600 "Hello, world" true false]).
    reflexivity.
Defined.

(** ** The count of stable readings *)

Lemma pplx_body_count oc ext st evs st' :
  Perplexity.loop_body oc ext st = (evs, inl st') ->
  stableCount st < 8 /\ (lastText st = "" -> stableCount st = 0) ->
  stableCount st' < 8 /\ (lastText st' = "" -> stableCount st' = 0).
Proof.
  unfold Perplexity.loop_body.
  destruct (truthy _) eqn:T; [|now intros [= _ <-]].
  apply truthy_true in T.
  destruct (String.eqb _ _).
  - destruct (8 <=? S (stableCount st)) eqn:E.
    + rewrite orb_true_r. discriminate.
    + apply Nat.leb_gt in E. destruct (_ || _); [discriminate|].
      intros [= _ <-] _. simpl. split; [lia | contradiction].
  - intros [= _ <-] _. simpl. split; [lia | reflexivity].
Qed.

Lemma gem_body_count oc ext st evs st' :
  Gemini.loop_body oc ext st = (evs, inl st') ->
  stableCount st < 10 /\ (lastText st = "" -> stableCount st = 0) ->
  stableCount st' < 10 /\ (lastText st' = "" -> stableCount st' = 0).
Proof.
  unfold Gemini.loop_body.
  destruct (truthy _) eqn:T.
  - apply truthy_true in T. cbn [andb].
    destruct (10 <? _).
    + destruct (String.eqb _ _).
      * destruct (10 <=? S (stableCount st)) eqn:E.
        -- rewrite orb_true_r. discriminate.
        -- apply Nat.leb_gt in E. destruct (_ || _); [discriminate|].
           intros [= _ <-] _. simpl. split; [lia | contradiction].
      * intros [= _ <-] _. simpl. split; [lia | reflexivity].
    + destruct (_ && _); [discriminate|]. now intros [= _ <-].
  - cbn [andb]. destruct (_ && _); [discriminate|]. now intros [= _ <-].
Qed.

(** X5. While a query is polling, [stableCount] is below the forced
    threshold (8 in queryPerplexity, 10 in queryGemini), and it is 0 as
    long as no text has been let in: the count never runs ahead of the
    exits of the loop. *)
Theorem stable_count_bounded :
  forall (onChunk : bool),
    (forall polls t st,
        Perplexity.poll_loop onChunk polls loop_start = (t, Running st) ->
        stableCount st < 8 /\ (lastText st = "" -> stableCount st = 0))
    /\ (forall polls t st,
           Gemini.poll_loop onChunk polls loop_start = (t, Running st) ->
           stableCount st < 10 /\ (lastText st = "" -> stableCount st = 0)).
Proof.
  intros onChunk; split.
  - assert (G : forall polls s0 t st,
               Perplexity.poll_loop onChunk polls s0 = (t, Running st) ->
               stableCount s0 < 8 /\ (lastText s0 = "" -> stableCount s0 = 0) ->
               stableCount st < 8 /\ (lastText st = "" -> stableCount st = 0)).
    { induction polls as [|p polls IH]; intros s0 t st H I0; simpl in H.
      - now injection H as _ <-.
      - destruct (Perplexity.elapsed p <? Perplexity.MAX_TIMEOUT)%Z;
          [|discriminate].
        destruct (Perplexity.extraction p) as [ext|e]; [|discriminate].
        destruct (Perplexity.loop_body onChunk ext s0) as [evs [a|r]] eqn:B;
          [|discriminate].
        unfold after in H; simpl in H.
        destruct (Perplexity.poll_loop onChunk polls a) as [t1 o1] eqn:L.
        simpl in H. injection H as _ ->.
        exact (IH _ _ _ L (pplx_body_count _ _ _ _ _ B I0)). }
    intros polls t st H. apply (G _ _ _ _ H). simpl. split; [lia | reflexivity].
  - assert (G : forall polls s0 t st,
               Gemini.poll_loop onChunk polls s0 = (t, Running st) ->
               stableCount s0 < 10 /\ (lastText s0 = "" -> stableCount s0 = 0) ->
               stableCount st < 10 /\ (lastText st = "" -> stableCount st = 0)).
    { induction polls as [|p polls IH]; intros s0 t st H I0; simpl in H.
      - now injection H as _ <-.
      - destruct (Gemini.elapsed p <? 120000)%Z; [|discriminate].
        destruct (Gemini.extraction p) as [ext|e]; [|discriminate].
        destruct (Gemini.loop_body onChunk ext s0) as [evs [a|r]] eqn:B;
          [|discriminate].
        unfold after in H; simpl in H.
        destruct (Gemini.poll_loop onChunk polls a) as [t1 o1] eqn:L.
        simpl in H. injection H as _ ->.
        exact (IH _ _ _ L (gem_body_count _ _ _ _ _ B I0)). }
    intros polls t st H. apply (G _ _ _ _ H). simpl. split; [lia | reflexivity].
Qed.

(** The theorem at work on readings of one text under a busy signal,
    one short of the forced threshold. *)
Lemma stable_count_bounded_witness :
  let pp := map (fun ms => Perplexity.sample ms "Paris" true) (ticks 1000 8) in
  let gp := map (fun ms => Gemini.sample ms "Paris, France" true false)
                (ticks 800 10) in
  (snd (Perplexity.poll_loop false pp loop_start)
   = Running {| lastText := "Paris"; stableCount := 7;
                lastChunkedLength := 0 |}
   /\ (7 < 8 /\ ("Paris" = "" -> 7 = 0)))
  /\ (snd (Gemini.poll_loop false gp loop_start)
      = Running {| lastText := "Paris, France"; stableCount := 9;
                   lastChunkedLength := 0 |}
      /\ (9 < 10 /\ ("Paris, France" = "" -> 9 = 0))).
Proof.
  cbv zeta. split; (split; [vm_compute; reflexivity|]).
  - apply (proj1 (stable_count_bounded false)
             (map (fun ms => Perplexity.sample ms "Paris" true) (ticks 1000 8))
             (repeat EvExtract 8)
             {| lastText := "Paris"; stableCount := 7;
                lastChunkedLength := 0 |}).
    vm_compute. reflexivity.
  - apply (proj2 (stable_count_bounded false)
             (map (fun ms => Gemini.sample ms "Paris, France" true false)
                  (ticks 800 10))
             (repeat EvExtract 10)
             {| lastText := "Paris, France"; stableCount := 9;
                lastChunkedLength := 0 |}).
    vm_compute. reflexivity.
Defined.

(** ** The scan of submitQuery *)

Section Scan.
Variable isVisible : Box -> bool.
Variable query : string.

Lemma scan_elements_usable els :
  snd (scan_elements isVisible query els) = Submitted <-> usable isVisible els.
Proof.
  split.
  - induction els as [|el els IH]; simpl; [discriminate|].
    destruct (evaluate el) as [b|e] eqn:E; [|discriminate].
    destruct (isVisible b) eqn:V.
    + destruct (operable el) eqn:O; [|discriminate].
      intros _. exists [], el, els, b. repeat split; auto.
    + intros H. destruct (IH H) as (pre & x & post & c & -> & F & R).
      exists (el :: pre), x, post, c. repeat split; try apply R.
      constructor; eauto.
  - intros (pre & el & post & b & -> & F & E & V & O).
    induction F as [|x pre (c & Ec & Vc) _ IH]; simpl.
    + now rewrite E, V, O.
    + now rewrite Ec, Vc.
Qed.

Lemma scan_selectors_cons s sel rest :
  scan_selectors isVisible s query (sel :: rest) =
  match query_all s sel with
  | Thrown _ => scan_selectors isVisible s query rest
  | Returned els =>
      match scan_elements isVisible query els with
      | (evs, Submitted) => (evs, true)
      | (_, _) => scan_selectors isVisible s query rest
      end
  end.
Proof. reflexivity. Qed.

Lemma scan_selectors_reachable s sels :
  snd (scan_selectors isVisible s query sels) = true
  <-> reachable isVisible s sels.
Proof.
  unfold reachable.
  induction sels as [|sel sels IH].
  - split; [discriminate | intros H; inversion H].
  - rewrite scan_selectors_cons, Exists_cons.
    destruct (query_all s sel) as [els|e] eqn:Q.
    + pose proof (scan_elements_usable els) as U.
      destruct (scan_elements isVisible query els) as [evs [| |]];
        cbn [snd] in *.
      * split; [|reflexivity]. intros _. left. exists els.
        split; [reflexivity | now apply U].
      * rewrite IH. split; [now right|].
        intros [(els' & [= <-] & H)|H]; [|exact H].
        apply U in H. discriminate.
      * rewrite IH. split; [now right|].
        intros [(els' & [= <-] & H)|H]; [|exact H].
        apply U in H. discriminate.
    + rewrite IH. split; [now right|].
      now intros [(els' & [=] & _)|H].
Qed.

End Scan.

(** X6. [submitQuery] returns true exactly when some selector of its
    list can be listed and the first element of the listing reported
    visible takes the click, the clearing, the insertion and the Enter
    key, every element before it in that listing having been reported
    not visible; in the two servers the scroll before the scan has to
    return as well. Selectors that cannot be listed, that list nothing
    usable or whose scan ends in an exception take nothing away from the
    selectors after them. *)
Theorem submit_succeeds_iff :
  forall (s : InputSurface) (query : string),
    (snd (Perplexity.submitQuery s query) = Returned true
     <-> (exists u, scrollTo s = Returned u)
         /\ reachable Perplexity.isVisible s Perplexity.selectors)
    /\ (snd (Gemini.submitQuery s query) = Returned true
        <-> (exists u, scrollTo s = Returned u)
            /\ reachable Gemini.isVisible s Gemini.selectors)
    /\ (snd (Cli.submitQuery s query) = true
        <-> reachable Perplexity.isVisible s Cli.selectors).
Proof.
  intros s query. split; [|split].
  - unfold Perplexity.submitQuery.
    rewrite <- scan_selectors_reachable with (query := query).
    destruct (scrollTo s) as [u|e]; cbn [snd].
    + split.
      * intros [= H]. split; [now exists u | exact H].
      * now intros [_ ->].
    + split; [discriminate | now intros [[u [=]] _]].
  - unfold Gemini.submitQuery.
    rewrite <- scan_selectors_reachable with (query := query).
    destruct (scrollTo s) as [u|e]; cbn [snd].
    + split.
      * intros [= H]. split; [now exists u | exact H].
      * now intros [_ ->].
    + split; [discriminate | now intros [[u [=]] _]].
  - unfold Cli.submitQuery. apply scan_selectors_reachable.
Qed.

(** ** The texts of the extractors *)

Lemma keep_longest_length cs : forall init,
  String.length init <= String.length (keep_longest init cs)
  /\ Forall (fun c => String.length c <= String.length (keep_longest init cs))
            cs.
Proof.
  unfold keep_longest.
  induction cs as [|c cs IH]; intros init; simpl.
  - split; [apply Nat.le_refl | constructor].
  - destruct (Nat.ltb_spec (String.length init) (String.length c)) as [L|L].
    + destruct (IH c) as [I1 I2]. split; [lia|]. constructor; assumption.
    + destruct (IH init) as [I1 I2]. split; [assumption|].
      constructor; [lia | assumption].
Qed.

Lemma keep_longest_mem cs : forall init,
  keep_longest init cs = init \/ In (keep_longest init cs) cs.
Proof.
  unfold keep_longest.
  induction cs as [|c cs IH]; intros init; simpl; [now left|].
  destruct (String.length init <? String.length c).
  - destruct (IH c) as [->|H]; auto.
  - destruct (IH init) as [->|H]; auto.
Qed.

Lemma length_zero (s : string) : String.length s = 0 <-> s = "".
Proof. destruct s; simpl; split; congruence. Qed.

Lemma keep_longest_empty cs init :
  keep_longest init cs = "" <-> init = "" /\ Forall (fun c => c = "") cs.
Proof.
  split.
  - intros H. destruct (keep_longest_length cs init) as [L1 L2].
    rewrite H in *. simpl in *. split; [apply length_zero; lia|].
    eapply Forall_impl; [|exact L2]. intros c Hc. apply length_zero.
    simpl in Hc. lia.
  - intros [-> F]. destruct (keep_longest_mem cs "") as [E|E]; [exact E|].
    rewrite Forall_forall in F. exact (F _ E).
Qed.

(** Joining texts that are not empty gives the empty text for no text
    only. *)
Lemma join_empty sep parts :
  Forall (fun p => p <> "") parts -> join sep parts = "" -> parts = [].
Proof.
  intros F. destruct parts as [|p [|q rest]]; simpl; [reflexivity| |].
  - intros ->. apply Forall_inv in F. congruence.
  - apply Forall_inv in F. destruct p; [congruence | discriminate].
Qed.

Lemma length_join_le sep p parts :
  In p parts -> String.length p <= String.length (join sep parts).
Proof.
  induction parts as [|x parts IH]; intros H; [contradiction|].
  destruct parts as [|y parts].
  - destruct H as [->|[]]. apply Nat.le_refl.
  - change (join sep (x :: y :: parts))
      with (x ++ sep ++ join sep (y :: parts))%string.
    rewrite !length_append. destruct H as [->|H]; [lia|].
    specialize (IH H). lia.
Qed.

Lemma no_paragraph (l : list string) :
  filter (fun t => 5 <? String.length t) l = []
  <-> Forall (fun t => String.length t <= 5) l.
Proof.
  induction l as [|t l IH]; simpl.
  - split; [constructor | reflexivity].
  - destruct (Nat.ltb_spec 5 (String.length t)) as [L|L].
    + split; [discriminate|]. intros H. apply Forall_inv in H. lia.
    + rewrite IH. split; [intros H; now constructor|]. intros H.
      now apply Forall_inv_tail in H.
Qed.

(** X7. The text [extractAnswer] of server.js returns is the joined
    paragraphs or one of the fallback texts, it is never shorter than
    the joined paragraphs, and under 30 code units it is at least as
    long as every fallback text. It is empty exactly when the page has
    no paragraph of more than 5 code units and no fallback text that is
    not empty: these are the readings the polling loop ignores. *)
Theorem perplexity_extract_text :
  forall (d : Perplexity.Dom),
    let paragraphs := filter (fun t => 5 <? String.length t) (Perplexity.prose d) in
    let joined := join (nl ++ nl) paragraphs in
    let text := Perplexity.answerText (Perplexity.extractAnswer d) in
    (text = joined \/ In text (Perplexity.fallback d))
    /\ String.length joined <= String.length text
    /\ (String.length text < 30 ->
        Forall (fun t => String.length t <= String.length text)
               (Perplexity.fallback d))
    /\ (text = "" <->
        Forall (fun t => String.length t <= 5) (Perplexity.prose d)
        /\ Forall (fun t => t = "") (Perplexity.fallback d)).
Proof.
  intros d paragraphs joined text.
  assert (T : text = if String.length joined <? 30
                     then keep_longest joined (Perplexity.fallback d)
                     else joined) by reflexivity.
  assert (P : paragraphs = [] <->
              Forall (fun t => String.length t <= 5) (Perplexity.prose d))
    by apply no_paragraph.
  assert (J : joined = "" <-> paragraphs = []).
  { split; [|now intros ->]. apply join_empty. subst paragraphs.
    apply Forall_forall. intros p Hp. apply filter_In in Hp as [_ Hp].
    apply Nat.ltb_lt in Hp. intros ->. simpl in Hp. lia. }
  destruct (keep_longest_length (Perplexity.fallback d) joined) as [K1 K2].
  destruct (String.length joined <? 30) eqn:E; rewrite T.
  - split; [|split; [|split]].
    + destruct (keep_longest_mem (Perplexity.fallback d) joined); auto.
    + exact K1.
    + intros _. exact K2.
    + rewrite keep_longest_empty, J, P. reflexivity.
  - apply Nat.ltb_ge in E. split; [|split; [|split]].
    + now left.
    + apply Nat.le_refl.
    + lia.
    + split; [intros H; rewrite H in E; simpl in E; lia|].
      intros [H _]. apply P in H. apply J in H.
      rewrite H in E. simpl in E. lia.
Qed.

(** The theorem at work on a page whose paragraphs are too short to be
    kept: the text is the longest fallback text. *)
Lemma perplexity_extract_text_witness :
  let d := {| Perplexity.prose := ["Paris"; "Yes."];
              Perplexity.fallback := ["Paris"; "Paris is the capital."; ""];
              Perplexity.citations := [];
              Perplexity.spinner := false;
              Perplexity.prevLen := 0 |} in
  Perplexity.answerText (Perplexity.extractAnswer d) = "Paris is the capital."
  /\ Forall (fun t => String.length t
                      <= String.length
                           (Perplexity.answerText (Perplexity.extractAnswer d)))
            (Perplexity.fallback d).
Proof.
  cbv zeta. split; [reflexivity|].
  apply (proj1 (proj2 (proj2
           (perplexity_extract_text
              {| Perplexity.prose := ["Paris"; "Yes."];
                 Perplexity.fallback := ["Paris"; "Paris is the capital."; ""];
                 Perplexity.citations := [];
                 Perplexity.spinner := false;
                 Perplexity.prevLen := 0 |})))).
  simpl. lia.
Defined.

(** The five strategies one after the other, from the text [a]. *)
Lemma strategy_step a cs :
  let b := if String.length a <? 30 then keep_longest a cs else a in
  String.length a <= String.length b
  /\ (b = a \/ In b cs)
  /\ (String.length b < 30 ->
      Forall (fun c => String.length c <= String.length b) cs)
  /\ (b = "" <-> a = "" /\ Forall (fun c => c = "") cs).
Proof.
  cbv zeta.
  destruct (keep_longest_length cs a) as [K1 K2].
  destruct (Nat.ltb_spec (String.length a) 30) as [L|L].
  - split; [exact K1|]. split; [apply keep_longest_mem|].
    split; [intros _; exact K2 | apply keep_longest_empty].
  - split; [apply Nat.le_refl|]. split; [now left|]. split; [lia|].
    split; [intros H; rewrite H in L; simpl in L; lia|].
    intros [H _]. rewrite H in L. simpl in L. lia.
Qed.

(** X8. The text the five strategies of the Gemini [extractAnswer] keep
    is empty or one of the texts read on the page. While it is under 30
    code units every strategy has been run and it is at least as long as
    every text they read (the first strategy reads only when a
    model-response element exists); it is empty exactly when all those
    texts are. The echo guard then returns that text or the empty
    text. *)
Theorem gemini_extract_text :
  forall (d : Gemini.Dom) (query : string),
    let first := if Gemini.modelResponse d
                 then Gemini.candidates (Gemini.model_markdown d)
                      ++ Gemini.candidates (Gemini.model_last d)
                 else [] in
    let texts := first ++ Gemini.content_texts d ++ Gemini.panel_texts d
                 ++ Gemini.markdown_texts d
                 ++ Gemini.candidates (Gemini.model_raw d) in
    (Gemini.strategies d = "" \/ In (Gemini.strategies d) texts)
    /\ (String.length (Gemini.strategies d) < 30 ->
        Forall (fun t => String.length t <= String.length (Gemini.strategies d))
               texts)
    /\ (Gemini.strategies d = "" <-> Forall (fun t => t = "") texts)
    /\ (Gemini.answerText (Gemini.extractAnswer d query) = Gemini.strategies d
        \/ Gemini.answerText (Gemini.extractAnswer d query) = "").
Proof.
  intros d query first texts.
  set (a0 := keep_longest "" (Gemini.candidates (Gemini.model_markdown d))).
  set (a1 := if String.length a0 <? 30
             then keep_longest a0 (Gemini.candidates (Gemini.model_last d))
             else a0).
  set (t1 := if Gemini.modelResponse d then a1 else "").
  set (t2 := if String.length t1 <? 30
             then keep_longest t1 (Gemini.content_texts d) else t1).
  set (t3 := if String.length t2 <? 30
             then keep_longest t2 (Gemini.panel_texts d) else t2).
  set (t4 := if String.length t3 <? 30
             then keep_longest t3 (Gemini.markdown_texts d) else t3).
  set (t5 := if String.length t4 <? 30
             then keep_longest t4 (Gemini.candidates (Gemini.model_raw d))
             else t4).
  assert (S5 : Gemini.strategies d = t5) by reflexivity.
  (* the first strategy *)
  assert (F1 : (t1 = "" \/ In t1 first)
               /\ (String.length t1 < 30 ->
                   Forall (fun c => String.length c <= String.length t1) first)
               /\ (t1 = "" <-> Forall (fun c => c = "") first)).
  { subst t1 first. destruct (Gemini.modelResponse d).
    2:{ split; [now left|]. split; [constructor|].
        split; [constructor | reflexivity]. }
    pose proof (strategy_step "" (Gemini.candidates (Gemini.model_markdown d)))
      as (A1 & A2 & A3 & A4).
    change (if String.length "" <? 30
            then keep_longest "" (Gemini.candidates (Gemini.model_markdown d))
            else "") with a0 in *.
    pose proof (strategy_step a0 (Gemini.candidates (Gemini.model_last d)))
      as (B1 & B2 & B3 & B4).
    fold a1 in B1, B2, B3, B4.
    split; [|split].
    - destruct B2 as [->|B2]; [|right; apply in_or_app; now right].
      destruct A2 as [->|A2]; [now left|right; apply in_or_app; now left].
    - intros L. apply Forall_app. split; [|now apply B3].
      eapply Forall_impl; [|apply A3; lia]. intros c Hc. simpl in Hc. lia.
    - rewrite Forall_app, B4, A4. split; [now intros [[_ ?] ?]|].
      now intros [? ?]. }
  (* one more strategy on top of what is known of the text so far *)
  assert (step : forall a seen cs,
             (a = "" \/ In a seen)
             /\ (String.length a < 30 ->
                 Forall (fun c => String.length c <= String.length a) seen)
             /\ (a = "" <-> Forall (fun c => c = "") seen) ->
             let b := if String.length a <? 30 then keep_longest a cs else a in
             (b = "" \/ In b (seen ++ cs))
             /\ (String.length b < 30 ->
                 Forall (fun c => String.length c <= String.length b)
                        (seen ++ cs))
             /\ (b = "" <-> Forall (fun c => c = "") (seen ++ cs))).
  { intros a seen cs (H1 & H2 & H3).
    pose proof (strategy_step a cs) as (B1 & B2 & B3 & B4).
    cbv zeta in *.
    set (b := if String.length a <? 30 then keep_longest a cs else a) in *.
    split; [|split].
    - destruct B2 as [E|B2]; [|right; apply in_or_app; now right].
      rewrite E. destruct H1 as [H1|H1]; [now left|].
      right. apply in_or_app. now left.
    - intros L. apply Forall_app. split; [|now apply B3].
      eapply Forall_impl; [|apply H2; lia]. intros c Hc. simpl in Hc. lia.
    - rewrite Forall_app, B4, H3. reflexivity. }
  pose proof (step t1 first (Gemini.content_texts d) F1) as F2.
  cbv zeta in F2. fold t2 in F2.
  pose proof (step t2 _ (Gemini.panel_texts d) F2) as F3.
  cbv zeta in F3. fold t3 in F3.
  pose proof (step t3 _ (Gemini.markdown_texts d) F3) as F4.
  cbv zeta in F4. fold t4 in F4.
  pose proof (step t4 _ (Gemini.candidates (Gemini.model_raw d)) F4) as F5.
  cbv zeta in F5. fold t5 in F5.
  rewrite <- !app_assoc in F5. fold texts in F5.
  rewrite S5. destruct F5 as (G1 & G2 & G3).
  split; [exact G1|]. split; [exact G2|]. split; [exact G3|].
  unfold Gemini.extractAnswer; cbn [Gemini.answerText].
  unfold Gemini.echo_guard. rewrite S5.
  destruct (_ && _); [|now left]. destruct (_ || _); auto.
Qed.

(** The theorem at work on a page that is still streaming: no
    model-response element, a short text in the content area. *)
Lemma gemini_extract_text_witness :
  let d := {| Gemini.modelResponse := false;
              Gemini.model_markdown := None;
              Gemini.model_last := None;
              Gemini.content_texts := ["Paris"; "Paris is"];
              Gemini.panel_texts := ["Paris"];
              Gemini.markdown_texts := [];
              Gemini.model_raw := None;
              Gemini.pendingResponse := true;
              Gemini.prevLen := 5 |} in
  Gemini.strategies d = "Paris is"
  /\ Forall (fun t => String.length t <= String.length (Gemini.strategies d))
            (Gemini.content_texts d ++ Gemini.panel_texts d).
Proof.
  cbv zeta. split; [reflexivity|].
  apply (proj1 (proj2
           (gemini_extract_text
              {| Gemini.modelResponse := false;
                 Gemini.model_markdown := None;
                 Gemini.model_last := None;
                 Gemini.content_texts := ["Paris"; "Paris is"];
                 Gemini.panel_texts := ["Paris"];
                 Gemini.markdown_texts := [];
                 Gemini.model_raw := None;
                 Gemini.pendingResponse := true;
                 Gemini.prevLen := 5 |} "capital?"))).
  simpl. lia.
Defined.

(** ** The citation scan *)

Module SourceFacts.
Import Sources.

Lemma has_in seen u : has seen u = true <-> In u seen.
Proof.
  unfold has. rewrite existsb_exists. split.
  - intros (x & Hx & E). apply String.eqb_eq in E. now subst.
  - intros H. exists u. split; [exact H | apply String.eqb_refl].
Qed.

Lemma sound_push seen sources u t :
  sound_sources seen sources -> u <> "" -> t <> "" -> ~ In u seen ->
  sound_sources (u :: seen) (sources ++ [ {| title := t; url := u |} ]).
Proof.
  intros [N A] Hu Ht Hn. split.
  - rewrite map_app. simpl. apply NoDup_app; [exact N | | ].
    + repeat constructor. intros [].
    + intros a Ha [<-|[]]. apply in_map_iff in Ha as (x & <- & Hx).
      apply Hn. now apply A.
  - intros x Hx. apply in_app_or in Hx as [Hx|[<-|[]]].
    + destruct (A x Hx) as (? & ? & ?). repeat split; auto. now right.
    + simpl. repeat split; auto.
Qed.

Lemma scan_citations_sound els : forall seen sources,
  sound_sources seen sources ->
  sound_sources (fst (scan_citations els seen sources))
        (snd (scan_citations els seen sources)).
Proof.
  induction els as [|el els IH]; intros seen sources H; simpl; [exact H|].
  destruct (truthy (citation_url el)) eqn:T; cbn [andb]; [|now apply IH].
  destruct (has seen (citation_url el)) eqn:S; cbn [negb]; [now apply IH|].
  apply IH, sound_push; auto.
  - now apply truthy_true.
  - unfold js_or at 1. destruct (truthy (js_or _ _)) eqn:L.
    + now apply truthy_true.
    + now apply truthy_true.
  - intros Hin. apply has_in in Hin. congruence.
Qed.

Lemma scan_links_sound links : forall seen sources,
  sound_sources seen sources ->
  sound_sources (fst (scan_links links seen sources))
        (snd (scan_links links seen sources)).
Proof.
  induction links as [|a links IH]; intros seen sources H; simpl; [exact H|].
  destruct (truthy (href a)) eqn:T; cbn [andb]; [|now apply IH].
  destruct (has seen (href a)) eqn:S; cbn [negb andb]; [now apply IH|].
  destruct (Nat.ltb_spec 2 (String.length (js_or (trim (link_text a)) "")))
    as [L|L]; cbn [andb]; [|now apply IH].
  destruct (String.length (js_or (trim (link_text a)) "") <? 200);
    [|now apply IH].
  apply IH, sound_push; auto.
  - now apply truthy_true.
  - intros E. rewrite E in L. simpl in L. lia.
  - intros Hin. apply has_in in Hin. congruence.
Qed.

(** Where the addresses come from. *)
Lemma scan_citations_from els : forall seen sources x,
  In x (snd (scan_citations els seen sources)) ->
  In x sources \/ In (url x) (map citation_url els).
Proof.
  induction els as [|el els IH]; intros seen sources x; simpl; [now left|].
  destruct (truthy (citation_url el) && negb (has seen (citation_url el))).
  - intros H. apply IH in H as [H|H]; [|now right; right].
    apply in_app_or in H as [H|[<-|[]]]; [now left|]. right. now left.
  - intros H. apply IH in H as [H|H]; [now left | now right; right].
Qed.

Lemma scan_links_from links : forall seen sources x,
  In x (snd (scan_links links seen sources)) ->
  In x sources
  \/ (In (url x) (map href links)
      /\ 2 < String.length (title x) < 200).
Proof.
  induction links as [|a links IH]; intros seen sources x; simpl; [now left|].
  destruct (truthy (href a) && negb (has seen (href a))); cbn [andb].
  2:{ intros H. apply IH in H as [H|[H ?]]; [now left|].
      right. split; [now right | assumption]. }
  destruct (Nat.ltb_spec 2 (String.length (js_or (trim (link_text a)) "")))
    as [L|L]; cbn [andb].
  2:{ intros H. apply IH in H as [H|[H ?]]; [now left|].
      right. split; [now right | assumption]. }
  destruct (Nat.ltb_spec (String.length (js_or (trim (link_text a)) "")) 200)
    as [U|U].
  2:{ intros H. apply IH in H as [H|[H ?]]; [now left|].
      right. split; [now right | assumption]. }
  intros H. apply IH in H as [H|[H ?]].
  - apply in_app_or in H as [H|[<-|[]]]; [now left|].
    right. simpl. split; [now left | lia].
  - right. split; [now right | assumption].
Qed.

End SourceFacts.

(** X9. The sources [extractAnswer] collects never give an address
    twice, and no source has an empty address or an empty title. The
    links of the page are consulted only when the citation elements gave
    no source: either every source carries the address of a citation
    element, or every source carries the address of a link and a title
    of 3 to 199 code units. *)
Theorem sources_distinct :
  forall (els : list Sources.CitationEl) (links : list Sources.LinkEl),
    let sources := Sources.collect_sources els links in
    NoDup (map url sources)
    /\ Forall (fun x => url x <> "" /\ title x <> "") sources
    /\ (Forall (fun x => In (url x) (map Sources.citation_url els)) sources
        \/ Forall (fun x => In (url x) (map Sources.href links)
                            /\ 2 < String.length (title x) < 200) sources).
Proof.
  intros els links. cbv zeta. unfold Sources.collect_sources.
  assert (S0 : sound_sources [] []).
  { split; [constructor | intros x []]. }
  pose proof (SourceFacts.scan_citations_sound els [] [] S0) as S1.
  pose proof (SourceFacts.scan_citations_from els [] []) as P1.
  destruct (Sources.scan_citations els [] []) as [seen srcs]; cbn [fst snd] in *.
  destruct srcs as [|x0 srcs]; cbn [List.length Nat.eqb].
  - pose proof (SourceFacts.scan_links_sound links seen [] S1) as [N A].
    pose proof (SourceFacts.scan_links_from links seen []) as P2.
    split; [exact N|]. split.
    + apply Forall_forall. intros x Hx. now apply A.
    + right. apply Forall_forall. intros x Hx.
      destruct (P2 x Hx) as [[]|H]. exact H.
  - destruct S1 as [N A]. split; [exact N|]. split.
    + apply Forall_forall. intros x Hx. now apply A.
    + left. apply Forall_forall. intros x Hx.
      destruct (P1 x Hx) as [[]|H]. exact H.
Qed.

(** ** The browser handle *)

Module BrowserFacts.
Import Browser.

(** What holds of the handle after [k] disconnections. *)
Lemma handle_fold acts : forall s k,
  ((browser s = None <-> browserReady s = false)
   /\ (forall n, browser s = Some n -> n = launched s /\ 0 < n)
   /\ launched s + (if browserReady s then 0 else 1) <= 1 + k) ->
  let s' := fold_left step acts s in
  (browser s' = None <-> browserReady s' = false)
  /\ (forall n, browser s' = Some n -> n = launched s' /\ 0 < n)
  /\ launched s' + (if browserReady s' then 0 else 1)
     <= 1 + k + List.length (filter is_disconnect acts).
Proof.
  induction acts as [|a acts IH]; intros s k (H1 & H2 & H3).
  - simpl. repeat split; try apply H1; try apply (H2 n); auto; lia.
  - destruct a as [launch|];
      cbn [fold_left step filter is_disconnect List.length].
    + apply IH. unfold ensureBrowser, initBrowser.
      destruct (browser s) as [n|] eqn:B.
      * destruct (browserReady s) eqn:R; simpl.
        -- rewrite B, R. repeat split; try discriminate; try apply (H2 _ H);
             auto.
        -- destruct H1 as [_ H1]. specialize (H1 eq_refl). discriminate.
      * simpl. destruct launch as [u|e]; simpl.
        -- assert (R : browserReady s = false) by now apply H1.
           rewrite R in H3.
           repeat split; try discriminate; try injection H as <-; lia.
        -- rewrite B. repeat split; try apply H1; auto; discriminate.
    + replace (1 + k + S (List.length (filter is_disconnect acts)))
        with (1 + S k + List.length (filter is_disconnect acts)) by lia.
      apply IH. unfold disconnected; simpl.
      repeat split; try discriminate.
      destruct (browserReady s); lia.
Qed.

End BrowserFacts.

(** X10. The browser handle of a server, whatever requests ask for the
    browser, whatever launches fail and whenever the browser
    disconnects: [browser] is null exactly when [browserReady] is false;
    the browser held is the one launched last; the launches that
    succeeded are at most one more than the disconnections, a browser
    that is ready is never launched again; and [ensureBrowser], when it
    returns, returns a browser, never null. *)
Theorem browser_handle :
  forall (acts : list Browser.Action),
    let s := Browser.run acts in
    (Browser.browser s = None <-> Browser.browserReady s = false)
    /\ (forall n, Browser.browser s = Some n -> n = Browser.launched s)
    /\ Browser.launched s
       <= 1 + List.length (filter Browser.is_disconnect acts)
    /\ (Browser.browserReady s = true ->
        forall launch, fst (Browser.ensureBrowser launch s) = s)
    /\ (forall launch,
           snd (Browser.ensureBrowser launch s) <> Returned None).
Proof.
  intros acts.
  assert (I0 : (Browser.browser Browser.initial = None
                <-> Browser.browserReady Browser.initial = false)
               /\ (forall n, Browser.browser Browser.initial = Some n ->
                             n = Browser.launched Browser.initial /\ 0 < n)
               /\ Browser.launched Browser.initial
                  + (if Browser.browserReady Browser.initial then 0 else 1)
                  <= 1 + 0).
  { simpl. repeat split; auto; discriminate. }
  pose proof (BrowserFacts.handle_fold acts Browser.initial 0 I0)
    as (H1 & H2 & H3).
  fold (Browser.run acts) in H1, H2, H3. cbv zeta.
  split; [exact H1|]. split; [intros n Hn; now apply H2|].
  split; [simpl in H3; lia|]. split.
  - intros R launch. unfold Browser.ensureBrowser. rewrite R.
    destruct (Browser.browser (Browser.run acts)); [reflexivity|].
    destruct H1 as [H1 _]. specialize (H1 eq_refl). congruence.
  - intros launch. unfold Browser.ensureBrowser, Browser.initBrowser.
    destruct (Browser.browser (Browser.run acts)) as [n|].
    + destruct (Browser.browserReady (Browser.run acts)); simpl.
      * discriminate.
      * destruct launch; simpl; discriminate.
    + simpl. destruct launch; simpl; discriminate.
Qed.

(** The theorem at work on a browser that is launched, disconnects,
    fails to launch again and is then launched: the handle holds the
    second browser. *)
Lemma browser_handle_witness :
  let acts := [Browser.Ensure (Returned tt); Browser.Disconnected;
               Browser.Ensure (Thrown "Failed to launch");
               Browser.Ensure (Returned tt); Browser.Ensure (Returned tt)] in
  Browser.browser (Browser.run acts) = Some 2
  /\ 2 = Browser.launched (Browser.run acts).
Proof.
  cbv zeta. split; [reflexivity|].
  apply (proj1 (proj2
           (browser_handle
              [Browser.Ensure (Returned tt); Browser.Disconnected;
               Browser.Ensure (Thrown "Failed to launch");
               Browser.Ensure (Returned tt); Browser.Ensure (Returned tt)]))).
  reflexivity.
Defined.

(** X11. In the request queue, whatever jobs are enqueued and however
    their tasks settle: the flag [processing] is raised exactly while a
    task is executing; every job started has settled or is executing,
    and the jobs settle in the order in which they were enqueued. *)
Theorem queue_settles_in_order :
  forall (acts : list Queue.Action),
    let s := Queue.run acts in
    (Queue.processing s = true <-> Queue.executing s <> [])
    /\ Queue.started s = map fst (Queue.settled s) ++ Queue.executing s
    /\ map fst (Queue.settled s) ++ Queue.executing s ++ Queue.requestQueue s
       = Queue.enqueued acts.
Proof.
  intros acts. cbv zeta.
  pose proof (QueueFacts.consistent_run acts) as C.
  pose proof (QueueMore.accounted_fold acts Queue.initial []
                QueueFacts.consistent_initial eq_refl) as A.
  fold (Queue.run acts) in A.
  destruct C as (Hb & Hi & Hj).
  split; [|split].
  - split.
    + intros P. destruct (Hb P) as [j ->]. discriminate.
    + intros N. destruct (Queue.processing (Queue.run acts)); [reflexivity|].
      now destruct (Hi eq_refl).
  - exact A.
  - rewrite app_assoc, <- A. exact Hj.
Qed.

(** X12. The queue drains: from any state the queue can be in, once the
    task executing and, each in its turn, the tasks of the jobs waiting
    have settled, with a value or with an exception, nothing is
    executing, nothing waits, and every job that was enqueued has
    settled, in the order of the enqueuing and with the outcome of its
    own task. *)
Theorem queue_drains :
  forall (acts : list Queue.Action) (oks : list bool),
    List.length oks
    = List.length (Queue.executing (Queue.run acts))
      + List.length (Queue.requestQueue (Queue.run acts)) ->
    let s := fold_left settle_next oks (Queue.run acts) in
    Queue.executing s = []
    /\ Queue.requestQueue s = []
    /\ Queue.processing s = false
    /\ map fst (Queue.settled s) = Queue.enqueued acts
    /\ map snd (Queue.settled s)
       = map snd (Queue.settled (Queue.run acts)) ++ oks.
Proof.
  intros acts oks L. cbv zeta.
  pose proof (QueueMore.accounted_fold acts Queue.initial []
                QueueFacts.consistent_initial eq_refl) as A.
  fold (Queue.run acts) in A.
  destruct (QueueMore.drain oks _ _ (QueueFacts.consistent_run acts) A L)
    as ((Hb & Hi & Hj) & E & Q & F & S).
  split; [exact E|]. split; [exact Q|]. split.
  - destruct (Queue.processing _); [|reflexivity].
    destruct (Hb eq_refl) as [j Hx]. congruence.
  - split; [|exact S]. rewrite Q, app_nil_r in Hj. congruence.
Qed.

(** The theorem at work: three jobs enqueued at once, the first already
    failed; the two that are left settle and the queue is empty. *)
Lemma queue_drains_witness :
  let acts := [Queue.Enqueue 1; Queue.Enqueue 2; Queue.Enqueue 3;
               Queue.Settle 1 false] in
  let s := fold_left settle_next [true; false] (Queue.run acts) in
  List.length [true; false]
  = List.length (Queue.executing (Queue.run acts))
    + List.length (Queue.requestQueue (Queue.run acts))
  /\ (Queue.executing s = []
      /\ Queue.requestQueue s = []
      /\ Queue.processing s = false
      /\ map fst (Queue.settled s) = [1; 2; 3]
      /\ map snd (Queue.settled s) = [false; true; false]).
Proof.
  cbv zeta. split; [reflexivity|].
  apply (queue_drains [Queue.Enqueue 1; Queue.Enqueue 2; Queue.Enqueue 3;
                       Queue.Settle 1 false] [true; false]).
  reflexivity.
Defined.

(** ** White space and letter case *)

Lemma inked_append (a b : string) :
  inked (a ++ b) = inked a || inked b.
Proof.
  induction a as [|c a IH]; [reflexivity|].
  cbn [append inked]. now rewrite IH, orb_assoc.
Qed.

Lemma inked_skip_spaces (s : string) : inked (skip_spaces s) = inked s.
Proof.
  induction s as [|c s IH]; [reflexivity|].
  cbn [skip_spaces inked].
  destruct (is_space c) eqn:C; cbn [negb orb inked]; [exact IH|].
  now rewrite C.
Qed.

Lemma truthy_trim_end (s : string) : truthy (trim_end s) = inked s.
Proof.
  induction s as [|c s IH]; [reflexivity|].
  cbn [trim_end inked]. rewrite <- IH.
  destruct (trim_end s); cbn [truthy].
  - rewrite orb_false_r. now destruct (is_space c).
  - now rewrite orb_true_r.
Qed.

(** [s.trim()] is truthy exactly when [s] has a character that is not
    white space. *)
Lemma truthy_trim (s : string) : truthy (trim s) = inked s.
Proof. unfold trim. now rewrite truthy_trim_end, inked_skip_spaces. Qed.

Lemma inked_collapse_spaces (s : string) :
  inked (collapse_spaces s) = inked s.
Proof.
  induction s as [|c s IH]; [reflexivity|].
  cbn [collapse_spaces inked].
  destruct (is_space c) eqn:C; cbn [negb orb].
  - destruct s as [|d s]; [reflexivity|].
    destruct (is_space d) eqn:D; [exact IH|].
    cbn [inked]. change (is_space " ") with true. cbn [negb orb]. exact IH.
  - cbn [inked]. now rewrite C.
Qed.

Lemma lower_char_space (c : ascii) : is_space (lower_char c) = is_space c.
Proof. destruct c as [[] [] [] [] [] [] [] []]; reflexivity. Qed.

Lemma lower_char_twice (c : ascii) : lower_char (lower_char c) = lower_char c.
Proof. destruct c as [[] [] [] [] [] [] [] []]; reflexivity. Qed.

Lemma inked_toLowerCase (s : string) : inked (toLowerCase s) = inked s.
Proof.
  induction s as [|c s IH]; [reflexivity|].
  cbn [toLowerCase inked]. now rewrite lower_char_space, IH.
Qed.

Lemma toLowerCase_twice (s : string) :
  toLowerCase (toLowerCase s) = toLowerCase s.
Proof.
  induction s as [|c s IH]; [reflexivity|].
  cbn [toLowerCase]. now rewrite lower_char_twice, IH.
Qed.

Lemma truthy_toLowerCase (s : string) : truthy (toLowerCase s) = truthy s.
Proof. now destruct s. Qed.

(** The normal form of the echo guard is empty for white space only. *)
Lemma norm_inked (s : string) : truthy (Gemini.norm s) = inked s.
Proof.
  unfold Gemini.norm.
  now rewrite truthy_toLowerCase, truthy_trim, inked_collapse_spaces.
Qed.

Lemma inked_join (sep : string) (parts : list string) :
  inked sep = false -> inked (join sep parts) = existsb inked parts.
Proof.
  intros S. induction parts as [|p parts IH]; [reflexivity|].
  destruct parts as [|q parts].
  - simpl. now rewrite orb_false_r.
  - change (join sep (p :: q :: parts))
      with (p ++ sep ++ join sep (q :: parts))%string.
    rewrite !inked_append, S, IH. reflexivity.
Qed.

Lemma existsb_blank (f : Message -> option string) (msgs : list Message) :
  (forall m, inked (join_item (f m)) = negb (blank m)) ->
  existsb inked (map join_item (map f msgs)) = negb (forallb blank msgs).
Proof.
  intros H. induction msgs as [|m msgs IH]; [reflexivity|].
  simpl. now rewrite H, IH, negb_andb.
Qed.

Lemma pplx_render_blank (m : Message) :
  inked (join_item (PerplexityServer.render m)) = negb (blank m).
Proof.
  unfold PerplexityServer.render, blank.
  destruct (String.eqb (role m) "system") eqn:S; [reflexivity|].
  destruct (String.eqb_spec (role m) "user") as [U|U].
  - rewrite U. simpl. now rewrite negb_involutive.
  - destruct (String.eqb (role m) "assistant"); [reflexivity|].
    simpl. now rewrite negb_involutive.
Qed.

Lemma gem_render_blank (m : Message) :
  inked (join_item (GeminiServer.render m)) = negb (blank m).
Proof.
  unfold GeminiServer.render, blank.
  destruct (String.eqb (role m) "system") eqn:S; [reflexivity|].
  destruct (String.eqb_spec (role m) "user") as [U|U].
  - rewrite U. simpl. now rewrite negb_involutive.
  - destruct (String.eqb (role m) "assistant"); [reflexivity|].
    simpl. now rewrite negb_involutive.
Qed.

(** X13. The check for empty content in the three handlers: a request
    whose [messages] is a non-empty array is refused with 400
    "empty_content" exactly when every message is blank, that is, is
    neither a system nor an assistant message and has a content that is
    missing or all white space. Any system or assistant message lets the
    request through, whatever its content (a missing one is sent as the
    text "undefined"). In the unified server this holds for the requests
    whose model is known. *)
Theorem empty_content_iff_blank :
  forall (m : Message) (msgs : list Message) (model : option string),
    PerplexityServer.validate (Some (m :: msgs)) model
    = (if forallb blank (m :: msgs) then Refused 400 empty_content
       else Accepted (PerplexityServer.build_query (m :: msgs))
                     (js_or_undefined model PerplexityServer.MODEL_NAME))
    /\ GeminiServer.validate (Some (m :: msgs)) model
       = (if forallb blank (m :: msgs) then Refused 400 empty_content
          else Accepted (GeminiServer.build_query (m :: msgs))
                        (js_or_undefined model GeminiServer.MODEL_NAME))
    /\ (forall backend,
           Router.getQueryFn (Some (js_or_undefined model Router.DEFAULT_MODEL))
           = Some backend ->
           Router.validate (Some (m :: msgs)) model
           = (if forallb blank (m :: msgs) then inl (Refused 400 empty_content)
              else inr (PerplexityServer.build_query (m :: msgs),
                        js_or_undefined model Router.DEFAULT_MODEL,
                        backend))).
Proof.
  intros m msgs model.
  assert (S : inked (nl ++ nl) = false) by reflexivity.
  assert (P : truthy (trim (PerplexityServer.build_query (m :: msgs)))
              = negb (forallb blank (m :: msgs))).
  { unfold PerplexityServer.build_query.
    rewrite truthy_trim, (inked_join _ _ S).
    apply existsb_blank, pplx_render_blank. }
  assert (G : truthy (trim (GeminiServer.build_query (m :: msgs)))
              = negb (forallb blank (m :: msgs))).
  { unfold GeminiServer.build_query.
    rewrite truthy_trim, (inked_join _ _ S).
    apply existsb_blank, gem_render_blank. }
  split; [|split].
  - unfold PerplexityServer.validate. rewrite P.
    now destruct (forallb blank (m :: msgs)).
  - unfold GeminiServer.validate. rewrite G.
    now destruct (forallb blank (m :: msgs)).
  - intros backend Hb. unfold Router.validate. rewrite Hb, P.
    now destruct (forallb blank (m :: msgs)).
Qed.

(** The theorem at work in the unified server, on a request for the
    model "Gemini" made of one system message without content. *)
Lemma empty_content_iff_blank_witness :
  Router.getQueryFn (Some (js_or_undefined (Some "Gemini") Router.DEFAULT_MODEL))
  = Some Router.ToGemini
  /\ Router.validate (Some [ {| role := "system"; content := None |} ])
                  (Some "Gemini")
     = inr ("[System: undefined]", "Gemini", Router.ToGemini).
Proof.
  split; [reflexivity|].
  apply (proj2 (proj2 (empty_content_iff_blank
                         {| role := "system"; content := None |} []
                         (Some "Gemini")))
           Router.ToGemini).
  reflexivity.
Defined.

(** X14. The echo guard and the handler of gemini-server.js. A query
    that is not empty but is all white space would make the echo guard
    discard every text: its normal form is empty, and every text starts
    with the empty text. The handler lets no such query through: a
    query it accepts has a character that is not white space, and its
    normal form is not empty. *)
Theorem blank_query_never_reaches_guard :
  (forall query answerText,
      query <> "" -> inked query = false ->
      Gemini.echo_guard query answerText = "")
  /\ (forall messages model query requestModel,
         GeminiServer.validate messages model = Accepted query requestModel ->
         inked query = true /\ Gemini.norm query <> "").
Proof.
  split.
  - intros query answerText Q B. unfold Gemini.echo_guard.
    apply truthy_true in Q. rewrite Q. cbn [andb].
    destruct (truthy answerText) eqn:A; [|now apply truthy_false].
    assert (N : Gemini.norm query = "").
    { apply truthy_false. now rewrite norm_inked. }
    assert (P0 : forall x, startsWith x "" = true)
      by (intros x; unfold startsWith; now destruct x).
    rewrite N. change (slice_to 120 "") with "". rewrite P0.
    now rewrite orb_true_r.
  - intros messages model query requestModel.
    unfold GeminiServer.validate.
    destruct messages as [[|m msgs]|]; try discriminate.
    destruct (truthy (trim (GeminiServer.build_query (m :: msgs)))) eqn:T;
      cbn [negb]; [|discriminate].
    intros [= <- _]. rewrite truthy_trim in T. split; [exact T|].
    apply truthy_true. now rewrite norm_inked.
Qed.

(** The theorem at work on a query of two spaces, and on the query made
    of one user message. *)
Lemma blank_query_never_reaches_guard_witness :
  Gemini.echo_guard "  " "Paris is the capital of France." = ""
  /\ (inked "capital?" = true /\ Gemini.norm "capital?" <> "").
Proof.
  split.
  - apply (proj1 blank_query_never_reaches_guard).
    + discriminate.
    + reflexivity.
  - apply (proj2 blank_query_never_reaches_guard
             (Some [ {| role := "user"; content := Some "capital?" |} ])
             None "capital?" "gemini").
    reflexivity.
Defined.

Lemma includes_empty (sub : string) :
  sub <> "" -> includes "" sub = false.
Proof. destruct sub; [congruence | reflexivity]. Qed.

(** X15. The model router of the unified server. A missing or empty
    model name is routed to Perplexity, the default. The letter case of
    a name does not count. A name that is not empty but is all white
    space is not replaced by the default and is known to no backend: the
    request is refused as "model_not_found", before its messages are
    looked at. *)
Theorem router_names :
  Router.getQueryFn None = Some Router.ToPerplexity
  /\ Router.getQueryFn (Some "") = Some Router.ToPerplexity
  /\ (forall name,
         Router.getQueryFn (Some (toLowerCase name))
         = Router.getQueryFn (Some name))
  /\ (forall name,
         name <> "" -> inked name = false ->
         Router.getQueryFn (Some name) = None
         /\ forall m msgs,
              Router.validate (Some (m :: msgs)) (Some name)
              = inl (Refused 400 (Router.model_not_found name))).
Proof.
  split; [reflexivity|]. split; [reflexivity|]. split.
  - intros name. unfold Router.getQueryFn, js_or_undefined, js_or.
    rewrite truthy_toLowerCase.
    destruct (truthy name); [|reflexivity].
    now rewrite toLowerCase_twice.
  - intros name N B.
    assert (R : Router.getQueryFn (Some name) = None).
    { unfold Router.getQueryFn, js_or_undefined, js_or.
      apply truthy_true in N. rewrite N.
      assert (E : trim (toLowerCase name) = "").
      { apply truthy_false. now rewrite truthy_trim, inked_toLowerCase. }
      rewrite E. reflexivity. }
    split; [exact R|]. intros m msgs. unfold Router.validate.
    assert (J : js_or_undefined (Some name) Router.DEFAULT_MODEL = name).
    { unfold js_or_undefined, js_or. apply truthy_true in N. now rewrite N. }
    now rewrite J, R.
Qed.

(** The theorem at work on the name made of one space. *)
Lemma router_names_witness :
  Router.getQueryFn (Some " ") = None
  /\ Router.validate (Some [ {| role := "user"; content := Some "capital?" |} ])
                  (Some " ")
     = inl (Refused 400 (Router.model_not_found " ")).
Proof.
  destruct (proj2 (proj2 (proj2 router_names)) " ") as [R A].
  - discriminate.
  - reflexivity.
  - split; [exact R | apply A].
Defined.

(** ** The replies of the handlers *)

Lemma received_deltas (f : string -> Frame) (ds : list string)
  (tail : list Frame) :
  (forall d, frame_text (f d) = d) ->
  received (map f ds ++ tail)
  = (fold_right String.append EmptyString ds ++ received tail)%string.
Proof.
  intros H. unfold received.
  induction ds as [|d ds IH]; simpl; [reflexivity|].
  now rewrite H, IH, append_assoc.
Qed.

(** What the client of a stream reads is what [onChunk] was given. *)
Lemma pplx_received m t c :
  received (PerplexityServer.stream_frames m t c) = streamed t.
Proof.
  unfold PerplexityServer.stream_frames.
  change (received (?x :: ?l)) with (frame_text x ++ received l)%string.
  cbn [frame_text delta_content join_item append].
  rewrite received_deltas by reflexivity.
  destruct c; unfold streamed; simpl; now rewrite append_empty_r.
Qed.

Lemma gem_received m t c :
  received (GeminiServer.stream_frames m t c) = streamed t.
Proof.
  unfold GeminiServer.stream_frames.
  change (received (?x :: ?l)) with (frame_text x ++ received l)%string.
  cbn [frame_text delta_content join_item append].
  rewrite received_deltas by reflexivity.
  destruct c; unfold streamed; simpl; now rewrite append_empty_r.
Qed.

(** The deltas of a streaming query that resolves, when every text let
    in extends the one before, make up the answer. *)
Lemma pplx_query_streamed q w t r :
  Perplexity.extends "" (Perplexity.polls w) ->
  Perplexity.queryPerplexity q true w = (t, Finished (Returned r)) ->
  streamed t = Perplexity.answer r.
Proof.
  intros HE H.
  destruct (pplx_query_resolved _ _ _ _ _ H) as (evs & tl & L & -> & S).
  pose proof (pplx_stream _ loop_start _ _ eq_refl HE L) as P. simpl in P.
  change (EvGoto :: EvSubmit :: evs ++ tl)
    with ([EvGoto; EvSubmit] ++ evs ++ tl).
  rewrite !streamed_app, S, P.
  change (streamed [EvGoto; EvSubmit]) with "".
  change (streamed [EvPageClose; EvContextClose]) with "".
  simpl. apply append_empty_r.
Qed.

Lemma gem_query_streamed q w t r :
  Gemini.extends "" (Gemini.polls w) ->
  Gemini.queryGemini q true w = (t, Finished (Returned r)) ->
  streamed t = Gemini.answer r.
Proof.
  intros HE H.
  destruct (gem_query_resolved _ _ _ _ _ H) as (evs & tl & L & -> & S).
  pose proof (gem_stream _ loop_start _ _ eq_refl HE L) as P. simpl in P.
  change (EvGoto :: EvSubmit :: evs ++ tl)
    with ([EvGoto; EvSubmit] ++ evs ++ tl).
  rewrite !streamed_app, S, P.
  change (streamed [EvGoto; EvSubmit]) with "".
  change (streamed [EvPageClose]) with "".
  simpl. apply append_empty_r.
Qed.

(** The model name of a request that is accepted is never empty. *)
Lemma js_or_undefined_truthy x d : d <> "" -> truthy (js_or_undefined x d) = true.
Proof.
  intros D. unfold js_or_undefined, js_or.
  destruct x as [a|]; [destruct (truthy a) eqn:A; [exact A|]|];
    now apply truthy_true.
Qed.

Lemma pplx_accepted_model messages model q m :
  PerplexityServer.validate messages model = Accepted q m ->
  js_or m PerplexityServer.MODEL_NAME = m.
Proof.
  unfold PerplexityServer.validate.
  destruct messages as [[|x msgs]|]; try discriminate.
  destruct (negb _); [discriminate|]. intros [= _ <-].
  unfold js_or at 1. now rewrite js_or_undefined_truthy.
Qed.

Lemma gem_accepted_model messages model q m :
  GeminiServer.validate messages model = Accepted q m ->
  js_or m GeminiServer.MODEL_NAME = m.
Proof.
  unfold GeminiServer.validate.
  destruct messages as [[|x msgs]|]; try discriminate.
  destruct (negb _); [discriminate|]. intros [= _ <-].
  unfold js_or at 1. now rewrite js_or_undefined_truthy.
Qed.

Lemma prefix_append (a b : string) : String.prefix a (a ++ b) = true.
Proof.
  induction a as [|c a IH]; simpl; [now destruct b|].
  destruct (Ascii.ascii_dec c c); [exact IH | congruence].
Qed.

Lemma prefix_refl (a : string) : String.prefix a a = true.
Proof.
  induction a as [|c a IH]; simpl; [reflexivity|].
  destruct (Ascii.ascii_dec c c); [exact IH | congruence].
Qed.

(** X16. A streaming request that is accepted and whose query fails,
    in server.js and in gemini-server.js: the message of the error does
    not reach the client. The chunk built for it carries a finish
    reason, so its delta is empty, and the frames written are those of a
    query that resolved after the same deltas: the role chunk, one chunk
    per delta, a chunk with finish reason "stop" and the [DONE] line. The
    same failure without streaming is answered 500 with the message. *)
Theorem stream_hides_errors :
  (forall messages model w query requestModel t e,
      PerplexityServer.validate messages model = Accepted query requestModel ->
      Perplexity.queryPerplexity query true w = (t, Finished (Thrown e)) ->
      PerplexityServer.chat_completions messages model true w
      = Some (EventStream
                (Chunk requestModel
                       {| delta_role := Some "assistant";
                          delta_content := Some "" |} None
                 :: map (fun d => Chunk requestModel
                                    {| delta_role := None;
                                       delta_content := Some d |} None)
                        (chunks t)
                 ++ [Chunk requestModel
                           {| delta_role := None; delta_content := None |}
                           (Some "stop");
                     Done]))
      /\ (forall r,
             PerplexityServer.stream_frames requestModel t (Thrown e)
             = PerplexityServer.stream_frames requestModel t (Returned r))
      /\ PerplexityServer.chat_completions messages model false w
         = Some (JsonError 500 (server_error e)))
  /\ (forall messages model w query requestModel t e,
         GeminiServer.validate messages model = Accepted query requestModel ->
         Gemini.queryGemini query true w = (t, Finished (Thrown e)) ->
         GeminiServer.chat_completions messages model true w
         = Some (EventStream
                   (Chunk requestModel
                          {| delta_role := Some "assistant";
                             delta_content := Some "" |} None
                    :: map (fun d => Chunk requestModel
                                       {| delta_role := None;
                                          delta_content := Some d |} None)
                           (chunks t)
                    ++ [Chunk requestModel
                              {| delta_role := None; delta_content := None |}
                              (Some "stop");
                        Done]))
         /\ (forall r,
                GeminiServer.stream_frames requestModel t (Thrown e)
                = GeminiServer.stream_frames requestModel t (Returned r))
         /\ GeminiServer.chat_completions messages model false w
            = Some (JsonError 500 (server_error e))).
Proof.
  split; intros messages model w query requestModel t e A Q.
  - pose proof (pplx_accepted_model _ _ _ _ A) as M.
    split; [|split].
    + unfold PerplexityServer.chat_completions. rewrite A, Q.
      unfold PerplexityServer.stream_frames, PerplexityServer.buildStreamChunk.
      rewrite M. reflexivity.
    + reflexivity.
    + unfold PerplexityServer.chat_completions. rewrite A.
      destruct (pplx_query_sink query w) as [S _]. rewrite Q in S.
      destruct (Perplexity.queryPerplexity query false w) as [t' [s'|c']];
        cbn [snd same_outcome] in S; [contradiction|]. now subst c'.
  - pose proof (gem_accepted_model _ _ _ _ A) as M.
    split; [|split].
    + unfold GeminiServer.chat_completions. rewrite A, Q.
      unfold GeminiServer.stream_frames, GeminiServer.buildStreamChunk.
      rewrite M. reflexivity.
    + reflexivity.
    + unfold GeminiServer.chat_completions. rewrite A.
      destruct (gem_query_sink query w) as [S _]. rewrite Q in S.
      destruct (Gemini.queryGemini query false w) as [t' [s'|c']];
        cbn [snd same_outcome] in S; [contradiction|]. now subst c'.
Qed.

(** The theorem at work on a page without input field, in server.js,
    and on an extraction that throws after a first delta, in
    gemini-server.js. *)
Lemma stream_hides_errors_witness :
  let ask := Some [ {| role := "user"; content := Some "capital?" |} ] in
  let wp := Perplexity.world_of unusable_page [] in
  let wg := {| Gemini.createPage := Returned tt; Gemini.goto := Returned tt;
               Gemini.dismiss := Returned tt; Gemini.surface := usable_page;
               Gemini.debug_dump := Returned tt;
               Gemini.polls :=
                 [Gemini.sample 800 "Paris is the capital." true false;
                  {| Gemini.elapsed := 1800;
                     Gemini.extraction := Thrown "Target closed" |}] |} in
  (PerplexityServer.chat_completions ask None true wp
   = Some (EventStream
             [Chunk "perplexity"
                    {| delta_role := Some "assistant";
                       delta_content := Some "" |} None;
              Chunk "perplexity"
                    {| delta_role := None; delta_content := None |}
                    (Some "stop");
              Done])
   /\ PerplexityServer.chat_completions ask None false wp
      = Some (JsonError 500
                (server_error "Could not find input field on Perplexity page")))
  /\ (GeminiServer.chat_completions ask None true wg
      = Some (EventStream
                [Chunk "gemini"
                       {| delta_role := Some "assistant";
                          delta_content := Some "" |} None;
                 Chunk "gemini"
                       {| delta_role := None;
                          delta_content := Some "Paris is the capital." |}
                       None;
                 Chunk "gemini"
                       {| delta_role := None; delta_content := None |}
                       (Some "stop");
                 Done])
      /\ GeminiServer.chat_completions ask None false wg
         = Some (JsonError 500 (server_error "Target closed"))).
Proof.
  cbv zeta. split.
  - destruct (proj1 stream_hides_errors
                (Some [ {| role := "user"; content := Some "capital?" |} ])
                None (Perplexity.world_of unusable_page [])
                "capital?" "perplexity"
                [EvGoto; EvSubmit; EvPageClose; EvContextClose]
                "Could not find input field on Perplexity page"
                eq_refl eq_refl) as (H1 & _ & H3).
    split; [exact H1 | exact H3].
  - destruct (proj2 stream_hides_errors
                (Some [ {| role := "user"; content := Some "capital?" |} ])
                None
                {| Gemini.createPage := Returned tt; Gemini.goto := Returned tt;
                   Gemini.dismiss := Returned tt; Gemini.surface := usable_page;
                   Gemini.debug_dump := Returned tt;
                   Gemini.polls :=
                     [Gemini.sample 800 "Paris is the capital." true false;
                      {| Gemini.elapsed := 1800;
                         Gemini.extraction := Thrown "Target closed" |}] |}
                "capital?" "gemini"
                [EvGoto; EvSubmit; EvInsertText "capital?"; EvExtract;
                 EvChunk "Paris is the capital."; EvExtract; EvPageClose]
                "Target closed"
                eq_refl eq_refl) as (H1 & _ & H3).
    split; [exact H1 | exact H3].
Defined.

(** X17. A streaming request that is accepted and whose query
    resolves, when every text the loop lets in extends the one before:
    the texts of the frames the client receives, put end to end, are the
    answer, neither more nor less. The sources of queryPerplexity are not
    part of the stream. *)
Theorem stream_delivers_answer :
  (forall messages model w query requestModel t r,
      PerplexityServer.validate messages model = Accepted query requestModel ->
      Perplexity.extends "" (Perplexity.polls w) ->
      Perplexity.queryPerplexity query true w = (t, Finished (Returned r)) ->
      exists frames,
        PerplexityServer.chat_completions messages model true w
        = Some (EventStream frames)
        /\ received frames = Perplexity.answer r)
  /\ (forall messages model w query requestModel t r,
         GeminiServer.validate messages model = Accepted query requestModel ->
         Gemini.extends "" (Gemini.polls w) ->
         Gemini.queryGemini query true w = (t, Finished (Returned r)) ->
         exists frames,
           GeminiServer.chat_completions messages model true w
           = Some (EventStream frames)
           /\ received frames = Gemini.answer r).
Proof.
  split; intros messages model w query requestModel t r A E Q.
  - exists (PerplexityServer.stream_frames requestModel t (Returned r)).
    split.
    + unfold PerplexityServer.chat_completions. now rewrite A, Q.
    + rewrite pplx_received. exact (pplx_query_streamed _ _ _ _ E Q).
  - exists (GeminiServer.stream_frames requestModel t (Returned r)).
    split.
    + unfold GeminiServer.chat_completions. now rewrite A, Q.
    + rewrite gem_received. exact (gem_query_streamed _ _ _ _ E Q).
Qed.

(** The theorem at work on a text that grows from "Par" to "Paris" and
    comes with a source. *)
Lemma stream_delivers_answer_witness :
  let ask := Some [ {| role := "user"; content := Some "capital?" |} ] in
  let src := {| title := "Paris"; url := "https://example.org/paris" |} in
  let read := fun ms text loading =>
    {| Perplexity.elapsed := ms;
       Perplexity.extraction :=
         Returned {| Perplexity.answerText := text;
                     Perplexity.sources := [src];
                     Perplexity.isLoading := loading |} |} in
  let wp := Perplexity.world_of usable_page
              [read 5000%Z "Par" true; read 6000%Z "Paris" true;
               read 7000%Z "Paris" false; read 8000%Z "Paris" false;
               read 9000%Z "Paris" false] in
  exists frames,
    PerplexityServer.chat_completions ask None true wp
    = Some (EventStream frames)
    /\ received frames = "Paris".
Proof.
  cbv zeta.
  match goal with
  | |- context [PerplexityServer.chat_completions _ _ _ ?w] =>
      apply (proj1 stream_delivers_answer
               (Some [ {| role := "user"; content := Some "capital?" |} ])
               None w "capital?" "perplexity"
               (fst (Perplexity.queryPerplexity "capital?" true w))
               {| Perplexity.answer := "Paris";
                  Perplexity.result_sources :=
                    [ {| title := "Paris";
                         url := "https://example.org/paris" |} ] |})
  end.
  - reflexivity.
  - simpl. repeat split.
  - reflexivity.
Defined.

(** X18. A request without streaming that is accepted and whose query
    has finished is answered 200 when the query resolved and 500 with
    the message of the error when it failed. The 200 body names the
    model asked for (the default when none was), and its content is not
    empty: in server.js it starts with the answer, and is the answer
    alone when the query gave no source; in gemini-server.js it is the
    answer, of more than 10 code units. *)
Theorem batch_reply :
  (forall messages model w query requestModel t c,
      PerplexityServer.validate messages model = Accepted query requestModel ->
      Perplexity.queryPerplexity query false w = (t, Finished c) ->
      match c with
      | Thrown e =>
          PerplexityServer.chat_completions messages model false w
          = Some (JsonError 500 (server_error e))
      | Returned r =>
          exists body,
            PerplexityServer.chat_completions messages model false w
            = Some (JsonCompletion body)
            /\ completion_model body = requestModel
            /\ String.prefix (Perplexity.answer r) (message_content body) = true
            /\ (Perplexity.result_sources r = [] ->
                message_content body = Perplexity.answer r)
            /\ message_content body <> ""
      end)
  /\ (forall messages model w query requestModel t c,
         GeminiServer.validate messages model = Accepted query requestModel ->
         Gemini.queryGemini query false w = (t, Finished c) ->
         match c with
         | Thrown e =>
             GeminiServer.chat_completions messages model false w
             = Some (JsonError 500 (server_error e))
         | Returned r =>
             exists body,
               GeminiServer.chat_completions messages model false w
               = Some (JsonCompletion body)
               /\ completion_model body = requestModel
               /\ message_content body = Gemini.answer r
               /\ 10 < String.length (message_content body)
         end).
Proof.
  split; intros messages model w query requestModel t c A Q.
  - destruct c as [r|e].
    + exists (PerplexityServer.buildCompletionResponse
                (Perplexity.answer r) requestModel
                (Perplexity.result_sources r)).
      split; [unfold PerplexityServer.chat_completions; now rewrite A, Q|].
      split; [exact (pplx_accepted_model _ _ _ _ A)|].
      pose proof (pplx_query_answer _ _ _ _ _ Q) as N.
      unfold PerplexityServer.buildCompletionResponse;
        cbn [message_content].
      destruct (Perplexity.result_sources r) as [|s l];
        cbn [List.length Nat.ltb Nat.leb].
      * split; [apply prefix_refl|]. split; [reflexivity | exact N].
      * split; [apply prefix_append|]. split; [discriminate|].
        destruct (Perplexity.answer r); [congruence | discriminate].
    + unfold PerplexityServer.chat_completions. now rewrite A, Q.
  - destruct c as [r|e].
    + exists (GeminiServer.buildCompletionResponse
                (Gemini.answer r) requestModel).
      split; [unfold GeminiServer.chat_completions; now rewrite A, Q|].
      split; [exact (gem_accepted_model _ _ _ _ A)|].
      split; [reflexivity|].
      exact (gem_query_answer _ _ _ _ _ Q).
    + unfold GeminiServer.chat_completions. now rewrite A, Q.
Qed.

(** The theorem at work on an answer that comes with a source. *)
Lemma batch_reply_witness :
  let ask := Some [ {| role := "user"; content := Some "capital?" |} ] in
  let src := {| title := "Paris"; url := "https://example.org/paris" |} in
  let read := fun ms text loading =>
    {| Perplexity.elapsed := ms;
       Perplexity.extraction :=
         Returned {| Perplexity.answerText := text;
                     Perplexity.sources := [src];
                     Perplexity.isLoading := loading |} |} in
  let wp := Perplexity.world_of usable_page
              [read 5000%Z "Paris" false; read 6000%Z "Paris" false;
               read 7000%Z "Paris" false; read 8000%Z "Paris" false] in
  exists body,
    PerplexityServer.chat_completions ask None false wp
    = Some (JsonCompletion body)
    /\ completion_model body = "perplexity"
    /\ String.prefix "Paris" (message_content body) = true
    /\ (Perplexity.result_sources
          {| Perplexity.answer := "Paris"; Perplexity.result_sources := [src] |}
        = [] -> message_content body = "Paris")
    /\ message_content body <> "".
Proof.
  cbv zeta.
  match goal with
  | |- context [PerplexityServer.chat_completions _ _ _ ?w] =>
      exact (proj1 batch_reply
               (Some [ {| role := "user"; content := Some "capital?" |} ])
               None w "capital?" "perplexity"
               (fst (Perplexity.queryPerplexity "capital?" false w))
               (Returned
                  {| Perplexity.answer := "Paris";
                     Perplexity.result_sources :=
                       [ {| title := "Paris";
                            url := "https://example.org/paris" |} ] |})
               eq_refl eq_refl)
  end.
Defined.

(** ** The command-line client *)





(** X20. [askPerplexity] has no [finally]. It calls [browser.close()]
    at most once, as its last step, and every run that returns (the
    result, or null when the query could not be submitted) has closed
    the browser. A run that fails in any step before, be it the
    navigation, the saving of the cookies, the extraction or a dump of
    the page, leaves the browser it launched open: unless the failure is
    that of [browser.close()] itself, a run that rejects has not called
    it. *)
Theorem cli_browser_released :
  forall (query : string) (w : Cli.World) steps out,
    Cli.askPerplexity query w = (steps, out) ->
    List.length (filter Cli.is_close steps) <= 1
    /\ (forall r, out = Finished (Returned r) ->
                  exists pre, steps = pre ++ [Cli.Close]
                              /\ filter Cli.is_close pre = [])
    /\ (forall e, out = Finished (Thrown e) ->
                  (exists u, Cli.close w = Returned u) ->
                  filter Cli.is_close steps = []).
Proof.
  intros query w steps out. unfold Cli.askPerplexity.
  destruct (Cli.launch w);
    [|intros [= <- <-]; simpl; split; [lia | split; [discriminate|auto]]].
  destruct (Cli.goto w);
    [|intros [= <- <-]; simpl; split; [lia | split; [discriminate|auto]]].
  destruct (Cli.save_cookies w);
    [|intros [= <- <-]; simpl; split; [lia | split; [discriminate|auto]]].
  destruct (snd (Cli.submitQuery (Cli.surface w) query)).
  - destruct (Cli.waitForAnswer (Cli.DEBUG_HTML w) 120000 (Cli.polls w)
                                "" 0 false) as [st|[r|e]].
    + intros [= <- <-]. simpl.
      split; [lia | split; discriminate].
    + cbv zeta. destruct (Cli.DEBUG_HTML w).
      * destruct (Cli.final_dump w); [destruct (Cli.save_again w)|];
          intros [= <- <-]; simpl.
        -- split; [lia|]. split.
           ++ intros r' _.
              exists [Cli.Launch; Cli.Goto; Cli.SaveCookies; Cli.Submit;
                      Cli.Wait; Cli.DebugDump; Cli.SaveCookies].
              now split.
           ++ intros e' H [u' Hu]. rewrite Hu in H. discriminate.
        -- split; [lia | split; [discriminate|auto]].
        -- split; [lia | split; [discriminate|auto]].
      * destruct (Cli.save_again w); intros [= <- <-]; simpl.
        -- split; [lia|]. split.
           ++ intros r' _.
              exists [Cli.Launch; Cli.Goto; Cli.SaveCookies; Cli.Submit;
                      Cli.Wait; Cli.SaveCookies].
              now split.
           ++ intros e' H [u' Hu]. rewrite Hu in H. discriminate.
        -- split; [lia | split; [discriminate|auto]].
    + intros [= <- <-]. simpl.
      split; [lia | split; [discriminate|auto]].
  - intros [= <- <-]. simpl. split; [lia|]. split.
    + intros r' _.
      exists [Cli.Launch; Cli.Goto; Cli.SaveCookies; Cli.Submit]. now split.
    + intros e' H [u' Hu]. rewrite Hu in H. discriminate.
Qed.

(** The theorem at work on a run whose extraction throws at the second
    reading: the run rejects and the browser is left open. *)
Lemma cli_browser_released_witness :
  let w := {| Cli.DEBUG_HTML := false;
              Cli.launch := Returned tt; Cli.goto := Returned tt;
              Cli.save_cookies := Returned tt; Cli.surface := usable_page;
              Cli.polls :=
                [ {| Cli.reading := Perplexity.sample 5000 "Paris" true;
                     Cli.debug_elapsed := 5000;
                     Cli.debug_dump := Returned tt |};
                  {| Cli.reading :=
                       {| Perplexity.elapsed := 6000;
                          Perplexity.extraction := Thrown "Target closed" |};
                     Cli.debug_elapsed := 6000;
                     Cli.debug_dump := Returned tt |} ];
              Cli.final_dump := Returned tt;
              Cli.save_again := Returned tt; Cli.close := Returned tt |} in
  snd (Cli.askPerplexity "capital?" w) = Finished (Thrown "Target closed")
  /\ filter Cli.is_close (fst (Cli.askPerplexity "capital?" w)) = [].
Proof.
  cbv zeta. split; [reflexivity|].
  match goal with
  | |- context [Cli.askPerplexity _ ?w] =>
      apply (proj2 (proj2 (cli_browser_released "capital?" w
                             (fst (Cli.askPerplexity "capital?" w))
                             (snd (Cli.askPerplexity "capital?" w))
                             eq_refl))
               "Target closed")
  end.
  - reflexivity.
  - now exists tt.
Defined.

(** ** The unified server *)

Lemma unified_perplexity_loop oc polls : forall st,
  fst (Unified.perplexity_loop oc polls st)
  = fst (Perplexity.poll_loop oc polls st)
  /\ same_but_wording (snd (Perplexity.poll_loop oc polls st))
                      (snd (Unified.perplexity_loop oc polls st)).
Proof.
  induction polls as [|p polls IH]; intros st; simpl.
  - auto.
  - change Unified.MAX_TIMEOUT with Perplexity.MAX_TIMEOUT.
    destruct (Perplexity.elapsed p <? Perplexity.MAX_TIMEOUT)%Z.
    + destruct (Perplexity.extraction p) as [ext|e]; [|simpl; auto].
      destruct (Perplexity.loop_body oc ext st) as [evs [st'|r]].
      * destruct (IH st') as [I1 I2]. unfold after; simpl.
        now rewrite I1.
      * simpl. auto.
    + simpl. unfold Perplexity.after_loop, Unified.perplexity_after_loop.
      destruct (truthy (lastText st)); simpl; auto.
Qed.

Lemma unified_perplexity_late oc pre p post st :
  lastText st = "" ->
  Forall (Perplexity.reads "") pre ->
  (120000 <= Perplexity.elapsed p)%Z ->
  snd (Unified.perplexity_loop oc (pre ++ p :: post) st)
  = Finished (Thrown "Timeout: no answer from Perplexity").
Proof.
  intros HT HF HL. apply Z.ltb_ge in HL.
  induction HF as [|q pre [Hin (ext & Hext & Htxt)] _ IH].
  - simpl. change Unified.MAX_TIMEOUT with 120000%Z. rewrite HL. simpl.
    unfold Unified.perplexity_after_loop. now rewrite HT.
  - change ((q :: pre) ++ p :: post) with (q :: pre ++ p :: post).
    cbn [Unified.perplexity_loop].
    change Perplexity.MAX_TIMEOUT with Unified.MAX_TIMEOUT in Hin.
    apply Z.ltb_lt in Hin. rewrite Hin, Hext.
    rewrite (pplx_body_empty oc ext st Htxt). unfold after; cbn [snd].
    exact IH.
Qed.

(** X21. The [queryPerplexity] of the unified server and that of
    server.js, on the same behaviour of the browser, make the same calls
    and emit the same deltas in the same order, and end the same way:
    the same answer with the same sources, the same exception, or still
    polling with the same loop variables. The one difference is the
    message of the error thrown at the deadline when no text was
    retained: "Timeout: no answer from Perplexity" in the unified server
    for "Timeout: no answer received from Perplexity". *)
Theorem unified_perplexity_agrees :
  forall (query : string) (onChunk : bool) (w : Perplexity.World),
    fst (Unified.queryPerplexity query onChunk w)
    = fst (Perplexity.queryPerplexity query onChunk w)
    /\ same_but_wording (snd (Perplexity.queryPerplexity query onChunk w))
                        (snd (Unified.queryPerplexity query onChunk w))
    /\ (forall pre p post,
           Perplexity.createPage w = Returned tt ->
           Perplexity.goto w = Returned tt ->
           snd (Perplexity.submitQuery (Perplexity.surface w) query)
           = Returned true ->
           Perplexity.polls w = pre ++ p :: post ->
           Forall (Perplexity.reads "") pre ->
           (120000 <= Perplexity.elapsed p)%Z ->
           snd (Unified.queryPerplexity query onChunk w)
           = Finished (Thrown "Timeout: no answer from Perplexity")).
Proof.
  intros query onChunk w.
  assert (A : fst (Unified.queryPerplexity query onChunk w)
              = fst (Perplexity.queryPerplexity query onChunk w)
              /\ same_but_wording
                   (snd (Perplexity.queryPerplexity query onChunk w))
                   (snd (Unified.queryPerplexity query onChunk w))).
  { unfold Unified.queryPerplexity, Perplexity.queryPerplexity,
      Perplexity.try_block.
    destruct (Perplexity.createPage w); [|simpl; auto].
    destruct (Perplexity.goto w); [|simpl; auto].
    destruct (Perplexity.submitQuery (Perplexity.surface w) query)
      as [evs [[|]|e]]; try (simpl; auto).
    destruct (unified_perplexity_loop onChunk (Perplexity.polls w) loop_start)
      as [I1 I2].
    unfold after.
    destruct (Unified.perplexity_loop onChunk (Perplexity.polls w) loop_start)
      as [t1 o1];
      destruct (Perplexity.poll_loop onChunk (Perplexity.polls w) loop_start)
        as [t2 o2]; cbn [fst snd] in *. subst t2.
    destruct o1 as [s1|[r1|e1]]; destruct o2 as [s2|[r2|e2]];
      simpl in I2; try contradiction; simpl; auto. }
  destruct A as [A1 A2]. split; [exact A1|]. split; [exact A2|].
  intros pre p post HC HG HS HP HF HL.
  unfold Unified.queryPerplexity. rewrite HC, HG.
  destruct (Perplexity.submitQuery (Perplexity.surface w) query)
    as [evs c]. cbn [snd] in HS. subst c. rewrite HP.
  pose proof (unified_perplexity_late onChunk pre p post loop_start
                eq_refl HF HL) as W.
  unfold after.
  destruct (Unified.perplexity_loop onChunk (pre ++ p :: post) loop_start)
    as [t1 o1]; cbn [snd] in *. now subst o1.
Qed.

(** The theorem at work on a page that shows nothing up to the
    deadline. *)
Lemma unified_perplexity_agrees_witness :
  let w := Perplexity.world_of usable_page
             [Perplexity.sample 5000 "" true;
              Perplexity.sample 120000 "" false] in
  snd (Perplexity.queryPerplexity "capital?" false w)
  = Finished (Thrown "Timeout: no answer received from Perplexity")
  /\ snd (Unified.queryPerplexity "capital?" false w)
     = Finished (Thrown "Timeout: no answer from Perplexity").
Proof.
  cbv zeta. split; [reflexivity|].
  apply (proj2 (proj2 (unified_perplexity_agrees "capital?" false
                         (Perplexity.world_of usable_page
                            [Perplexity.sample 5000 "" true;
                             Perplexity.sample 120000 "" false])))
           [Perplexity.sample 5000 "" true]
           (Perplexity.sample 120000 "" false) []).
  - reflexivity.
  - reflexivity.
  - reflexivity.
  - reflexivity.
  - repeat constructor; simpl; eauto.
  - simpl. lia.
Defined.

(** The loop of the unified [queryGemini] retains texts of more than 10
    code units only, and returns such a text with no source. *)
Lemma unified_gemini_body_retains oc ext st evs x :
  lastText st = "" \/ 10 < String.length (lastText st) ->
  Unified.gemini_body oc ext st = (evs, x) ->
  match x with
  | inl st' => lastText st' = "" \/ 10 < String.length (lastText st')
  | inr r => 10 < String.length (Perplexity.answer r)
             /\ Perplexity.result_sources r = []
  end.
Proof.
  intros H. unfold Unified.gemini_body.
  destruct (truthy (Unified.answerText ext)); cbn [andb];
    [|now intros [= _ <-]].
  destruct (Nat.ltb_spec 10 (String.length (Unified.answerText ext)))
    as [L|L]; [|now intros [= _ <-]].
  destruct (String.eqb _ _); [destruct (_ || _)|]; intros [= _ <-]; simpl;
    auto.
Qed.

Lemma unified_gemini_loop_answer oc polls : forall st t r,
  lastText st = "" \/ 10 < String.length (lastText st) ->
  Unified.gemini_loop oc polls st = (t, Finished (Returned r)) ->
  10 < String.length (Perplexity.answer r)
  /\ Perplexity.result_sources r = [].
Proof.
  induction polls as [|p polls IH]; intros st t r H L; simpl in L;
    [discriminate|].
  destruct (Unified.elapsed p <? Unified.MAX_TIMEOUT)%Z.
  - destruct (Unified.extraction p) as [ext|e]; [|discriminate].
    pose proof (unified_gemini_body_retains oc ext st) as B.
    destruct (Unified.gemini_body oc ext st) as [evs [st1|r1]].
    + unfold after in L.
      destruct (Unified.gemini_loop oc polls st1) as [t1 o1] eqn:L1.
      simpl in L. injection L as _ ->.
      exact (IH _ _ _ (B _ _ H eq_refl) L1).
    + injection L as _ <-. exact (B _ _ H eq_refl).
  - unfold Unified.gemini_after_loop in L.
    destruct (truthy (lastText st)) eqn:T; [|discriminate].
    injection L as _ <-. simpl. split; [|reflexivity].
    destruct H as [H|H]; [rewrite H in T; discriminate | exact H].
Qed.

Lemma unified_gemini_loop_no_close oc polls : forall st,
  Forall (fun e => is_page_close e = false /\ is_context_close e = false)
         (fst (Unified.gemini_loop oc polls st)).
Proof.
  induction polls as [|p polls IH]; intros st; simpl.
  - constructor.
  - destruct (Unified.elapsed p <? Unified.MAX_TIMEOUT)%Z; [|constructor].
    destruct (Unified.extraction p) as [ext|e]; [|repeat constructor].
    assert (B : Forall (fun e => is_page_close e = false
                                 /\ is_context_close e = false)
                       (fst (Unified.gemini_body oc ext st))).
    { unfold Unified.gemini_body.
      destruct (truthy _ && _); [|constructor].
      destruct (oc && _);
        destruct (String.eqb _ _); try destruct (_ || _);
        simpl; repeat constructor. }
    destruct (Unified.gemini_body oc ext st) as [evs [st1|r]]; simpl in *.
    + constructor; [now split|]. apply Forall_app; split; [exact B|apply IH].
    + constructor; [now split|exact B].
Qed.

(** X22. The [queryGemini] of the unified server: an answer it resolves
    with has more than 10 code units and comes with an empty list of
    sources; and every execution that has finished after [createPage]
    returned has closed the page and then the browser context, each
    once, as its last two steps (the [queryGemini] of gemini-server.js
    closes the page only). *)
Theorem unified_gemini_query :
  forall (query : string) (onChunk : bool) (w : Unified.World) t c,
    Unified.queryGemini query onChunk w = (t, Finished c) ->
    (forall r, c = Returned r ->
               10 < String.length (Perplexity.answer r)
               /\ Perplexity.result_sources r = [])
    /\ ((exists u, Unified.createPage w = Returned u) ->
        exists pre,
          t = pre ++ [EvPageClose; EvContextClose]
          /\ count is_page_close pre = 0
          /\ count is_context_close pre = 0).
Proof.
  intros query onChunk w t c. unfold Unified.queryGemini.
  destruct (Unified.createPage w) as [u|e].
  2:{ intros [= <- <-]. split; [discriminate | now intros [u [=]]]. }
  set (tried := match Unified.goto w with
                | Returned _ => _ | Thrown e => _ end).
  assert (T : Forall (fun e => is_page_close e = false
                               /\ is_context_close e = false) (fst tried)
              /\ forall r, snd tried = Finished (Returned r) ->
                           10 < String.length (Perplexity.answer r)
                           /\ Perplexity.result_sources r = []).
  { subst tried.
    destruct (Unified.goto w); [|split; [repeat constructor | discriminate]].
    destruct (Unified.dismiss w);
      [|split; [repeat constructor | discriminate]].
    pose proof (gem_submit_events (Unified.surface w) query) as [F _].
    destruct (Gemini.submitQuery (Unified.surface w) query)
      as [evs [[|]|e]]; cbn [fst] in F.
    - pose proof (unified_gemini_loop_no_close onChunk (Unified.polls w)
                    loop_start) as N.
      pose proof (unified_gemini_loop_answer onChunk (Unified.polls w)
                    loop_start) as A.
      destruct (Unified.gemini_loop onChunk (Unified.polls w) loop_start)
        as [tl o]. unfold after; cbn [fst snd] in *. split.
      + repeat (constructor; [now split|]). now apply Forall_app.
      + intros r ->. apply (A tl r); [now left | reflexivity].
    - split; [repeat (constructor; [now split|]); exact F|].
      cbn [snd]. destruct (Unified.debug_dump w); discriminate.
    - split; [repeat (constructor; [now split|]); exact F | discriminate]. }
  destruct T as [T1 T2].
  destruct tried as [t0 [st|c0]]; [discriminate|]. cbn [fst snd] in *.
  intros [= <- <-]. split.
  - intros r ->. now apply T2.
  - intros _. exists t0. split; [reflexivity|]. split.
    + apply count_none. eapply Forall_impl; [|exact T1]. now intros e [? ?].
    + apply count_none. eapply Forall_impl; [|exact T1]. now intros e [? ?].
Qed.

(** The theorem at work on a text read three times with no busy
    signal. *)
Lemma unified_gemini_query_witness :
  let read := fun ms =>
    {| Unified.elapsed := ms;
       Unified.extraction :=
         Returned {| Unified.answerText := "Paris, France";
                     Unified.isLoading := false |} |} in
  let w := {| Unified.createPage := Returned tt; Unified.goto := Returned tt;
              Unified.dismiss := Returned tt; Unified.surface := usable_page;
              Unified.debug_dump := Returned tt;
              Unified.polls := map read (ticks 5000 4) |} in
  Unified.queryGemini "capital?" false w
  = ([EvGoto; EvSubmit; EvInsertText "capital?"; EvExtract; EvExtract;
      EvExtract; EvExtract; EvPageClose; EvContextClose],
     Finished (Returned {| Perplexity.answer := "Paris, France";
                           Perplexity.result_sources := [] |}))
  /\ (10 < String.length "Paris, France"
      /\ @nil Source = []).
Proof.
  cbv zeta. split; [vm_compute; reflexivity|].
  match goal with
  | |- 10 < String.length ?a /\ _ =>
      apply (proj1 (unified_gemini_query "capital?" false
               {| Unified.createPage := Returned tt;
                  Unified.goto := Returned tt;
                  Unified.dismiss := Returned tt;
                  Unified.surface := usable_page;
                  Unified.debug_dump := Returned tt;
                  Unified.polls :=
                    map (fun ms =>
                           {| Unified.elapsed := ms;
                              Unified.extraction :=
                                Returned {| Unified.answerText := "Paris, France";
                                            Unified.isLoading := false |} |})
                        (ticks 5000 4) |}
               [EvGoto; EvSubmit; EvInsertText "capital?"; EvExtract;
                EvExtract; EvExtract; EvExtract; EvPageClose; EvContextClose]
               (Returned {| Perplexity.answer := a;
                            Perplexity.result_sources := [] |})
               ltac:(vm_compute; reflexivity))
             {| Perplexity.answer := a; Perplexity.result_sources := [] |}
             eq_refl)
  end.
Defined.
